(** * HttpRunner websocket step: protocol client and step orchestrator

    A shallow embedding of
      - [httprunner/websocket/websocket_client.py] (class [WebsocketClient]) and
      - [httprunner/step_websocket_request.py] ([run_step_websocket_request]),
    together with models of the library code they call: Python values,
    [json.dumps] / [json.loads], UTF-8, and the [websocket-client] transport
    seen as a scripted double that records every socket operation. *)

From Stdlib Require Import ZArith NArith String Ascii List Lia.
From Stdlib.Strings Require Import Byte.
From stdpp Require Import gmap strings pretty.
Import ListNotations.

Local Open Scope string_scope.
Local Open Scope Z_scope.
Local Set Warnings "-register-all".

(* ===================================================================== *)
(** * Python values *)
(* ===================================================================== *)

(** The values that travel through the client.  A [str] is held as the
    UTF-8 encoding of its text, so an ASCII text is the Rocq string with
    the same characters.  A [float] is held as the decimal literal that
    denotes it ([repr]); no rounding to binary64 is modelled.  A [dict]
    keeps insertion order and has [str] keys. *)
Inductive pyval : Type :=
| PNone
| PBool (b : bool)
| PInt (n : Z)
| PFloat (lit : string)
| PStr (s : string)
| PBytes (b : list byte)
| PList (items : list pyval)
| PDict (items : list (string * pyval)).

(** [d[k] = v] on an insertion-ordered dict: an existing key keeps its
    position and takes the new value, a new key goes last. *)
Fixpoint dict_set (k : string) (v : pyval) (d : list (string * pyval))
  : list (string * pyval) :=
  match d with
  | [] => [(k, v)]
  | (k', v') :: r =>
      if String.eqb k k' then (k, v) :: r else (k', v') :: dict_set k v r
  end.

(** [sep.join(parts)] *)
Fixpoint join (sep : string) (parts : list string) : string :=
  match parts with
  | [] => ""
  | [p] => p
  | p :: r => p ++ sep ++ join sep r
  end.

(** [s[-n:]] for a positive [n]. *)
Definition last_chars (n : nat) (s : string) : string :=
  string_of_list_ascii
    (drop (List.length (list_ascii_of_string s) - n)%nat (list_ascii_of_string s)).

(* ===================================================================== *)
(** * UTF-8 *)
(* ===================================================================== *)

Module Utf8.
Local Open Scope N_scope.

Definition cont (b : N) : bool := (128 <=? b) && (b <=? 191).
Definition between (lo hi b : N) : bool := (lo <=? b) && (b <=? hi).
Definition low6 (b : N) : N := N.land b 63.

(** Decoding to code points, following the table of well-formed byte
    sequences of the Unicode standard.  With [surr] the three-byte
    forms of the surrogates U+D800..U+DFFF are let through (a Python
    [str] may hold lone surrogates); [bytes.decode("utf-8")] does not
    accept them.  [None] is Python's [UnicodeDecodeError]. *)
Fixpoint decode (surr : bool) (bs : list N) : option (list N) :=
  match bs with
  | [] => Some []
  | b0 :: r0 =>
      if b0 <? 128 then option_map (cons b0) (decode surr r0)
      else match r0 with
      | [] => None
      | b1 :: r1 =>
          if between 194 223 b0 then
            if cont b1
            then option_map (cons (N.shiftl (N.land b0 31) 6 + low6 b1)) (decode surr r1)
            else None
          else match r1 with
          | [] => None
          | b2 :: r2 =>
              if between 224 239 b0 then
                if (if b0 =? 224 then between 160 191 b1
                    else if (b0 =? 237) && negb surr then between 128 159 b1
                    else cont b1) && cont b2
                then option_map
                       (cons (N.shiftl (N.land b0 15) 12 + N.shiftl (low6 b1) 6 + low6 b2))
                       (decode surr r2)
                else None
              else match r2 with
              | [] => None
              | b3 :: r3 =>
                  if between 240 244 b0 then
                    if (if b0 =? 240 then between 144 191 b1
                        else if b0 =? 244 then between 128 143 b1
                        else cont b1) && cont b2 && cont b3
                    then option_map
                           (cons (N.shiftl (N.land b0 7) 18 + N.shiftl (low6 b1) 12
                                  + N.shiftl (low6 b2) 6 + low6 b3))
                           (decode surr r3)
                    else None
                  else None
              end
          end
      end
  end.

(** Encoding of one code point (surrogates included, as three bytes). *)
Definition encode1 (u : N) : list N :=
  if u <? 128 then [u]
  else if u <? 2048 then [192 + N.shiftr u 6; 128 + low6 u]
  else if u <? 65536 then
    [224 + N.shiftr u 12; 128 + low6 (N.shiftr u 6); 128 + low6 u]
  else [240 + N.shiftr u 18; 128 + low6 (N.shiftr u 12);
        128 + low6 (N.shiftr u 6); 128 + low6 u].

Definition bytes_of_string (s : string) : list N :=
  List.map N_of_ascii (list_ascii_of_string s).
Definition string_of_bytes (bs : list N) : string :=
  string_of_list_ascii (List.map ascii_of_N bs).
End Utf8.

(** [str(b, encoding="utf-8")]: the text when [b] is well-formed UTF-8,
    otherwise [UnicodeDecodeError] ([None]). *)
Definition decode_utf8 (b : list byte) : option string :=
  match Utf8.decode false (List.map Byte.to_N b) with
  | Some _ => Some (string_of_list_byte b)
  | None => None
  end.

(** [s.encode("utf-8")] *)
Definition encode_utf8 (s : string) : list byte := list_byte_of_string s.

(* ===================================================================== *)
(** * The [json] module *)
(* ===================================================================== *)

Module Json.

(** ** [json.dumps] with its default options
    ([ensure_ascii=True], separators [", "] and [": "]). *)

(** The double quote character. *)
Definition dq : ascii := ascii_of_N 34.

Definition hex_digit (n : N) : ascii :=
  ascii_of_N (if (n <? 10)%N then 48 + n else 87 + n)%N.

(** ['\\u{0:04x}'.format(u)] *)
Definition u_escape (u : N) : list ascii :=
  ["\"%char; "u"%char;
   hex_digit (N.land (N.shiftr u 12) 15); hex_digit (N.land (N.shiftr u 8) 15);
   hex_digit (N.land (N.shiftr u 4) 15); hex_digit (N.land u 15)].

Definition escape_char (u : N) : list ascii :=
  if (u =? 34)%N then ["\"%char; dq]
  else if (u =? 92)%N then ["\"%char; "\"%char]
  else if (u =? 10)%N then ["\"%char; "n"%char]
  else if (u =? 13)%N then ["\"%char; "r"%char]
  else if (u =? 9)%N then ["\"%char; "t"%char]
  else if (u =? 8)%N then ["\"%char; "b"%char]
  else if (u =? 12)%N then ["\"%char; "f"%char]
  else if (32 <=? u)%N && (u <=? 126)%N then [ascii_of_N u]
  else if (u <? 65536)%N then u_escape u
  else let v := (u - 65536)%N in
       u_escape (55296 + N.land (N.shiftr v 10) 1023)
       ++ u_escape (56320 + N.land v 1023).

(** The code points of a [str]; a string that is not the encoding of any
    text is read byte by byte. *)
Definition code_points (s : string) : list N :=
  match Utf8.decode true (Utf8.bytes_of_string s) with
  | Some cps => cps
  | None => Utf8.bytes_of_string s
  end.

Definition quote (s : string) : string :=
  string_of_list_ascii
    ((dq :: List.concat (List.map escape_char (code_points s))) ++ [dq]).

Definition dumps_float (lit : string) : string :=
  if String.eqb lit "nan" then "NaN"
  else if String.eqb lit "inf" then "Infinity"
  else if String.eqb lit "-inf" then "-Infinity"
  else lit.

(** [None] is the [TypeError] of a value that is not JSON serializable
    ([bytes], alone or inside a container). *)
Fixpoint dumps (v : pyval) : option string :=
  match v with
  | PNone => Some "null"
  | PBool true => Some "true"
  | PBool false => Some "false"
  | PInt n => Some (pretty n)
  | PFloat lit => Some (dumps_float lit)
  | PStr s => Some (quote s)
  | PBytes _ => None
  | PList items =>
      option_map (fun parts => "[" ++ join ", " parts ++ "]")
        ((fix all (l : list pyval) : option (list string) :=
            match l with
            | [] => Some []
            | x :: r =>
                match dumps x, all r with
                | Some a, Some b => Some (a :: b)
                | _, _ => None
                end
            end) items)
  | PDict items =>
      option_map (fun parts => "{" ++ join ", " parts ++ "}")
        ((fix all (l : list (string * pyval)) : option (list string) :=
            match l with
            | [] => Some []
            | (k, x) :: r =>
                match dumps x, all r with
                | Some a, Some b => Some ((quote k ++ ": " ++ a) :: b)
                | _, _ => None
                end
            end) items)
  end.

(** ** [json.loads] with its default options

    The text is cut into tokens by a character-level automaton and the
    tokens are assembled by a push-down automaton; both consume their
    input one element at a time.  [None] is [json.JSONDecodeError].
    As in Python, [NaN], [Infinity] and [-Infinity] are read, a control
    character inside a string is refused, and of two members with the
    same key the later value wins.  The limits of the interpreter
    (nesting depth, number of digits of an integer) are not modelled. *)

Local Open Scope N_scope.

Inductive token : Type :=
| TLBrace | TRBrace | TLBrack | TRBrack | TColon | TComma
| TScalar (v : pyval).

(** Lexer states.  [acc] holds the bytes of the string literal read so
    far, most recent first; [hi] a high surrogate written as an escape
    that waits for its low half. *)
Inductive lex_state : Type :=
| LTop
| LStr (acc : list N) (hi : option N)
| LEsc (acc : list N) (hi : option N)
| LUni (acc : list N) (hi : option N) (val : N) (k : nat)
| LNum (acc : list N)
| LWord (acc : list N).

Definition is_ws (c : N) : bool := (c =? 32) || (c =? 9) || (c =? 10) || (c =? 13).
Definition is_digit (c : N) : bool := (48 <=? c) && (c <=? 57).
Definition is_letter (c : N) : bool :=
  ((65 <=? c) && (c <=? 90)) || ((97 <=? c) && (c <=? 122)).
Definition is_num_char (c : N) : bool :=
  is_digit c || (c =? 45) || (c =? 43) || (c =? 46) || (c =? 101) || (c =? 69).

Definition hex_val (c : N) : option N :=
  if is_digit c then Some (c - 48)
  else if (97 <=? c) && (c <=? 102) then Some (c - 87)
  else if (65 <=? c) && (c <=? 70) then Some (c - 55)
  else None.

Definition push_cp (u : N) (acc : list N) : list N := List.rev (Utf8.encode1 u) ++ acc.
Definition flush (acc : list N) (hi : option N) : list N :=
  match hi with Some h => push_cp h acc | None => acc end.
Definition is_high (u : N) : bool := (55296 <=? u) && (u <=? 56319).
Definition is_low (u : N) : bool := (56320 <=? u) && (u <=? 57343).

(** A complete [\uXXXX] escape of value [u]. *)
Definition after_escape (acc : list N) (hi : option N) (u : N) : lex_state :=
  match hi with
  | Some h =>
      if is_low u
      then LStr (push_cp (65536 + N.lor (N.shiftl (h - 55296) 10) (u - 56320)) acc) None
      else if is_high u then LStr (push_cp h acc) (Some u)
      else LStr (push_cp u (push_cp h acc)) None
  | None => if is_high u then LStr acc (Some u) else LStr (push_cp u acc) None
  end.

Fixpoint span_digits (cs : list N) : list N * list N :=
  match cs with
  | c :: r => if is_digit c then let (d, t) := span_digits r in (c :: d, t) else ([], cs)
  | [] => ([], [])
  end.

Definition digits_value (ds : list N) : Z :=
  fold_left (fun a d => (10 * a + Z.of_N (d - 48))%Z) ds 0%Z.

Definition exponent_ok (cs : list N) : bool :=
  match cs with
  | [] => true
  | e :: r =>
      if (e =? 101) || (e =? 69) then
        let r' := match r with
                  | s :: t => if (s =? 43) || (s =? 45) then t else r
                  | [] => r
                  end in
        match span_digits r' with
        | (_ :: _, []) => true
        | _ => false
        end
      else false
  end.

(** A whole run of number characters against the JSON number grammar
    (optional minus; 0 or a nonzero digit followed by digits; optional
    fraction; optional exponent): an [int] when it has neither fraction
    nor exponent, a [float] otherwise. *)
Definition number (cs : list N) : option pyval :=
  let '(neg, r) := match cs with
                   | c :: t => if c =? 45 then (true, t) else (false, cs)
                   | [] => (false, cs)
                   end in
  let '(ip, r1) := span_digits r in
  match ip with
  | [] => None
  | d :: more =>
      if (d =? 48) && negb (match more with [] => true | _ => false end) then None
      else match r1 with
      | [] => Some (PInt (if neg then - digits_value ip else digits_value ip)%Z)
      | c :: r2 =>
          if c =? 46 then
            match span_digits r2 with
            | (_ :: _, r3) =>
                if exponent_ok r3 then Some (PFloat (Utf8.string_of_bytes cs)) else None
            | _ => None
            end
          else if exponent_ok r1 then Some (PFloat (Utf8.string_of_bytes cs)) else None
      end
  end.

Definition word (cs : list N) : option pyval :=
  let w := Utf8.string_of_bytes cs in
  if String.eqb w "true" then Some (PBool true)
  else if String.eqb w "false" then Some (PBool false)
  else if String.eqb w "null" then Some PNone
  else if String.eqb w "NaN" then Some (PFloat "nan")
  else if String.eqb w "Infinity" then Some (PFloat "inf")
  else if String.eqb w "-Infinity" then Some (PFloat "-inf")
  else None.

Definition lex_top (c : N) : option (lex_state * list token) :=
  if is_ws c then Some (LTop, [])
  else if c =? 123 then Some (LTop, [TLBrace])
  else if c =? 125 then Some (LTop, [TRBrace])
  else if c =? 91 then Some (LTop, [TLBrack])
  else if c =? 93 then Some (LTop, [TRBrack])
  else if c =? 58 then Some (LTop, [TColon])
  else if c =? 44 then Some (LTop, [TComma])
  else if c =? 34 then Some (LStr [] None, [])
  else if (c =? 45) || is_digit c then Some (LNum [c], [])
  else if is_letter c then Some (LWord [c], [])
  else None.

(** The literal [v] is complete and [c] is the character after it. *)
Definition emit_then (v : option pyval) (c : N) : option (lex_state * list token) :=
  match v, lex_top c with
  | Some v, Some (st, ts) => Some (st, TScalar v :: ts)
  | _, _ => None
  end.

Definition lex_step (st : lex_state) (c : N) : option (lex_state * list token) :=
  match st with
  | LTop => lex_top c
  | LStr acc hi =>
      if c =? 34 then Some (LTop, [TScalar (PStr (Utf8.string_of_bytes (List.rev (flush acc hi))))])
      else if c =? 92 then Some (LEsc acc hi, [])
      else if c <? 32 then None
      else Some (LStr (c :: flush acc hi) None, [])
  | LEsc acc hi =>
      if c =? 117 then Some (LUni acc hi 0 0, [])
      else
        let plain (b : N) := Some (LStr (b :: flush acc hi) None, []) in
        if (c =? 34) || (c =? 92) || (c =? 47) then plain c
        else if c =? 98 then plain 8
        else if c =? 102 then plain 12
        else if c =? 110 then plain 10
        else if c =? 114 then plain 13
        else if c =? 116 then plain 9
        else None
  | LUni acc hi val k =>
      match hex_val c with
      | Some d =>
          let val' := 16 * val + d in
          match k with
          | 3%nat => Some (after_escape acc hi val', [])
          | _ => Some (LUni acc hi val' (S k), [])
          end
      | None => None
      end
  | LNum acc =>
      if is_num_char c then Some (LNum (c :: acc), [])
      else match acc with
           | [45] => if c =? 73 then Some (LWord [c; 45], []) else None
           | _ => emit_then (number (List.rev acc)) c
           end
  | LWord acc =>
      if is_letter c then Some (LWord (c :: acc), [])
      else emit_then (word (List.rev acc)) c
  end.

Definition lex_end (st : lex_state) : option (list token) :=
  match st with
  | LTop => Some []
  | LNum acc => option_map (fun v => [TScalar v]) (number (List.rev acc))
  | LWord acc => option_map (fun v => [TScalar v]) (word (List.rev acc))
  | _ => None
  end.

Fixpoint lex (st : lex_state) (cs : list N) : option (list token) :=
  match cs with
  | [] => lex_end st
  | c :: r =>
      match lex_step st c with
      | Some (st', ts) => option_map (app ts) (lex st' r)
      | None => None
      end
  end.

(** Open containers, innermost first: an array with its items so far
    (most recent first), or an object with its members so far and the
    key whose value is awaited. *)
Inductive ctx : Type :=
| CArr (items : list pyval)
| CObj (members : list (string * pyval)) (key : string).

Inductive pstate : Type :=
| SValue (st : list ctx)      (* a value must follow *)
| SArrFirst (st : list ctx)   (* after "[": a value or "]" *)
| SObjFirst (st : list ctx) (members : list (string * pyval))  (* after "{": a key or "}" *)
| SKey (st : list ctx) (members : list (string * pyval))       (* after "," in an object *)
| SColon (st : list ctx) (members : list (string * pyval)) (key : string)
| SAfter (st : list ctx)      (* after a value in a container *)
| SDone (v : pyval).          (* the document is complete *)

(** The value [v] is complete. *)
Definition reduce (v : pyval) (st : list ctx) : pstate :=
  match st with
  | [] => SDone v
  | CArr items :: up => SAfter (CArr (v :: items) :: up)
  | CObj members key :: up => SAfter (CObj (dict_set key v members) key :: up)
  end.

Definition value_step (st : list ctx) (t : token) : option pstate :=
  match t with
  | TScalar v => Some (reduce v st)
  | TLBrack => Some (SArrFirst (CArr [] :: st))
  | TLBrace => Some (SObjFirst st [])
  | _ => None
  end.

Definition key_step (st : list ctx) (members : list (string * pyval)) (t : token)
  : option pstate :=
  match t with
  | TScalar (PStr k) => Some (SColon st members k)
  | _ => None
  end.

Definition pstep (s : pstate) (t : token) : option pstate :=
  match s with
  | SValue st => value_step st t
  | SArrFirst st =>
      match t, st with
      | TRBrack, CArr items :: up => Some (reduce (PList (List.rev items)) up)
      | _, _ => value_step st t
      end
  | SObjFirst st members =>
      match t with
      | TRBrace => Some (reduce (PDict members) st)
      | _ => key_step st members t
      end
  | SKey st members => key_step st members t
  | SColon st members key =>
      match t with
      | TColon => Some (SValue (CObj members key :: st))
      | _ => None
      end
  | SAfter st =>
      match t, st with
      | TComma, CArr _ :: _ => Some (SValue st)
      | TRBrack, CArr items :: up => Some (reduce (PList (List.rev items)) up)
      | TComma, CObj members _ :: up => Some (SKey up members)
      | TRBrace, CObj members _ :: up => Some (reduce (PDict members) up)
      | _, _ => None
      end
  | SDone _ => None
  end.

Fixpoint parse (s : pstate) (ts : list token) : option pyval :=
  match ts with
  | [] => match s with SDone v => Some v | _ => None end
  | t :: r =>
      match pstep s t with
      | Some s' => parse s' r
      | None => None
      end
  end.

Definition loads (s : string) : option pyval :=
  match lex LTop (Utf8.bytes_of_string s) with
  | Some ts => parse (SValue []) ts
  | None => None
  end.

(** ** [json.loads] on [bytes]

    [json.loads] turns bytes into text with
    [s.decode(detect_encoding(s), 'surrogatepass')]: the encoding is
    read off a byte order mark or off the pattern of zero bytes at the
    start, and unpaired surrogates are let through. *)

Inductive encoding : Type :=
| utf_8 | utf_8_sig | utf_16 | utf_16_be | utf_16_le | utf_32 | utf_32_be | utf_32_le.

(** [bs.startswith(p)] *)
Fixpoint starts_with (p bs : list N) : bool :=
  match p, bs with
  | [], _ => true
  | x :: p', y :: bs' => (x =? y) && starts_with p' bs'
  | _ :: _, [] => false
  end.

Definition BOM_UTF8 : list N := [239; 187; 191].
Definition BOM_UTF16_LE : list N := [255; 254].
Definition BOM_UTF16_BE : list N := [254; 255].
Definition BOM_UTF32_LE : list N := [255; 254; 0; 0].
Definition BOM_UTF32_BE : list N := [0; 0; 254; 255].

(** [json.detect_encoding] *)
Definition detect_encoding (b : list N) : encoding :=
  if starts_with BOM_UTF32_BE b || starts_with BOM_UTF32_LE b then utf_32
  else if starts_with BOM_UTF16_BE b || starts_with BOM_UTF16_LE b then utf_16
  else if starts_with BOM_UTF8 b then utf_8_sig
  else match b with
       | b0 :: b1 :: b2 :: b3 :: _ =>
           if b0 =? 0 then (if b1 =? 0 then utf_32_be else utf_16_be)
           else if b1 =? 0 then (if (b2 =? 0) && (b3 =? 0) then utf_32_le else utf_16_le)
           else utf_8
       | [b0; b1] =>
           if b0 =? 0 then utf_16_be else if b1 =? 0 then utf_16_le else utf_8
       | _ => utf_8
       end.

(** The 16-bit and 32-bit code units of a byte string; [None] when
    bytes are left over (Python's "truncated data"). *)
Fixpoint units16 (big_endian : bool) (bs : list N) : option (list N) :=
  match bs with
  | [] => Some []
  | x :: y :: r =>
      option_map (cons (if big_endian then 256 * x + y else x + 256 * y))
        (units16 big_endian r)
  | _ => None
  end.

Fixpoint units32 (big_endian : bool) (bs : list N) : option (list N) :=
  match bs with
  | [] => Some []
  | a :: b :: c :: d :: r =>
      option_map (cons (if big_endian then ((a * 256 + b) * 256 + c) * 256 + d
                        else a + 256 * (b + 256 * (c + 256 * d))))
        (units32 big_endian r)
  | _ => None
  end.

(** The code points of UTF-16 code units: a high surrogate followed by a
    low one is one code point, any other surrogate stands for itself. *)
Fixpoint pair_surrogates (us : list N) : list N :=
  match us with
  | [] => []
  | u :: r =>
      match r with
      | l :: r' =>
          if is_high u && is_low l
          then (65536 + (u - 55296) * 1024 + (l - 56320)) :: pair_surrogates r'
          else u :: pair_surrogates r
      | [] => [u]
      end
  end.

(** The [str] of a list of code points, held as its UTF-8 encoding. *)
Definition str_of_code_points (cps : list N) : string :=
  Utf8.string_of_bytes (List.concat (List.map Utf8.encode1 cps)).

Definition decode_utf_8 (b : list N) : option string :=
  match Utf8.decode true b with
  | Some _ => Some (Utf8.string_of_bytes b)
  | None => None
  end.

Definition decode_utf_16 (big_endian : bool) (b : list N) : option string :=
  option_map (fun us => str_of_code_points (pair_surrogates us)) (units16 big_endian b).

Definition decode_utf_32 (big_endian : bool) (b : list N) : option string :=
  match units32 big_endian b with
  | Some us => if forallb (fun u => u <? 1114112) us
               then Some (str_of_code_points us) else None
  | None => None
  end.

(** [b.decode(enc, 'surrogatepass')]; [None] is [UnicodeDecodeError].
    The codecs [utf-8-sig], [utf-16] and [utf-32] take a byte order mark
    off the front; without a mark the last two read little-endian, which
    [detect_encoding] never asks for. *)
Definition decode (enc : encoding) (b : list N) : option string :=
  match enc with
  | utf_8 => decode_utf_8 b
  | utf_8_sig => decode_utf_8 (if starts_with BOM_UTF8 b then drop 3 b else b)
  | utf_16 =>
      if starts_with BOM_UTF16_BE b then decode_utf_16 true (drop 2 b)
      else if starts_with BOM_UTF16_LE b then decode_utf_16 false (drop 2 b)
      else decode_utf_16 false b
  | utf_16_be => decode_utf_16 true b
  | utf_16_le => decode_utf_16 false b
  | utf_32 =>
      if starts_with BOM_UTF32_BE b then decode_utf_32 true (drop 4 b)
      else if starts_with BOM_UTF32_LE b then decode_utf_32 false (drop 4 b)
      else decode_utf_32 false b
  | utf_32_be => decode_utf_32 true b
  | utf_32_le => decode_utf_32 false b
  end.

(** The text that [json.loads] reads out of bytes. *)
Definition text_of_bytes (b : list byte) : option string :=
  let bs := List.map Byte.to_N b in decode (detect_encoding bs) bs.
End Json.

(** A [str] of ASCII text with double quotes in it: [q "a"] is the three
    characters of a quoted a. *)
Definition q (s : string) : string := String Json.dq (s ++ String Json.dq "").

(* ===================================================================== *)
(** * Exceptions and the effect monad *)
(* ===================================================================== *)

Inductive exn : Type :=
| ValueError (msg : string)
| TypeError
| UnicodeDecodeError
| JSONDecodeError
| StructError
| AttributeError
| OSError
| ConnectionRefusedError
| BrokenPipeError
| WebSocketConnectionClosedException
| WebSocketTimeoutException
| WebSocketProtocolException
| WebSocketPayloadException
| SystemExit (code : Z)
| ValidationFailure
| Exception (name : string).

(** A call returns, raises, or blocks for ever (a receive on a socket
    without timeout whose peer stays silent). *)
Inductive outcome (A : Type) : Type :=
| Ok (a : A)
| Raise (e : exn)
| Hang.
Arguments Ok {A} a.
Arguments Raise {A} e.
Arguments Hang {A}.

(** A computation over a mutable state [S].  The state comes back in all
    three cases: what was written before an exception stays written. *)
Definition M (S A : Type) : Type := S -> outcome A * S.

Definition ret {S A} (a : A) : M S A := fun s => (Ok a, s).
Definition raise {S A} (e : exn) : M S A := fun s => (Raise e, s).
Definition bind {S A B} (m : M S A) (k : A -> M S B) : M S B :=
  fun s => match m s with
           | (Ok a, s') => k a s'
           | (Raise e, s') => (Raise e, s')
           | (Hang, s') => (Hang, s')
           end.
Definition gets {S A} (f : S -> A) : M S A := fun s => (Ok (f s), s).
Definition modify {S} (f : S -> S) : M S unit := fun s => (Ok tt, f s).

(** [try: m  except: h]; the bare [except:] of the source catches every
    exception. *)
Definition try_except {S A} (m : M S A) (h : exn -> M S A) : M S A :=
  fun s => match m s with
           | (Raise e, s') => h e s'
           | r => r
           end.

(** A pure call that may raise. *)
Definition lift {S A} (r : outcome A) : M S A := fun s => (r, s).

Declare Scope monad_scope.
Delimit Scope monad_scope with monad.
Notation "x <- m ;; k" := (bind m (fun x => k))
  (at level 20, m at level 99, k at level 200, only parsing) : monad_scope.
Notation "m ;; k" := (bind m (fun _ => k))
  (at level 100, k at level 200, right associativity, only parsing) : monad_scope.
Local Open Scope monad_scope.

(** The call came back with a value. *)
Definition returned {A S} (r : outcome A * S) : Prop :=
  match fst r with Ok _ => True | _ => False end.

(* ===================================================================== *)
(** * The [websocket-client] library, as a recording double *)
(* ===================================================================== *)

(** [ABNF]: a frame, with the opcodes and the 16-bit length bound.  A
    frame is a whole message: its FIN bit is set and its reserved bits
    are clear. *)
Record ABNF : Type := { opcode : Z; data : list byte }.

Definition OPCODE_CONT : Z := 0.
Definition OPCODE_TEXT : Z := 1.
Definition OPCODE_BINARY : Z := 2.
Definition OPCODE_CLOSE : Z := 8.
Definition OPCODE_PING : Z := 9.
Definition OPCODE_PONG : Z := 10.
Definition LENGTH_16 : Z := Z.shiftl 1 16.

Definition STATUS_NORMAL : Z := 1000.
Definition STATUS_ABNORMAL_CLOSED : Z := 1006.

(** [ABNF.OPCODES] and [VALID_CLOSE_STATUS] *)
Definition OPCODES : list Z :=
  [OPCODE_CONT; OPCODE_TEXT; OPCODE_BINARY; OPCODE_CLOSE; OPCODE_PING; OPCODE_PONG].
Definition VALID_CLOSE_STATUS : list Z :=
  [1000; 1001; 1002; 1003; 1007; 1008; 1009; 1010; 1011; 1012; 1013; 1014].

Definition member (z : Z) (l : list Z) : bool := existsb (Z.eqb z) l.

(** [ABNF._is_valid_close_status] *)
Definition _is_valid_close_status (code : Z) : bool :=
  member code VALID_CLOSE_STATUS || ((3000 <=? code) && (code <? 5000)).

(** [validate_utf8]: well-formed UTF-8, surrogates excluded. *)
Definition validate_utf8 (b : list byte) : bool :=
  match decode_utf8 b with Some _ => true | None => false end.

(** What the peer delivers next: a frame, or a failure of the link, as
    the exception that the read of the socket ends in
    ([WebSocketConnectionClosedException] when the stream is at its
    end). *)
Inductive incoming : Type :=
| InFrame (f : ABNF)
| InFault (e : exn).

(** The operations performed on the socket, in order. *)
Inductive sock_op : Type :=
| OpConnect (url : string) (header : gmap string string)
| OpSend (f : ABNF)
| OpRecv (f : ABNF)
| OpSetTimeout (t : option Z)
| OpShutdown
| OpClose.

Inductive level : Type := DEBUG | ERROR.

(** Everything outside the Python objects.  Times are in milliseconds
    ([time.time()] and the socket timeouts of the source are seconds held
    in floats; 3 seconds is 3000 here).  [inbox] is the script of the
    peer: each item arrives [delay] after the previous one was taken; an
    empty inbox is a peer that stays silent.  [log] holds the records that
    the client writes and the one that [ensure_websocket_ready] writes. *)
Record World : Type := {
  now : Z;
  inbox : list (Z * incoming);
  ops : list sock_op;
  accepts : bool;          (* the peer takes a connection; otherwise it refuses it *)
  link_down : bool;        (* writes to the socket fail *)
  error_enabled : bool;    (* websocket._logging.isEnabledForError() *)
  log : list (level * string)   (* loguru records *)
}.

Definition set_now (t : Z) (w : World) : World :=
  {| now := t; inbox := inbox w; ops := ops w; accepts := accepts w;
     link_down := link_down w; error_enabled := error_enabled w; log := log w |}.
Definition set_inbox (i : list (Z * incoming)) (w : World) : World :=
  {| now := now w; inbox := i; ops := ops w; accepts := accepts w;
     link_down := link_down w; error_enabled := error_enabled w; log := log w |}.
Definition record_op (o : sock_op) (w : World) : World :=
  {| now := now w; inbox := inbox w; ops := ops w ++ [o]; accepts := accepts w;
     link_down := link_down w; error_enabled := error_enabled w; log := log w |}.
Definition record_log (l : level) (msg : string) (w : World) : World :=
  {| now := now w; inbox := inbox w; ops := ops w; accepts := accepts w;
     link_down := link_down w; error_enabled := error_enabled w;
     log := log w ++ [(l, msg)] |}.

(** The library's [WebSocket] object.  [sock] is [None] when there is no
    socket, otherwise the blocking timeout of the socket ([None]: block
    for ever). *)
Record WebSocket : Type := {
  connected : bool;
  sock : option (option Z);
  sock_opt_timeout : option Z;
  status : option Z
}.

Definition set_connected (b : bool) (ws : WebSocket) : WebSocket :=
  {| connected := b; sock := sock ws; sock_opt_timeout := sock_opt_timeout ws;
     status := status ws |}.
Definition set_sock (s : option (option Z)) (ws : WebSocket) : WebSocket :=
  {| connected := connected ws; sock := s; sock_opt_timeout := sock_opt_timeout ws;
     status := status ws |}.

(** [WebSocket()] *)
Definition new_WebSocket : WebSocket :=
  {| connected := false; sock := None; sock_opt_timeout := None; status := None |}.

(** [struct.pack("!H", n)]: two bytes, big-endian. *)
Definition byte_of_Z (z : Z) : byte :=
  match Byte.of_N (Z.to_N z) with Some b => b | None => x00 end.
Definition Z_of_byte (b : byte) : Z := Z.of_N (Byte.to_N b).

Definition struct_pack_H (n : Z) : outcome (list byte) :=
  if (0 <=? n) && (n <? 65536)
  then Ok [byte_of_Z (Z.shiftr n 8); byte_of_Z (Z.land n 255)]
  else Raise StructError.

(** [struct.unpack("!H", b)[0]]: [b] must hold exactly two bytes. *)
Definition struct_unpack_H (b : list byte) : outcome Z :=
  match b with
  | [hi; lo] => Ok (Z.lor (Z.shiftl (Z_of_byte hi) 8) (Z_of_byte lo))
  | _ => Raise StructError
  end.

(* ===================================================================== *)
(** * [WebsocketClient]: state and the library calls it makes *)
(* ===================================================================== *)

Record WebsocketClient : Type := {
  client : WebSocket;
  text : pyval;
  binary : pyval;
  status_code : option Z
}.

(** [WebsocketClient()] *)
Definition new_WebsocketClient : WebsocketClient :=
  {| client := new_WebSocket; text := PNone; binary := PNone; status_code := None |}.

Definition set_client (ws : WebSocket) (c : WebsocketClient) : WebsocketClient :=
  {| client := ws; text := text c; binary := binary c; status_code := status_code c |}.
Definition set_text (v : pyval) (c : WebsocketClient) : WebsocketClient :=
  {| client := client c; text := v; binary := binary c; status_code := status_code c |}.
Definition set_status_code (v : option Z) (c : WebsocketClient) : WebsocketClient :=
  {| client := client c; text := text c; binary := binary c; status_code := v |}.

(** The state a method of the client runs in: the object and the world. *)
Record St : Type := { self : WebsocketClient; world : World }.

Definition on_self (f : WebsocketClient -> WebsocketClient) (st : St) : St :=
  {| self := f (self st); world := world st |}.
Definition on_world (f : World -> World) (st : St) : St :=
  {| self := self st; world := f (world st) |}.
Definition on_client (f : WebSocket -> WebSocket) : St -> St :=
  on_self (fun c => set_client (f (client c)) c).

Definition the_sock (st : St) : option (option Z) := sock (client (self st)).

(** [time.time()] *)
Definition time_time : M St Z := gets (fun st => now (world st)).

(** [isEnabledForError()] *)
Definition isEnabledForError : M St bool := gets (fun st => error_enabled (world st)).

(** [logger.debug(msg)], [logger.error(msg)] *)
Definition logger (l : level) (msg : string) : M St unit :=
  modify (on_world (record_log l msg)).

(** [self.client.connect(url, **options)].  The library takes its
    [timeout] option in seconds, keeps it as the default for its sockets
    and makes it the timeout of the new socket ([None], which is what the
    step passes when the request has no timeout, makes the socket block);
    the header goes out with the handshake.  When the peer refuses the
    connection, the exception leaves [connect] before [self.sock] is
    assigned: a socket that the client had stays where it is. *)
Definition ws_connect (url : string) (header : gmap string string)
    (timeout_seconds : option Z) : M St unit :=
  fun st =>
    let tmo := option_map (Z.mul 1000) timeout_seconds in
    if accepts (world st) then
      (Ok tt,
       on_client (fun ws => {| connected := true; sock := Some tmo;
                               sock_opt_timeout := tmo; status := Some 101 |})
         (on_world (record_op (OpConnect url header)) st))
    else
      (Raise ConnectionRefusedError,
       on_client (fun ws => {| connected := connected ws; sock := sock ws;
                               sock_opt_timeout := tmo; status := status ws |}) st).

(** [self.client.send(payload, opcode)]: one frame goes to the socket.
    The library encodes a [str] payload as UTF-8. *)
Definition ws_send (payload : pyval) (opc : Z) : M St unit :=
  fun st =>
    match match payload with
          | PStr s => Some (encode_utf8 s)
          | PBytes b => Some b
          | _ => None
          end with
    | None => (Raise TypeError, st)
    | Some d =>
        match the_sock st with
        | None => (Raise WebSocketConnectionClosedException, st)
        | Some _ =>
            if link_down (world st) then (Raise BrokenPipeError, st)
            else (Ok tt, on_world (record_op (OpSend {| opcode := opc; data := d |})) st)
        end
    end.

(** What the library does when a read finds no socket or the stream at
    its end: it closes the socket if there is one, forgets it, and marks
    the handle as not connected. *)
Definition drop_socket (st : St) : St :=
  on_client (fun ws => set_connected false (set_sock None ws))
    match the_sock st with
    | Some _ => on_world (record_op OpClose) st
    | None => st
    end.

(** The item [item], due after [delay], is taken from the peer's script. *)
Definition deliver (delay : Z) (item : incoming) (rest : list (Z * incoming))
  : M St ABNF :=
  fun st =>
    let st' := on_world (fun w => set_inbox rest (set_now (now w + delay) w)) st in
    match item with
    | InFrame f => (Ok f, on_world (record_op (OpRecv f)) st')
    | InFault WebSocketConnectionClosedException =>
        (Raise WebSocketConnectionClosedException, drop_socket st')
    | InFault e => (Raise e, st')
    end.

(** The read of one frame from the socket: blocks until the next item of
    the peer's script arrives or the socket timeout expires. *)
Definition read_frame : M St ABNF :=
  fun st =>
    match the_sock st with
    | None => (Raise WebSocketConnectionClosedException, drop_socket st)
    | Some tmo =>
        let w := world st in
        match inbox w, tmo with
        | [], None => (Hang, st)
        | [], Some t => (Raise WebSocketTimeoutException, on_world (set_now (now w + t)) st)
        | (delay, item) :: rest, None => deliver (Z.max 0 delay) item rest st
        | (delay, item) :: rest, Some t =>
            if t <? Z.max 0 delay
            then (Raise WebSocketTimeoutException,
                  on_world (fun w => set_inbox ((Z.max 0 delay - t, item) :: rest)
                                       (set_now (now w + t) w)) st)
            else deliver (Z.max 0 delay) item rest st
        end
    end.

(** [ABNF.validate], which the library calls on every frame it has
    read: the opcode must be a known one, and the payload of a close
    frame must be empty or hold a valid status, followed by at most 123
    bytes of UTF-8 text. *)
Definition validate (frame : ABNF) : outcome unit :=
  if negb (member (opcode frame) OPCODES) then Raise WebSocketProtocolException
  else if opcode frame =? OPCODE_CLOSE then
    match data frame with
    | [] => Ok tt
    | [_] => Raise WebSocketProtocolException
    | hi :: lo :: reason =>
        if (126 <=? length (data frame))%nat then Raise WebSocketProtocolException
        else if negb (validate_utf8 reason) then Raise WebSocketProtocolException
        else if negb (_is_valid_close_status (256 * Z_of_byte hi + Z_of_byte lo))
        then Raise WebSocketProtocolException
        else Ok tt
    end
  else Ok tt.

(** [self.client.recv_frame()]: the next frame, once it is read and
    found valid. *)
Definition recv_frame : M St ABNF :=
  frame <- read_frame ;;
  lift (validate frame) ;;
  ret frame.

(** [self.client.send_close()], with its default status and reason. *)
Definition send_close : M St unit :=
  modify (on_client (set_connected false)) ;;
  payload <- lift (struct_pack_H STATUS_NORMAL) ;;
  ws_send (PBytes payload) OPCODE_CLOSE.

(** [self.client.recv_data_frame()]: the next data frame or close frame.
    A close frame is answered with a close frame, a ping with a pong of
    the same payload; pings and pongs are passed over.  A continuation
    frame has nothing to continue, frames being whole messages, and a
    text frame must hold UTF-8.  Every turn that goes round again has
    taken a frame from the peer's script, so [fuel] above the length of
    the script is never used up (lemma [recv_data_frame_fuel] below). *)
Fixpoint recv_data_frame (fuel : nat) : M St ABNF :=
  match fuel with
  | O => lift Hang
  | S fuel =>
      frame <- recv_frame ;;
      let opc := opcode frame in
      if (opc =? OPCODE_TEXT) || (opc =? OPCODE_BINARY) || (opc =? OPCODE_CONT) then
        if opc =? OPCODE_CONT then raise WebSocketProtocolException
        else if (opc =? OPCODE_TEXT) && negb (validate_utf8 (data frame))
        then raise WebSocketPayloadException
        else ret frame
      else if opc =? OPCODE_CLOSE then
        send_close ;;
        ret frame
      else if opc =? OPCODE_PING then
        (if (length (data frame) <? 126)%nat
         then ws_send (PBytes (data frame)) OPCODE_PONG
         else raise WebSocketProtocolException) ;;
        recv_data_frame fuel
      else recv_data_frame fuel
  end.

(** [self.client.recv()]: the payload of the next data frame, a [str]
    for a text frame and [bytes] for a binary frame, or the empty [str]
    for a close frame. *)
Definition ws_recv : M St pyval :=
  n <- gets (fun st => length (inbox (world st))) ;;
  frame <- recv_data_frame (n + 1) ;;
  if opcode frame =? OPCODE_TEXT then
    match decode_utf8 (data frame) with
    | Some s => ret (PStr s)
    | None => raise UnicodeDecodeError
    end
  else if opcode frame =? OPCODE_BINARY then ret (PBytes (data frame))
  else ret (PStr "").

(** [self.client.sock.gettimeout()] *)
Definition sock_gettimeout : M St (option Z) :=
  fun st => match the_sock st with
            | None => (Raise AttributeError, st)
            | Some tmo => (Ok tmo, st)
            end.

(** [self.client.sock.settimeout(t)] *)
Definition sock_settimeout (t : option Z) : M St unit :=
  fun st => match the_sock st with
            | None => (Raise AttributeError, st)
            | Some _ =>
                if match t with Some v => v <? 0 | None => false end
                then (Raise (ValueError "Timeout value out of range"), st)
                else (Ok tt, on_client (set_sock (Some t)) (on_world (record_op (OpSetTimeout t)) st))
            end.

(** [self.client.sock.shutdown(socket.SHUT_RDWR)] *)
Definition sock_shutdown : M St unit :=
  fun st => match the_sock st with
            | None => (Raise AttributeError, st)
            | Some _ =>
                if link_down (world st) then (Raise OSError, st)
                else (Ok tt, on_world (record_op OpShutdown) st)
            end.

(** [self.client.shutdown()]: closes the socket if there is one. *)
Definition ws_shutdown : M St unit :=
  fun st => match the_sock st with
            | None => (Ok tt, st)
            | Some _ =>
                (Ok tt, on_client (fun ws => set_connected false (set_sock None ws))
                          (on_world (record_op OpClose) st))
            end.

(** [self.client.settimeout(t)] *)
Definition ws_settimeout (t : option Z) : M St unit :=
  modify (on_client (fun ws => {| connected := connected ws; sock := sock ws;
                                  sock_opt_timeout := t; status := status ws |})) ;;
  fun st => match the_sock st with
            | None => (Ok tt, st)
            | Some _ => sock_settimeout t st
            end.

(** [json.loads(s)] on what [recv] returned; [bytes] are first turned
    into text, in the encoding that [json.detect_encoding] reads off
    them. *)
Definition json_loads (v : pyval) : outcome pyval :=
  match v with
  | PStr s =>
      match Json.loads s with Some r => Ok r | None => Raise JSONDecodeError end
  | PBytes b =>
      match Json.text_of_bytes b with
      | Some s => match Json.loads s with Some r => Ok r | None => Raise JSONDecodeError end
      | None => Raise UnicodeDecodeError
      end
  | _ => Raise TypeError
  end.

(** [json.dumps(v)] *)
Definition json_dumps (v : pyval) : outcome string :=
  match Json.dumps v with Some s => Ok s | None => Raise TypeError end.

(* ===================================================================== *)
(** * [WebsocketClient]: the methods *)
(* ===================================================================== *)

(** Modelled from the spec: [WebsocketMethodEnum] of [httprunner.models],
    which is not among the sources; its six members are those that
    [send_request] compares with, one for each operation of the spec. *)
Inductive WebsocketMethodEnum : Type := OPEN | PING | W | R | WR | CLOSE.

(** The keyword arguments [**options] that [send_request] receives and
    hands on.  For [text] and [binary], [None] is a keyword that is
    absent and [Some PNone] one that is present with the value [None];
    for the integers [timeout] (milliseconds) and [close_status], [None]
    is either of the two, which the source never tells apart. *)
Module kw.
Record t : Type := {
  header : gmap string string;
  timeout : option Z;
  text : option pyval;
  binary : option pyval;
  close_status : option Z
}.
End kw.

(** ["k" in options.keys() and options["k"] is not None] *)
Definition supplied (v : option pyval) : option pyval :=
  match v with
  | None | Some PNone => None
  | Some p => Some p
  end.

(** [open_connection] *)
Definition open_connection (url : string) (options : kw.t) : M St unit :=
  ws_connect url (kw.header options) (kw.timeout options) ;;
  modify (on_self (fun c => set_status_code (status (client c)) c)).

(** [ping] *)
Definition ping : M St unit := ws_send (PStr "") OPCODE_PING.

(** The payload of a text frame: [json.dumps] for a dict or a list,
    [str(payload, encoding="utf-8")] for bytes, [str(payload)] for
    anything else, written out for each remaining type. *)
Definition text_payload (payload : pyval) : outcome string :=
  match payload with
  | PDict _ | PList _ => json_dumps payload
  | PBytes b =>
      match decode_utf8 b with Some s => Ok s | None => Raise UnicodeDecodeError end
  | PStr s => Ok s
  | PInt n => Ok (pretty n)
  | PFloat lit => Ok lit
  | PBool b => Ok (if b then "True" else "False")
  | PNone => Ok "None"
  end.

(** [write] *)
Definition write (options : kw.t) : M St unit :=
  po <- match supplied (kw.text options) with
        | Some payload =>
            payload <- lift (text_payload payload) ;;
            ret (PStr payload, OPCODE_TEXT)
        | None =>
            match supplied (kw.binary options) with
            | Some payload => ret (payload, OPCODE_BINARY)
            | None =>
                raise (ValueError
                  "websocket write method miss text or binary. Please check again...")
            end
        end ;;
  ws_send (fst po) (snd po).

(** [read] *)
Definition read : M St pyval :=
  resp_read <- ws_recv ;;
  match json_loads resp_read with
  | Ok v => ret v
  | Raise JSONDecodeError => ret resp_read
  | Raise e => raise e
  | Hang => lift Hang
  end.

(** How a turn of the [while] loop of [close_connection] ends. *)
Inductive loop_ctl : Type :=
| Continue
| Break (resp_status : Z).

(** One turn of the loop: the [try] with its bare [except: break]. *)
Definition close_wait_turn (resp_status : Z) : M St loop_ctl :=
  try_except
    (frame <- recv_frame ;;
     if negb (opcode frame =? OPCODE_CLOSE) then ret Continue
     else
       enabled <- isEnabledForError ;;
       if enabled then
         recv_status <- lift (struct_unpack_H (take 2 (data frame))) ;;
         (if (recv_status >=? 3000) && (recv_status <=? 4999)
          then logger DEBUG ("close status: " ++ pretty recv_status)
          else if negb (recv_status =? STATUS_NORMAL)
          then logger ERROR ("close status: " ++ pretty recv_status)
          else ret tt) ;;
         ret (Break recv_status)
       else ret (Break resp_status))
    (fun _ => ret (Break resp_status)).

(** The [while] loop of [close_connection]; its value is [resp_status]
    when the loop is left.  Every turn that goes round again has taken a
    frame from the peer's script, so [fuel] above the length of the
    script is never used up (lemma [close_wait_fuel] below). *)
Fixpoint close_wait (fuel : nat) (timeout : option Z) (start_time : Z)
    (resp_status : Z) : M St Z :=
  match fuel with
  | O => lift Hang
  | S fuel =>
      t <- time_time ;;
      if match timeout with None => true | Some tmo => t - start_time <? tmo end
      then
        c <- close_wait_turn resp_status ;;
        match c with
        | Continue => close_wait fuel timeout start_time resp_status
        | Break r => ret r
        end
      else ret resp_status
  end.

(** The [try] block of [close_connection] after its first statement:
    the close frame, the wait for the peer's close frame under the
    caller's timeout, and the two statements that follow the loop.  Its
    value is [resp_status].  An exception in the two statements after the
    loop is passed over by the same outer [except: pass] as one before
    the loop; [resp_status] then stays as the loop left it. *)
Definition close_exchange (close_status : Z) (timeout : option Z) : M St Z :=
  payload <- lift (struct_pack_H close_status) ;;
  ws_send (PBytes payload) OPCODE_CLOSE ;;
  sock_timeout <- sock_gettimeout ;;
  sock_settimeout timeout ;;
  start_time <- time_time ;;
  n <- gets (fun st => length (inbox (world st))) ;;
  resp_status <- close_wait (n + 1) timeout start_time STATUS_ABNORMAL_CLOSED ;;
  try_except (sock_settimeout sock_timeout ;; sock_shutdown) (fun _ => ret tt) ;;
  ret resp_status.

(** The whole [try: ... except: pass]. *)
Definition close_handshake (close_status : Z) (timeout : option Z) : M St Z :=
  try_except
    (modify (on_client (set_connected false)) ;;
     close_exchange close_status timeout)
    (fun _ => ret STATUS_ABNORMAL_CLOSED).

(** [close_connection].  [timeout] is in milliseconds. *)
Definition close_connection (close_status : Z) (timeout : option Z) : M St Z :=
  let resp_status := STATUS_ABNORMAL_CLOSED in
  is_connected <- gets (fun st => connected (client (self st))) ;;
  resp_status <-
    (if is_connected : bool then
       if (close_status <? 0) || (close_status >=? LENGTH_16)
       then raise (ValueError "code is invalid range")
       else
         resp_status <- close_handshake close_status timeout ;;
         ws_shutdown ;;
         ret resp_status
     else ret resp_status) ;;
  modify (on_self (set_status_code (Some resp_status))) ;;
  ret resp_status.

(** [_set_timeout] *)
Definition _set_timeout (timeout : Z) : M St unit := ws_settimeout (Some timeout).

(** [send_request].  [request_method] is a member of
    [WebsocketMethodEnum] or Python's [None], which the f-string of the
    last branch writes as [None]; other values that are no member are
    not modelled.  [options["timeout"] / 1000.0]
    seconds are [options["timeout"]] milliseconds, and the default
    [timeout = 3] is 3000. *)
Definition send_request (request_method : option WebsocketMethodEnum)
    (url : string) (options : kw.t) : M St unit :=
  match kw.timeout options with
  | Some t => _set_timeout t
  | None => ret tt
  end ;;
  match request_method with
  | Some OPEN => open_connection url options
  | Some PING => ping
  | Some W => write options
  | Some R => v <- read ;; modify (on_self (set_text v))
  | Some WR => write options ;; v <- read ;; modify (on_self (set_text v))
  | Some CLOSE =>
      let close_status := STATUS_NORMAL in
      let timeout := 3000 in
      let timeout := match kw.timeout options with Some t => t | None => timeout end in
      let close_status :=
        match kw.close_status options with Some c => c | None => close_status end in
      close_connection close_status (Some timeout) ;;
      ret tt
  | None => raise (ValueError "unexpected websocket frame type: None")
  end.

(* ===================================================================== *)
(** * The step orchestrator: [run_step_websocket_request] *)
(* ===================================================================== *)

(** Modelled from the spec: [TWebsocketRequest] of [httprunner.models],
    which is not among the sources, and the dict that [parse_data] makes
    of it; the fields are those that the step and its builder read and
    write.  [type] is a member of the enumeration or [None], [text] and
    [binary] are [PNone] when not set. *)
Module request.
Record t : Type := {
  type : option WebsocketMethodEnum;
  url : string;
  headers : gmap string string;
  new_connection : bool;
  timeout : option Z;
  text : pyval;
  binary : pyval;
  close_status : option Z
}.

Definition set_headers (h : gmap string string) (r : t) : t :=
  {| type := type r; url := url r; headers := h; new_connection := new_connection r;
     timeout := timeout r; text := text r; binary := binary r;
     close_status := close_status r |}.
End request.

(** Modelled from the spec: [TStep] of [httprunner.models], the part that
    the step reads. *)
Module step.
Record t : Type := {
  name : string;
  variables : gmap string pyval;
  websocket_request : request.t;
  setup_hooks : list pyval;
  teardown_hooks : list pyval;
  extract : gmap string string;
  validators : list pyval
}.
End step.

(** Modelled from the spec: [SessionData] of [httprunner.models], the
    part that the step writes: the aggregated success and the
    per-assertion results. *)
Module session.
Record t : Type := { success : bool; validators : pyval }.
End session.

(** Modelled from the spec: [StepResult] of [httprunner.models]; a field
    that the step has not assigned is [None]. *)
Module result.
Record t : Type := {
  name : string;
  step_type : string;
  success : bool;
  content_size : Z;
  export_vars : gmap string pyval;
  failure_info : option string;
  data : option session.t;
  elapsed : option Z
}.
End result.

(** [step_variables] from line 85 on: the variable bindings, and the two
    objects that the step puts under the names [websocket] and
    [response].  [websocket] is the dict [parsed_request_dict] itself,
    not a copy: what a hook changes in this dict is what the step reads
    from [parsed_request_dict] afterwards, so the model keeps the dict in
    this one place.  [response] is [None] until the response object is
    made. *)
Record StepVariables : Type := {
  bindings : gmap string pyval;
  websocket : request.t;
  response : option WebsocketClient
}.

(** Modelled from the spec: [HttpRunner] of [httprunner.runner], the part
    that the step uses.  [session_data] is [runner.session.data], an
    object shared with the step result. *)
Record HttpRunner : Type := {
  case_id : string;
  base_url : string;
  websocket_client : option WebsocketClient;
  session_data : session.t
}.

Definition set_websocket_client (c : option WebsocketClient) (r : HttpRunner) : HttpRunner :=
  {| case_id := case_id r; base_url := base_url r; websocket_client := c;
     session_data := session_data r |}.
Definition set_session_data (d : session.t) (r : HttpRunner) : HttpRunner :=
  {| case_id := case_id r; base_url := base_url r;
     websocket_client := websocket_client r; session_data := d |}.

(** What [resp_obj.validate] leaves behind: the exception it raised, if
    any, and the two attributes of [resp_obj] read afterwards. *)
Record Validation : Type := {
  raised : option exn;
  validation_results : pyval;
  failures_string : string
}.

(** The collaborators of the step that live outside these two files: the
    templating engine, the hooks, the URL builder, the response object
    and the import check of the optional dependency.  Each is a function
    of what the step hands it; those that can raise return an
    [outcome].  [call_hooks] works on [step_variables] in place: its
    value is [step_variables] as the hooks leave it, with the dict of the
    request as they leave it. *)
Class Collaborators : Type := {
  WEBSOCKET_READY : bool;
  parse_variables_mapping : HttpRunner -> gmap string pyval -> outcome (gmap string pyval);
  parse_data : request.t -> gmap string pyval -> outcome request.t;
  call_hooks : HttpRunner -> list pyval -> StepVariables -> string -> outcome StepVariables;
  build_url : string -> string -> string;
  resp_extract : WebsocketClient -> gmap string string -> StepVariables
                 -> outcome (gmap string pyval);
  resp_validate : WebsocketClient -> list pyval -> StepVariables -> Validation
}.

(** The state of a step: the runner and the world. *)
Record RSt : Type := { runner : HttpRunner; rworld : World }.

Definition on_runner (f : HttpRunner -> HttpRunner) (rs : RSt) : RSt :=
  {| runner := f (runner rs); rworld := rworld rs |}.
Definition on_rworld (f : World -> World) (rs : RSt) : RSt :=
  {| runner := runner rs; rworld := f (rworld rs) |}.

(** A method call on [runner.websocket_client]. *)
Definition on_websocket_client {A} (m : M St A) : M RSt A :=
  fun rs =>
    match websocket_client (runner rs) with
    | None => (Raise AttributeError, rs)
    | Some c =>
        let (r, st) := m {| self := c; world := rworld rs |} in
        (r, {| runner := set_websocket_client (Some (self st)) (runner rs);
               rworld := world st |})
    end.

(** The line feed, and the message of [ensure_websocket_ready], line by
    line. *)
Definition LF : string := String (ascii_of_N 10) "".

Definition msg : string :=
  LF ++ join LF
    ["    uploader extension dependencies uninstalled, install first and try again.";
     "    install with pip:";
     "    $ pip install websocket-client";
     "";
     "    or you can install httprunner with optional upload dependencies:";
     "    $ pip install " ++ q "httprunner[websocket]";
     "    "].

(** [ensure_websocket_ready]: without the dependency, an error record
    and [sys.exit(1)]. *)
Definition ensure_websocket_ready `{Collaborators} : M RSt unit :=
  if WEBSOCKET_READY then ret tt
  else
    modify (on_rworld (record_log ERROR msg)) ;;
    raise (SystemExit 1).

(** The dict comprehension that omits the pseudo header names. *)
Definition omit_pseudo_headers (request_headers : gmap string string)
  : gmap string string :=
  filter (fun kv => String.prefix ":" (fst kv) = false) request_headers.

(** [f"HRUN-{runner.case_id}-{str(int(time.time() * 1000))[-6:]}"] *)
Definition request_id (case_id : string) (now_ms : Z) : string :=
  "HRUN-" ++ case_id ++ "-" ++ last_chars 6 (pretty now_ms).

(** The headers as they leave lines 75-83. *)
Definition prepare_headers (case_id : string) (now_ms : Z)
    (request_headers : gmap string string) : gmap string string :=
  <["HRUN-Websocket-Request-ID" := request_id case_id now_ms]>
    (omit_pseudo_headers request_headers).

(** The keyword arguments of the call of [send_request]. *)
Definition request_options (parsed_request_dict : request.t) : kw.t :=
  {| kw.header := request.headers parsed_request_dict;
     kw.timeout := request.timeout parsed_request_dict;
     kw.text := Some (request.text parsed_request_dict);
     kw.binary := Some (request.binary parsed_request_dict);
     kw.close_status := request.close_status parsed_request_dict |}.

(** The [try / except ValidationFailure / finally] at the end of the
    step.  The [return] inside [finally] discards whatever exception is
    in flight, so the step result is returned in every case. *)
Definition validate_and_finish (step_result : result.t) (v : Validation)
    (start_time : Z) : M RSt result.t :=
  let '(success, failure_info) :=
    match raised v with
    | None => (true, result.failure_info step_result)
    | Some ValidationFailure => (false, Some (failures_string v))
    | Some _ => (result.success step_result, result.failure_info step_result)
    end in
  let session_data :=
    {| session.success := success; session.validators := validation_results v |} in
  modify (on_runner (set_session_data session_data)) ;;
  t <- gets (fun rs => now (rworld rs)) ;;
  ret {| result.name := result.name step_result;
         result.step_type := result.step_type step_result;
         result.success := success;
         result.content_size := result.content_size step_result;
         result.export_vars := result.export_vars step_result;
         result.failure_info := failure_info;
         result.data := Some session_data;
         result.elapsed := Some (t - start_time) |}.

(** [step_variables] as it is at line 85: the resolved variables, and
    under the name [websocket] the resolved request with its headers
    prepared. *)
Definition prepared_variables (r : HttpRunner) (now_ms : Z)
    (step_variables : gmap string pyval) (parsed_request_dict : request.t)
  : StepVariables :=
  {| bindings := step_variables;
     websocket :=
       request.set_headers
         (prepare_headers (case_id r) now_ms (request.headers parsed_request_dict))
         parsed_request_dict;
     response := None |}.

(** The step up to the call of the client: the templates are resolved,
    the headers prepared, the client made if there is none yet, and the
    setup hooks run.  Its value is [step_variables] and
    [parsed_request_dict], the dict of the request as the hooks have left
    it, which is what the arguments of the call are read from. *)
Definition prepare_step `{Collaborators} (step : step.t)
  : M RSt (StepVariables * request.t) :=
  (* parse *)
  r <- gets runner ;;
  step_variables <- lift (parse_variables_mapping r (step.variables step)) ;;
  parsed_request_dict <- lift (parse_data (step.websocket_request step) step_variables) ;;
  t <- gets (fun rs => now (rworld rs)) ;;
  let step_variables := prepared_variables r t step_variables parsed_request_dict in
  (* ensure websocket client exist *)
  match websocket_client r with
  | None =>
      ensure_websocket_ready ;;
      modify (on_runner (set_websocket_client (Some new_WebsocketClient)))
  | Some _ => ret tt
  end ;;
  (* setup hooks *)
  step_variables <-
    match step.setup_hooks step with
    | [] => ret step_variables
    | hooks =>
        r <- gets runner ;;
        lift (call_hooks r hooks step_variables "setup websocket request")
    end ;;
  ret (step_variables, websocket step_variables).

(** The call [runner.websocket_client.send_request(...)], which is not
    inside any [try]. *)
Definition call_client `{Collaborators} (parsed_request_dict : request.t)
  : M RSt unit :=
  r <- gets runner ;;
  let method_type := request.type parsed_request_dict in
  let url := build_url (base_url r) (request.url parsed_request_dict) in
  on_websocket_client
    (send_request method_type url (request_options parsed_request_dict)).

(** After the call: the response object, the teardown hooks and the
    extraction.  Its value is the response object, the step result with
    its [export_vars], and [variables_mapping]. *)
Definition collect_step `{Collaborators} (step : step.t) (step_result : result.t)
    (step_variables : StepVariables)
  : M RSt (WebsocketClient * result.t * StepVariables) :=
  resp_obj <- on_websocket_client (gets self) ;;
  let step_variables :=
    {| bindings := bindings step_variables; websocket := websocket step_variables;
       response := Some resp_obj |} in
  (* teardown hooks *)
  step_variables <-
    match step.teardown_hooks step with
    | [] => ret step_variables
    | hooks =>
        r <- gets runner ;;
        lift (call_hooks r hooks step_variables "teardown request")
    end ;;
  (* extract *)
  extract_mapping <- lift (resp_extract resp_obj (step.extract step) step_variables) ;;
  let step_result :=
    {| result.name := result.name step_result;
       result.step_type := result.step_type step_result;
       result.success := result.success step_result;
       result.content_size := result.content_size step_result;
       result.export_vars := extract_mapping;
       result.failure_info := result.failure_info step_result;
       result.data := result.data step_result;
       result.elapsed := result.elapsed step_result |} in
  let variables_mapping :=
    {| bindings := extract_mapping ∪ bindings step_variables;
       websocket := websocket step_variables; response := response step_variables |} in
  ret (resp_obj, step_result, variables_mapping).

(** The step result as it is first made. *)
Definition new_step_result (step : step.t) : result.t :=
  {| result.name := step.name step; result.step_type := "websocket request";
     result.success := false; result.content_size := 0;
     result.export_vars := ∅; result.failure_info := None;
     result.data := None; result.elapsed := None |}.

(** [run_step_websocket_request].  The two debug traces, of the request
    (lines 104-117) and of the response (lines 129-146), are left out:
    their text is made by [pretty_format], which is not among the sources,
    and they go to the log and to the report only. *)
Definition run_step_websocket_request `{Collaborators} (step : step.t)
  : M RSt result.t :=
  let step_result := new_step_result step in
  start_time <- gets (fun rs => now (rworld rs)) ;;
  prepared <- prepare_step step ;;
  call_client (snd prepared) ;;
  collected <- collect_step step step_result (fst prepared) ;;
  let '(resp_obj, step_result, variables_mapping) := collected in
  (* validate *)
  validate_and_finish step_result
    (resp_validate resp_obj (step.validators step) variables_mapping) start_time.

(* ===================================================================== *)
(** * The step builder: [RunWebsocketRequest] *)
(* ===================================================================== *)

(** [ensure_websocket_method_type]: the name of the builder method for a
    request type; [None] is a value that is no member of the
    enumeration. *)
Definition ensure_websocket_method_type (type_str : option WebsocketMethodEnum)
  : outcome string :=
  match type_str with
  | Some OPEN => Ok "open_connection"
  | Some PING => Ok "ping_pong"
  | Some WR => Ok "write_and_read"
  | Some R => Ok "read"
  | Some W => Ok "write"
  | Some CLOSE => Ok "close_connection"
  | None => Raise (ValueError "websocket type error")
  end.

(** The builder holds one [TStep]; every method below updates it and
    hands the builder back, so a method is a function from the step to
    the step.  [with_retry] writes two fields of [TStep] that the step
    never reads and that [step.t] leaves out; [type], which formats the
    enumeration member, and the two wrapper classes are left out as
    well. *)
Module RunWebsocketRequest.

Definition t : Type := step.t.

Definition on_request (f : request.t -> request.t) (b : t) : t :=
  {| step.name := step.name b; step.variables := step.variables b;
     step.websocket_request := f (step.websocket_request b);
     step.setup_hooks := step.setup_hooks b;
     step.teardown_hooks := step.teardown_hooks b;
     step.extract := step.extract b; step.validators := step.validators b |}.

(** [with_variables]: [dict.update], the new bindings win. *)
Definition with_variables (variables : gmap string pyval) (b : t) : t :=
  {| step.name := step.name b; step.variables := variables ∪ step.variables b;
     step.websocket_request := step.websocket_request b;
     step.setup_hooks := step.setup_hooks b;
     step.teardown_hooks := step.teardown_hooks b;
     step.extract := step.extract b; step.validators := step.validators b |}.

(** What [setup_hook] and [teardown_hook] append: [{assign_var_name: hook}]
    when [assign_var_name] is true as a condition, that is neither [None]
    nor the empty string, and [hook] otherwise. *)
Definition hook_entry (hook : string) (assign_var_name : option string) : pyval :=
  match assign_var_name with
  | None | Some EmptyString => PStr hook
  | Some var => PDict [(var, PStr hook)]
  end.

Definition setup_hook (hook : string) (assign_var_name : option string) (b : t) : t :=
  {| step.name := step.name b; step.variables := step.variables b;
     step.websocket_request := step.websocket_request b;
     step.setup_hooks := (step.setup_hooks b ++ [hook_entry hook assign_var_name])%list;
     step.teardown_hooks := step.teardown_hooks b;
     step.extract := step.extract b; step.validators := step.validators b |}.

(** [with_headers]: [dict.update], the new headers win. *)
Definition with_headers (headers : gmap string string) (b : t) : t :=
  on_request (fun r => request.set_headers (headers ∪ request.headers r) r) b.

Definition new_connection (v : bool) (b : t) : t :=
  on_request (fun r =>
    {| request.type := request.type r; request.url := request.url r;
       request.headers := request.headers r; request.new_connection := v;
       request.timeout := request.timeout r; request.text := request.text r;
       request.binary := request.binary r;
       request.close_status := request.close_status r |}) b.

Definition with_timeout (timeout : option Z) (b : t) : t :=
  on_request (fun r =>
    {| request.type := request.type r; request.url := request.url r;
       request.headers := request.headers r;
       request.new_connection := request.new_connection r;
       request.timeout := timeout; request.text := request.text r;
       request.binary := request.binary r;
       request.close_status := request.close_status r |}) b.

Definition with_url (url : string) (b : t) : t :=
  on_request (fun r =>
    {| request.type := request.type r; request.url := url;
       request.headers := request.headers r;
       request.new_connection := request.new_connection r;
       request.timeout := request.timeout r; request.text := request.text r;
       request.binary := request.binary r;
       request.close_status := request.close_status r |}) b.


Definition with_binary (binary : pyval) (b : t) : t :=
  on_request (fun r =>
    {| request.type := request.type r; request.url := request.url r;
       request.headers := request.headers r;
       request.new_connection := request.new_connection r;
       request.timeout := request.timeout r; request.text := request.text r;
       request.binary := binary;
       request.close_status := request.close_status r |}) b.

Definition with_close_status (close_status : option Z) (b : t) : t :=
  on_request (fun r =>
    {| request.type := request.type r; request.url := request.url r;
       request.headers := request.headers r;
       request.new_connection := request.new_connection r;
       request.timeout := request.timeout r; request.text := request.text r;
       request.binary := request.binary r;
       request.close_status := close_status |}) b.

Definition teardown_hook (hook : string) (assign_var_name : option string) (b : t) : t :=
  {| step.name := step.name b; step.variables := step.variables b;
     step.websocket_request := step.websocket_request b;
     step.setup_hooks := step.setup_hooks b;
     step.teardown_hooks :=
       (step.teardown_hooks b ++ [hook_entry hook assign_var_name])%list;
     step.extract := step.extract b; step.validators := step.validators b |}.

Definition struct (b : t) : step.t := b.

Definition name (b : t) : string := step.name b.


(** [with_jmespath]; the extraction wrapper it returns holds the same
    step. *)
Definition with_jmespath (jmes_path var_name : string) (b : t) : t :=
  {| step.name := step.name b; step.variables := step.variables b;
     step.websocket_request := step.websocket_request b;
     step.setup_hooks := step.setup_hooks b;
     step.teardown_hooks := step.teardown_hooks b;
     step.extract := <[var_name := jmes_path]> (step.extract b);
     step.validators := step.validators b |}.

(** [self.__step.websocket_request.type = ...] *)
Definition set_type (type : WebsocketMethodEnum) (b : t) : t :=
  on_request (fun r =>
    {| request.type := Some type; request.url := request.url r;
       request.headers := request.headers r;
       request.new_connection := request.new_connection r;
       request.timeout := request.timeout r; request.text := request.text r;
       request.binary := request.binary r;
       request.close_status := request.close_status r |}) b.

Definition open_connection (url : string) (b : t) : t := with_url url (set_type OPEN b).
Definition ping_pong (url : string) (b : t) : t := with_url url (set_type PING b).
Definition write_and_read (url : string) (b : t) : t := with_url url (set_type WR b).
Definition write (url : string) (b : t) : t := with_url url (set_type W b).
Definition read (url : string) (b : t) : t := with_url url (set_type R b).
Definition close_connection (url : string) (b : t) : t := with_url url (set_type CLOSE b).

(** The methods of the class that take the URL, by their names. *)
Definition method (name : string) : option (string -> t -> t) :=
  if String.eqb name "open_connection" then Some open_connection
  else if String.eqb name "ping_pong" then Some ping_pong
  else if String.eqb name "write_and_read" then Some write_and_read
  else if String.eqb name "write" then Some write
  else if String.eqb name "read" then Some read
  else if String.eqb name "close_connection" then Some close_connection
  else None.

End RunWebsocketRequest.

(* ===================================================================== *)
(** * Sample inputs *)
(* ===================================================================== *)

Definition text_frame (payload : string) : ABNF :=
  {| opcode := OPCODE_TEXT; data := encode_utf8 payload |}.
Definition binary_frame (payload : list byte) : ABNF :=
  {| opcode := OPCODE_BINARY; data := payload |}.
Definition close_frame (payload : list byte) : ABNF :=
  {| opcode := OPCODE_CLOSE; data := payload |}.

(** A peer that accepts connections and delivers [script]. *)
Definition sample_world (script : list (Z * incoming)) : World :=
  {| now := 1700000123456; inbox := script; ops := []; accepts := true;
     link_down := false; error_enabled := true; log := [] |}.

(** A client whose connection is open, with socket timeout [tmo]. *)
Definition open_client (tmo : option Z) : WebsocketClient :=
  {| client := {| connected := true; sock := Some tmo; sock_opt_timeout := tmo;
                  status := Some 101 |};
     text := PNone; binary := PNone; status_code := Some 101 |}.

Definition connected_state (tmo : option Z) (script : list (Z * incoming)) : St :=
  {| self := open_client tmo; world := sample_world script |}.
Definition disconnected_state : St :=
  {| self := new_WebsocketClient; world := sample_world [] |}.

Definition options_of (text binary : option pyval) : kw.t :=
  {| kw.header := ∅; kw.timeout := None; kw.text := text; kw.binary := binary;
     kw.close_status := None |}.

(** [options] without the keyword [binary]. *)
Definition without_binary (options : kw.t) : kw.t :=
  {| kw.header := kw.header options; kw.timeout := kw.timeout options;
     kw.text := kw.text options; kw.binary := None;
     kw.close_status := kw.close_status options |}.

(** The state after one more frame has gone to the socket. *)
Definition sent (f : ABNF) (st : St) : St := on_world (record_op (OpSend f)) st.

(** The socket takes what is written to it. *)
Definition writable (st : St) : Prop :=
  the_sock st <> None /\ link_down (world st) = false.

(* ===================================================================== *)
(** * Notions used in the statements *)
(* ===================================================================== *)

Definition is_connected (st : St) : bool := connected (client (self st)).

Definition in_range (close_status : Z) : Prop := 0 <= close_status < 65536.

(** [wp m Q st]: running [m] from [st] ends in an outcome and a state
    that satisfy [Q]. *)
Definition wp {A} (m : M St A) (Q : outcome A -> St -> Prop) (st : St) : Prop :=
  Q (fst (m st)) (snd (m st)).

(** Computations that do not connect a handle that is not connected. *)
Definition keeps {A} (m : M St A) : Prop :=
  forall st, is_connected st = false -> is_connected (snd (m st)) = false.

(** The state after the frame [f], due after [delay], has been read. *)
Definition took (delay : Z) (f : ABNF) (rest : list (Z * incoming)) (st : St) : St :=
  on_world (record_op (OpRecv f))
    (on_world (fun w => set_inbox rest (set_now (now w + delay) w)) st).

(** The delivery is no later than the socket timeout. *)
Definition in_time (tmo : option Z) (delay : Z) : Prop :=
  match tmo with Some t => Z.max 0 delay <= t | None => True end.

(** The records that the classification of a received status writes. *)
Definition close_log (recv_status : Z) : list (level * string) :=
  if (recv_status >=? 3000) && (recv_status <=? 4999)
  then [(DEBUG, "close status: " ++ pretty recv_status)]
  else if negb (recv_status =? STATUS_NORMAL)
  then [(ERROR, "close status: " ++ pretty recv_status)]
  else [].

Definition logged (records : list (level * string)) (st : St) : St :=
  on_world (fun w => {| now := now w; inbox := inbox w; ops := ops w;
                        accepts := accepts w; link_down := link_down w;
                        error_enabled := error_enabled w;
                        log := log w ++ records |}) st.

(** The status that a close frame carries in its first two bytes. *)
Definition status_of (hi lo : byte) : Z :=
  Z.lor (Z.shiftl (Z_of_byte hi) 8) (Z_of_byte lo).

(** A frame that [validate] lets through. *)
Definition accepted (frame : ABNF) : bool :=
  match validate frame with Ok _ => true | _ => false end.

(** A script in which the peer sends no close frame and the link does
    not fail; its frames are frames that the library accepts. *)
Definition quiet (script : list (Z * incoming)) : bool :=
  forallb (fun it => match snd it with
                     | InFrame f => accepted f && negb (opcode f =? OPCODE_CLOSE)
                     | InFault _ => false
                     end) script.

(** The time a script takes to arrive. *)
Definition total_delay (script : list (Z * incoming)) : Z :=
  fold_right (fun it acc => Z.max 0 (fst it) + acc) 0 script.

(** A timeout that a socket can have. *)
Definition valid_timeout (t : option Z) : Prop :=
  match t with Some v => 0 <= v | None => True end.

(** The state after [sock.settimeout(t)]. *)
Definition timeout_set (t : option Z) (st : St) : St :=
  on_client (set_sock (Some t)) (on_world (record_op (OpSetTimeout t)) st).

(** The close frame that [close_connection] sends. *)
Definition sent_close_frame (close_status : Z) : ABNF :=
  close_frame [byte_of_Z (Z.shiftr close_status 8); byte_of_Z (Z.land close_status 255)].

(** A world in which the library does not log errors. *)
Definition unlogged_world (script : list (Z * incoming)) : World :=
  {| now := 1700000123456; inbox := script; ops := []; accepts := true;
     link_down := false; error_enabled := false; log := [] |}.

(** Collaborators for the examples: templates resolve to themselves,
    hooks change nothing, nothing is extracted, and a validator passes
    when it is [True]. *)
Definition passes (validator : pyval) : bool :=
  match validator with PBool true => true | _ => false end.

Definition sample_validate (resp_obj : WebsocketClient) (validators : list pyval)
    (variables_mapping : StepVariables) : Validation :=
  let failing := List.filter (fun v => negb (passes v)) validators in
  {| raised := match failing with [] => None | _ => Some ValidationFailure end;
     validation_results := PList (List.map (fun v => PBool (passes v)) validators);
     failures_string := join ", " (List.map (fun _ => "assert failed") failing) |}.

Definition sample_collaborators : Collaborators :=
  {| WEBSOCKET_READY := true;
     parse_variables_mapping := fun _ variables => Ok variables;
     parse_data := fun request _ => Ok request;
     call_hooks := fun _ _ step_variables _ => Ok step_variables;
     build_url := fun base path => base ++ path;
     resp_extract := fun _ _ _ => Ok ∅;
     resp_validate := sample_validate |}.

(** The same, with hooks that put a header [X-Token] into the dict of
    the request. *)
Definition hooking_collaborators : Collaborators :=
  {| WEBSOCKET_READY := true;
     parse_variables_mapping := fun _ variables => Ok variables;
     parse_data := fun request _ => Ok request;
     call_hooks := fun _ _ step_variables _ =>
       Ok {| bindings := bindings step_variables;
             websocket :=
               request.set_headers
                 (<["X-Token" := "t"]> (request.headers (websocket step_variables)))
                 (websocket step_variables);
             response := response step_variables |};
     build_url := fun base path => base ++ path;
     resp_extract := fun _ _ _ => Ok ∅;
     resp_validate := sample_validate |}.

Definition sample_request (type : option WebsocketMethodEnum) (text : pyval) : request.t :=
  {| request.type := type; request.url := "/ws";
     request.headers := <[":authority" := "x"]> (<["User-Agent" := "y"]> ∅);
     request.new_connection := false; request.timeout := None;
     request.text := text; request.binary := PNone; request.close_status := None |}.

Definition sample_step (type : option WebsocketMethodEnum) (text : pyval)
    (validators : list pyval) : step.t :=
  {| step.name := "step"; step.variables := ∅;
     step.websocket_request := sample_request type text;
     step.setup_hooks := []; step.teardown_hooks := [];
     step.extract := ∅; step.validators := validators |}.

Definition sample_runner (c : option WebsocketClient) : HttpRunner :=
  {| case_id := "abc123"; base_url := "ws://echo"; websocket_client := c;
     session_data := {| session.success := false; session.validators := PNone |} |}.

(** The state of the runner after the client's method has run. *)
Definition after_call (rs : RSt) (st : St) : RSt :=
  {| runner := set_websocket_client (Some (self st)) (runner rs); rworld := world st |}.

(** The [success] that the end of the step settles on. *)
Definition final_success (step_result : result.t) (v : Validation) : bool :=
  match raised v with
  | None => true
  | Some ValidationFailure => false
  | Some _ => result.success step_result
  end.

(** A peer that refuses the connection. *)
Definition refusing_world : World :=
  {| now := 1700000123456; inbox := []; ops := []; accepts := false;
     link_down := false; error_enabled := true; log := [] |}.

Definition sample_rs (c : option WebsocketClient) (w : World) : RSt :=
  {| runner := sample_runner c; rworld := w |}.

(** The state after [self.client.settimeout(t)] on a client that has no
    socket: only the default for sockets to come is set. *)
Definition default_timeout_set (t : option Z) (st : St) : St :=
  on_client (fun ws => {| connected := connected ws; sock := sock ws;
                          sock_opt_timeout := t; status := status ws |}) st.

(** The state after the first statement of [send_request], which hands
    the [timeout] option, when there is one, to [_set_timeout]. *)
Definition timeout_applied (timeout : option Z) (st : St) : St :=
  match timeout with
  | None => st
  | Some t =>
      match the_sock st with
      | Some _ => timeout_set (Some t) (default_timeout_set (Some t) st)
      | None => default_timeout_set (Some t) st
      end
  end.

(** Computations that leave the part [f] of the client object as it
    is ... *)
Definition preserves {X A} (f : WebsocketClient -> X) (m : M St A) : Prop :=
  forall st, f (self (snd (m st))) = f (self st).

(** ... and those that do so unless they return. *)
Definition unless_returned {X A} (f : WebsocketClient -> X) (m : M St A) : Prop :=
  forall st, (forall a, fst (m st) <> Ok a) -> f (self (snd (m st))) = f (self st).

(** The state after the requests of a list have been sent one after the
    other, each with its method, URL and keyword arguments, whatever way
    each of them ended. *)
Definition after_requests
    (requests : list (option WebsocketMethodEnum * string * kw.t)) (st : St) : St :=
  fold_left (fun st r => snd (send_request (fst (fst r)) (snd (fst r)) (snd r) st))
    requests st.

(** The last six decimal digits of [n], each as a character. *)
Definition six_digits (n : Z) : string :=
  string_of_list_ascii
    (List.map (fun i => pretty_N_char (Z.to_N (n / 10 ^ i mod 10))) [5; 4; 3; 2; 1; 0]).

(** The builder after the calls [setup_hook(hook, assign_var_name)], one
    for each item of [calls], in order; the same for [teardown_hook]; and
    the entries that these calls stand for. *)
Definition setup_hooks_added (calls : list (string * option string))
    (b : RunWebsocketRequest.t) : RunWebsocketRequest.t :=
  fold_left (fun b c => RunWebsocketRequest.setup_hook (fst c) (snd c) b) calls b.

Definition teardown_hooks_added (calls : list (string * option string))
    (b : RunWebsocketRequest.t) : RunWebsocketRequest.t :=
  fold_left (fun b c => RunWebsocketRequest.teardown_hook (fst c) (snd c) b) calls b.

Definition hook_entries (calls : list (string * option string)) : list pyval :=
  List.map (fun c => RunWebsocketRequest.hook_entry (fst c) (snd c)) calls.

(** Keyword arguments with a timeout and nothing else. *)
Definition options_with_timeout (t : Z) : kw.t :=
  {| kw.header := ∅; kw.timeout := Some t; kw.text := None; kw.binary := None;
     kw.close_status := None |}.

(** A connection whose socket no longer takes writes. *)
Definition broken_state (tmo : option Z) : St :=
  {| self := open_client tmo;
     world := {| now := 1700000123456; inbox := []; ops := []; accepts := true;
                 link_down := true; error_enabled := true; log := [] |} |}.

(** The collaborators of the examples on a machine without the
    [websocket-client] package. *)
Definition collaborators_without_websocket : Collaborators :=
  {| WEBSOCKET_READY := false;
     parse_variables_mapping := fun _ variables => Ok variables;
     parse_data := fun request _ => Ok request;
     call_hooks := fun _ _ step_variables _ => Ok step_variables;
     build_url := fun base path => base ++ path;
     resp_extract := fun _ _ _ => Ok ∅;
     resp_validate := sample_validate |}.

(* ===================================================================== *)
(** * The [json] model on examples *)
(* ===================================================================== *)

Example loads_nested :
  Json.loads ("{" ++ q "a" ++ ": [1, -2, true, null], " ++ q "b" ++ ": {}}")
    = Some (PDict [("a", PList [PInt 1; PInt (-2); PBool true; PNone]); ("b", PDict [])]).
Proof. vm_compute. reflexivity. Qed.

Example loads_later_member_wins :
  Json.loads ("{" ++ q "a" ++ ":1," ++ q "b" ++ ":2," ++ q "a" ++ ":3}")
    = Some (PDict [("a", PInt 3); ("b", PInt 2)]).
Proof. vm_compute. reflexivity. Qed.

Example loads_escapes :
  Json.loads (q "A\n\/") = Some (PStr (String "A" (String (ascii_of_N 10) "/"))).
Proof. vm_compute. reflexivity. Qed.

Example loads_refused :
  List.map Json.loads ["[1,]"; "01"; "1."; "nul"; "[1] 2"; ""; "{1:2}"; "+1"]
    = [None; None; None; None; None; None; None; None].
Proof. vm_compute. reflexivity. Qed.

Example dumps_nested :
  Json.dumps (PDict [("a", PList [PInt 1; PStr "x"; PNone]); ("b", PBool false)])
    = Some ("{" ++ q "a" ++ ": [1, " ++ q "x" ++ ", null], " ++ q "b" ++ ": false}").
Proof. vm_compute. reflexivity. Qed.

Example dumps_bytes_refused : Json.dumps (PList [PBytes [x00]]) = None.
Proof. reflexivity. Qed.

(* ===================================================================== *)
(** * Step-by-step evaluation *)
(* ===================================================================== *)

Lemma bind_Ok {S A B} (m : M S A) (k : A -> M S B) (s s' : S) (a : A) :
  m s = (Ok a, s') -> bind m k s = k a s'.
Proof. intros H. unfold bind. now rewrite H. Qed.

Lemma bind_Raise {S A B} (m : M S A) (k : A -> M S B) (s s' : S) (e : exn) :
  m s = (Raise e, s') -> bind m k s = (Raise e, s').
Proof. intros H. unfold bind. now rewrite H. Qed.

Lemma try_Ok {S A} (m : M S A) (h : exn -> M S A) (s s' : S) (a : A) :
  m s = (Ok a, s') -> try_except m h s = (Ok a, s').
Proof. intros H. unfold try_except. now rewrite H. Qed.

Lemma try_Raise {S A} (m : M S A) (h : exn -> M S A) (s s' : S) (e : exn) :
  m s = (Raise e, s') -> try_except m h s = h e s'.
Proof. intros H. unfold try_except. now rewrite H. Qed.

(* ===================================================================== *)
(** * [write] *)
(* ===================================================================== *)

(** A keyword counts as not supplied when it is absent or [None]. *)
Lemma supplied_None (v : option pyval) :
  supplied v = None <-> v = None \/ v = Some PNone.
Proof.
  split.
  - destruct v as [[]|]; simpl; intros; try discriminate; auto.
  - now intros [-> | ->].
Qed.

Lemma ws_send_writable (st : St) (d : list byte) (opc : Z) :
  writable st ->
  ws_send (PBytes d) opc st = (Ok tt, sent {| opcode := opc; data := d |} st).
Proof.
  intros [Hsock Hlink]. unfold ws_send.
  destruct (the_sock st); [|congruence]. now rewrite Hlink.
Qed.

Lemma ws_send_str_writable (st : St) (s : string) (opc : Z) :
  writable st ->
  ws_send (PStr s) opc st = (Ok tt, sent {| opcode := opc; data := encode_utf8 s |} st).
Proof.
  intros [Hsock Hlink]. unfold ws_send.
  destruct (the_sock st); [|congruence]. now rewrite Hlink.
Qed.

Lemma write_text (options : kw.t) (st : St) (payload : pyval) :
  supplied (kw.text options) = Some payload ->
  write options st =
    match text_payload payload with
    | Ok s => ws_send (PStr s) OPCODE_TEXT st
    | Raise e => (Raise e, st)
    | Hang => (Hang, st)
    end.
Proof.
  intros Ht. unfold write, bind, lift. rewrite Ht.
  destruct (text_payload payload); reflexivity.
Qed.

(** C5.  [write] without text and without binary (each absent or [None])
    raises [ValueError] and leaves the state, hence the socket, as it
    was.  With exactly one of them supplied and a socket that takes
    writes, exactly one frame is sent: for a text, a text frame whose
    payload is [json.dumps] of a dict or list, the UTF-8 text of bytes,
    and [str] of any other value; for a binary, a binary frame with the
    bytes as they are. *)
Theorem write_sends_one_frame (options : kw.t) (st : St) :
  (supplied (kw.text options) = None -> supplied (kw.binary options) = None ->
   write options st =
     (Raise (ValueError "websocket write method miss text or binary. Please check again..."),
      st)) /\
  (forall payload s,
     supplied (kw.text options) = Some payload ->
     supplied (kw.binary options) = None ->
     writable st ->
     match payload with
     | PDict _ | PList _ => Json.dumps payload = Some s
     | PBytes b => decode_utf8 b = Some s
     | PStr s' => s' = s
     | PInt n => pretty n = s
     | PFloat lit => lit = s
     | PBool b => (if b then "True" else "False") = s
     | PNone => False
     end ->
     write options st = (Ok tt, sent (text_frame s) st)) /\
  (forall b,
     supplied (kw.text options) = None ->
     supplied (kw.binary options) = Some (PBytes b) ->
     writable st ->
     write options st = (Ok tt, sent (binary_frame b) st)).
Proof.
  split; [|split].
  - intros Ht Hb. unfold write, bind, raise. now rewrite Ht, Hb.
  - intros payload s Ht _ Hw Hs. rewrite (write_text _ _ _ Ht).
    assert (text_payload payload = Ok s) as ->.
    { destruct payload; unfold text_payload, json_dumps; try contradiction;
        try (now rewrite Hs); congruence. }
    now apply ws_send_str_writable.
  - intros b Ht Hb Hw. unfold write, bind, ret. rewrite Ht, Hb. simpl.
    now apply ws_send_writable.
Qed.

(** Neither keyword, a list as text, and bytes as binary, on an open
    connection. *)
Lemma write_sends_one_frame_witness :
  write (options_of None (Some PNone)) (connected_state None [])
    = (Raise (ValueError "websocket write method miss text or binary. Please check again..."),
       connected_state None [])
  /\ write (options_of (Some (PList [PInt 1; PStr "a"])) None) (connected_state None [])
    = (Ok tt, sent (text_frame ("[1, " ++ q "a" ++ "]")) (connected_state None []))
  /\ write (options_of (Some PNone) (Some (PBytes [x00; xff]))) (connected_state None [])
    = (Ok tt, sent (binary_frame [x00; xff]) (connected_state None [])).
Proof.
  split; [|split].
  - apply (write_sends_one_frame (options_of None (Some PNone))); reflexivity.
  - apply (write_sends_one_frame (options_of (Some (PList [PInt 1; PStr "a"])) None)
             (connected_state None []) ) with (payload := PList [PInt 1; PStr "a"]);
      [reflexivity | reflexivity | split; [discriminate | reflexivity] | vm_compute; reflexivity].
  - apply (write_sends_one_frame (options_of (Some PNone) (Some (PBytes [x00; xff])))) ;
      [reflexivity | reflexivity | split; [discriminate | reflexivity]].
Defined.

(** C10.  With both a text and a binary supplied, [write] does what it
    does for the text alone, whatever the binary is; when the text has a
    payload and the socket takes writes, it returns after sending exactly
    one text frame. *)
Theorem write_text_takes_precedence (options : kw.t) (st : St) (payload b : pyval) :
  supplied (kw.text options) = Some payload ->
  supplied (kw.binary options) = Some b ->
  write options st = write (without_binary options) st /\
  (forall s, text_payload payload = Ok s -> writable st ->
             write options st = (Ok tt, sent (text_frame s) st)).
Proof.
  intros Ht Hb. split.
  - rewrite (write_text options st payload Ht).
    now rewrite (write_text (without_binary options) st payload Ht).
  - intros s Hs Hw. rewrite (write_text _ _ _ Ht), Hs.
    now apply ws_send_str_writable.
Qed.

(** A text and a binary together: the text goes out, the binary does
    not. *)
Lemma write_text_takes_precedence_witness :
  let options := options_of (Some (PStr "hello")) (Some (PBytes [x01; x02])) in
  write options (connected_state None [])
    = write (without_binary options) (connected_state None [])
  /\ write options (connected_state None [])
    = (Ok tt, sent (text_frame "hello") (connected_state None [])).
Proof.
  intros options.
  destruct (write_text_takes_precedence options (connected_state None [])
              (PStr "hello") (PBytes [x01; x02]) eq_refl eq_refl) as [H1 H2].
  split; [exact H1|].
  apply H2; [reflexivity | split; [discriminate | reflexivity]].
Defined.

(* ===================================================================== *)
(** * [read] *)
(* ===================================================================== *)

(** A read that yields a frame has read that one frame from the socket
    and left the client as it was. *)
Lemma read_frame_one (st st' : St) (f : ABNF) :
  read_frame st = (Ok f, st') ->
  ops (world st') = (ops (world st) ++ [OpRecv f])%list /\ self st' = self st.
Proof.
  unfold read_frame.
  destruct (the_sock st) as [[t|]|]; [| |discriminate];
    destruct (inbox (world st)) as [|[delay item] rest]; try discriminate;
    try destruct (t <? Z.max 0 delay); try discriminate;
    unfold deliver; destruct item as [f0|[]]; try discriminate;
    intros [= <- <-]; split; reflexivity.
Qed.

(** [recv_frame] returns the frames that [validate] lets through. *)
Lemma recv_frame_Ok (st st' : St) (f : ABNF) :
  recv_frame st = (Ok f, st') <-> read_frame st = (Ok f, st') /\ validate f = Ok tt.
Proof.
  unfold recv_frame, bind, lift, ret.
  destruct (read_frame st) as [[f0|e|] st0];
    [|split; [discriminate | intros [? _]; discriminate]..].
  destruct (validate f0) as [[]|e|] eqn:Hv.
  - split; [intros [= <- <-]; now split | now intros [[= <- <-] _]].
  - split; [discriminate | intros [[= <- <-] H]; congruence].
  - split; [discriminate | intros [[= <- <-] H]; congruence].
Qed.

Lemma recv_frame_one (st st' : St) (f : ABNF) :
  recv_frame st = (Ok f, st') ->
  ops (world st') = (ops (world st) ++ [OpRecv f])%list /\ self st' = self st.
Proof. intros H. apply recv_frame_Ok in H as [H _]. now apply read_frame_one. Qed.

(** A data frame is what [recv_data_frame] hands on: a text frame when
    its payload is UTF-8, a binary frame as it is. *)
Lemma recv_data_frame_text (n : nat) (st st' : St) (payload : string) :
  recv_frame st = (Ok (text_frame payload), st') ->
  decode_utf8 (encode_utf8 payload) = Some payload ->
  recv_data_frame (S n) st = (Ok (text_frame payload), st').
Proof.
  intros Hrecv Hutf. cbn [recv_data_frame]. erewrite bind_Ok by exact Hrecv.
  cbv zeta. cbn [opcode text_frame data]. unfold validate_utf8. now rewrite Hutf.
Qed.

Lemma recv_data_frame_binary (n : nat) (st st' : St) (payload : list byte) :
  recv_frame st = (Ok (binary_frame payload), st') ->
  recv_data_frame (S n) st = (Ok (binary_frame payload), st').
Proof.
  intros Hrecv. cbn [recv_data_frame]. now erewrite bind_Ok by exact Hrecv.
Qed.

Lemma read_text (st st' : St) (payload : string) :
  recv_frame st = (Ok (text_frame payload), st') ->
  decode_utf8 (encode_utf8 payload) = Some payload ->
  read st =
    (Ok (match Json.loads payload with Some v => v | None => PStr payload end), st').
Proof.
  intros Hrecv Hutf. unfold read. erewrite bind_Ok.
  2:{ unfold ws_recv. erewrite bind_Ok by reflexivity. rewrite Nat.add_1_r.
      erewrite bind_Ok by (exact (recv_data_frame_text _ _ _ _ Hrecv Hutf)).
      cbn [opcode text_frame data]. now rewrite Hutf. }
  unfold json_loads. now destruct (Json.loads payload).
Qed.

Lemma read_binary (st st' : St) (payload : list byte) :
  recv_frame st = (Ok (binary_frame payload), st') ->
  read st =
    match Json.text_of_bytes payload with
    | Some s => (Ok (match Json.loads s with Some v => v | None => PBytes payload end), st')
    | None => (Raise UnicodeDecodeError, st')
    end.
Proof.
  intros Hrecv. unfold read. erewrite bind_Ok.
  2:{ unfold ws_recv. erewrite bind_Ok by reflexivity. rewrite Nat.add_1_r.
      erewrite bind_Ok by (exact (recv_data_frame_binary _ _ _ _ Hrecv)). reflexivity. }
  unfold json_loads. cbn [data binary_frame].
  destruct (Json.text_of_bytes payload) as [s|]; [|reflexivity].
  now destruct (Json.loads s).
Qed.

(** C6.  When the one receive that [read] performs yields a text
    payload, [read] returns what [json.loads] makes of it if it parses,
    and the payload itself, unchanged, if it does not; the state is the
    one that single receive left, with one more frame read from the
    socket.  The payload [{"a":1}] gives the dict
    with the one entry a: 1, and the payload [not-json] gives the string
    [not-json].  A binary payload reaches [json.loads] as bytes, which
    turns them into text in the encoding it detects: [read] returns what
    that text parses to, and the bytes themselves, unchanged, if it does
    not parse. *)
Theorem read_decodes_or_keeps_text (st st' : St) :
  (forall payload,
     recv_frame st = (Ok (text_frame payload), st') ->
     decode_utf8 (encode_utf8 payload) = Some payload ->
     read st =
       (Ok (match Json.loads payload with Some v => v | None => PStr payload end), st') /\
     ops (world st') = (ops (world st) ++ [OpRecv (text_frame payload)])%list) /\
  (recv_frame st = (Ok (text_frame ("{" ++ q "a" ++ ":1}")), st') ->
   read st = (Ok (PDict [("a", PInt 1)]), st')) /\
  (recv_frame st = (Ok (text_frame "not-json"), st') ->
   read st = (Ok (PStr "not-json"), st')) /\
  (forall payload s,
     recv_frame st = (Ok (binary_frame payload), st') ->
     Json.text_of_bytes payload = Some s ->
     read st =
       (Ok (match Json.loads s with Some v => v | None => PBytes payload end), st') /\
     ops (world st') = (ops (world st) ++ [OpRecv (binary_frame payload)])%list).
Proof.
  split; [|split; [|split]].
  - intros payload Hrecv Hutf. split; [now apply read_text|].
    now apply recv_frame_one.
  - intros H. now rewrite (read_text _ _ _ H eq_refl).
  - intros H. now rewrite (read_text _ _ _ H eq_refl).
  - intros payload s Hrecv Hs. split; [|now apply recv_frame_one].
    now rewrite (read_binary _ _ _ Hrecv), Hs.
Qed.

(** Payloads read in turn from the same connection: three text frames,
    then binary frames that hold the letters [ok], the numeral 1 in
    UTF-16, and the dict of the first frame behind a byte order mark. *)
Lemma read_decodes_or_keeps_text_witness :
  let st := connected_state (Some 3000)
              [(10, InFrame (text_frame ("{" ++ q "a" ++ ":1}")));
               (20, InFrame (text_frame "not-json"));
               (0, InFrame (text_frame "[1, 2.5, null]"));
               (0, InFrame (binary_frame [x6f; x6b]));
               (0, InFrame (binary_frame [x31; x00]));
               (0, InFrame (binary_frame
                              ([xef; xbb; xbf] ++ encode_utf8 ("{" ++ q "a" ++ ":1}"))))] in
  let st1 := snd (recv_frame st) in
  let st2 := snd (recv_frame st1) in
  let st3 := snd (recv_frame st2) in
  let st4 := snd (recv_frame st3) in
  let st5 := snd (recv_frame st4) in
  let st6 := snd (recv_frame st5) in
  read st = (Ok (PDict [("a", PInt 1)]), st1) /\
  read st1 = (Ok (PStr "not-json"), st2) /\
  read st2 = (Ok (PList [PInt 1; PFloat "2.5"; PNone]), st3) /\
  read st3 = (Ok (PBytes [x6f; x6b]), st4) /\
  read st4 = (Ok (PInt 1), st5) /\
  read st5 = (Ok (PDict [("a", PInt 1)]), st6) /\
  inbox (world st6) = [] /\ now (world st6) = now (world st) + 30.
Proof.
  intros st st1 st2 st3 st4 st5 st6.
  split; [|split; [|split; [|split; [|split; [|split; [|split; reflexivity]]]]]].
  - apply (read_decodes_or_keeps_text st st1). reflexivity.
  - apply (read_decodes_or_keeps_text st1 st2). reflexivity.
  - destruct (read_decodes_or_keeps_text st2 st3) as (H & _).
    exact (proj1 (H "[1, 2.5, null]" eq_refl eq_refl)).
  - destruct (read_decodes_or_keeps_text st3 st4) as (_ & _ & _ & H).
    exact (proj1 (H [x6f; x6b] "ok" eq_refl eq_refl)).
  - destruct (read_decodes_or_keeps_text st4 st5) as (_ & _ & _ & H).
    exact (proj1 (H [x31; x00] "1" eq_refl eq_refl)).
  - destruct (read_decodes_or_keeps_text st5 st6) as (_ & _ & _ & H).
    exact (proj1 (H _ ("{" ++ q "a" ++ ":1}") eq_refl eq_refl)).
Defined.

(** Bytes that are no text in the encoding detected make [json.loads]
    raise [UnicodeDecodeError], which is not a [JSONDecodeError] and
    leaves [read]. *)
Example read_binary_not_utf8 :
  fst (read (connected_state None [(0, InFrame (binary_frame [xff]))]))
    = Raise UnicodeDecodeError.
Proof. reflexivity. Qed.

(** [json.detect_encoding] and the decoding on bytes of each kind. *)
Example text_of_bytes_examples :
  List.map Json.text_of_bytes
    [[x31; x00]; [xff; xfe; x31; x00]; [xfe; xff; x00; x31]; [x00; x31];
     [x31; x00; x00; x00]; [x00; x00; x00; x31]; [xff; xfe; x00; x00; x31; x00; x00; x00];
     [x31; x32]; [x31; x00; x00]; [xff; xfe; x31]; [x31; x00; x00; x00; x31];
     [x31; x00; x00; x00; x00; x00; x11; x00]; [xed; xa0]]
  = [Some "1"; Some "1"; Some "1"; Some "1";
     Some "1"; Some "1"; Some "1";
     Some "12"; Some (String "1" (String zero (String zero ""))); None; None;
     None; None].
Proof. vm_compute. reflexivity. Qed.

(** A surrogate pair in UTF-16 is one character; a lone surrogate is let
    through. *)
Example text_of_bytes_surrogates :
  Json.text_of_bytes [x22; x00; x3d; xd8; x00; xde; x22; x00]
    = Some (q (string_of_list_byte [xf0; x9f; x98; x80])) /\
  Json.text_of_bytes [x22; x00; x00; xd8; x22; x00]
    = Some (q (string_of_list_byte [xed; xa0; x80])).
Proof. split; vm_compute; reflexivity. Qed.

(** A ping and a pong before the data: [read] answers the ping with a
    pong of the same payload, passes over both, and returns the data. *)
Example read_passes_over_ping_and_pong :
  let ping_frame := {| opcode := OPCODE_PING; data := [x68; x69] |} in
  let pong_frame := {| opcode := OPCODE_PONG; data := [] |} in
  let st := connected_state (Some 3000)
              [(1, InFrame ping_frame); (2, InFrame pong_frame);
               (3, InFrame (text_frame "[1]"))] in
  fst (read st) = Ok (PList [PInt 1]) /\
  ops (world (snd (read st))) =
    [OpRecv ping_frame; OpSend {| opcode := OPCODE_PONG; data := [x68; x69] |};
     OpRecv pong_frame; OpRecv (text_frame "[1]")] /\
  now (world (snd (read st))) = now (world st) + 6.
Proof. intros ping_frame pong_frame st. repeat split. Qed.

(** A close frame in place of the data: [read] answers it with a close
    frame of status 1000, marks the handle as not connected, and returns
    the empty string. *)
Example read_meets_close_frame :
  let st := connected_state (Some 3000) [(1, InFrame (close_frame [x03; xe9]))] in
  fst (read st) = Ok (PStr "") /\
  ops (world (snd (read st))) =
    [OpRecv (close_frame [x03; xe9]); OpSend (close_frame [x03; xe8])] /\
  is_connected (snd (read st)) = false.
Proof. intros st. repeat split. Qed.

(* ===================================================================== *)
(** * The request headers *)
(* ===================================================================== *)

Lemma omit_pseudo_headers_lookup (h : gmap string string) (k : string) :
  omit_pseudo_headers h !! k = if String.prefix ":" k then None else h !! k.
Proof.
  unfold omit_pseudo_headers. rewrite map_lookup_filter.
  destruct (h !! k) as [v|]; simpl.
  - destruct (String.prefix ":" k) eqn:E.
    + rewrite option_guard_False; [reflexivity | simpl; congruence].
    + rewrite option_guard_True; [reflexivity | simpl; congruence].
  - now destruct (String.prefix ":" k).
Qed.

Lemma prepare_headers_lookup (case_id : string) (t : Z) (h : gmap string string)
    (k : string) :
  prepare_headers case_id t h !! k =
    if String.eqb k "HRUN-Websocket-Request-ID" then Some (request_id case_id t)
    else if String.prefix ":" k then None else h !! k.
Proof.
  unfold prepare_headers.
  destruct (String.eqb_spec k "HRUN-Websocket-Request-ID") as [->|Hne].
  - apply lookup_insert_eq.
  - rewrite lookup_insert_ne by congruence. apply omit_pseudo_headers_lookup.
Qed.

(* ===================================================================== *)
(** * [close_connection] *)
(* ===================================================================== *)

(** [close_connection], by the three ways through it. *)
Lemma close_connection_unfold (close_status : Z) (timeout : option Z) (st : St) :
  close_connection close_status timeout st =
    if is_connected st then
      if (close_status <? 0) || (close_status >=? LENGTH_16)
      then (Raise (ValueError "code is invalid range"), st)
      else match close_handshake close_status timeout st with
           | (Ok r, st1) =>
               (Ok r, on_self (set_status_code (Some r)) (snd (ws_shutdown st1)))
           | (Raise e, st1) => (Raise e, st1)
           | (Hang, st1) => (Hang, st1)
           end
    else (Ok STATUS_ABNORMAL_CLOSED,
          on_self (set_status_code (Some STATUS_ABNORMAL_CLOSED)) st).
Proof.
  unfold close_connection, is_connected, bind at 1, gets at 1.
  destruct (connected (client (self st))); [|reflexivity].
  destruct ((close_status <? 0) || (close_status >=? LENGTH_16)); [reflexivity|].
  unfold bind, modify, ret.
  destruct (close_handshake close_status timeout st) as [[r|e|] st1]; try reflexivity.
  unfold ws_shutdown. now destruct (the_sock st1).
Qed.

Lemma range_test (close_status : Z) :
  (close_status <? 0) || (close_status >=? LENGTH_16) = false <-> in_range close_status.
Proof.
  unfold in_range, LENGTH_16. change (Z.shiftl 1 16) with 65536.
  rewrite orb_false_iff, Z.ltb_ge, Z.geb_leb, Z.leb_gt. lia.
Qed.

(** The [try] block never lets an exception out. *)
Lemma close_handshake_no_raise (close_status : Z) (timeout : option Z) (st : St) (e : exn) :
  fst (close_handshake close_status timeout st) <> Raise e.
Proof.
  unfold close_handshake, try_except.
  destruct ((modify (on_client (set_connected false)) ;;
             close_exchange close_status timeout) st) as [[r|e'|] st1];
    simpl; discriminate.
Qed.

(** ** The receive loop *)

Lemma read_frame_spec (st : St) :
  match read_frame st with
  | (Ok f, st') =>
      self st' = self st /\ S (length (inbox (world st'))) = length (inbox (world st))
  | (Raise _, st') => True
  | (Hang, st') => the_sock st = Some None /\ st' = st
  end.
Proof.
  unfold read_frame.
  destruct (the_sock st) as [[t|]|]; [| |exact I];
    destruct (inbox (world st)) as [|[delay item] rest] eqn:Hin; simpl;
    try destruct (t <? Z.max 0 delay); unfold deliver;
    try destruct item as [f|[]]; simpl; auto.
Qed.

(** [validate] accepts a frame or raises [WebSocketProtocolException]. *)
Lemma validate_outcome (f : ABNF) :
  validate f = Ok tt \/ validate f = Raise WebSocketProtocolException.
Proof.
  unfold validate.
  destruct (negb (member (opcode f) OPCODES)); [now right|].
  destruct (opcode f =? OPCODE_CLOSE); [|now left].
  destruct (data f) as [|hi [|lo reason]]; [now left | now right |].
  repeat match goal with |- context [if ?c then _ else _] => destruct c end; auto.
Qed.

Lemma recv_frame_spec (st : St) :
  match recv_frame st with
  | (Ok f, st') =>
      self st' = self st /\ S (length (inbox (world st'))) = length (inbox (world st))
  | (Raise _, st') => True
  | (Hang, st') => the_sock st = Some None /\ st' = st
  end.
Proof.
  unfold recv_frame, bind, lift, ret. pose proof (read_frame_spec st) as H.
  destruct (read_frame st) as [[f|e|] st1]; [|exact H..].
  now destruct (validate_outcome f) as [-> | ->].
Qed.

(** Fuel above the length of the peer's script is never used up: more
    of it gives the same run. *)
Lemma recv_data_frame_fuel (n : nat) :
  forall (m : nat) (st : St),
    (length (inbox (world st)) < n)%nat -> (n <= m)%nat ->
    recv_data_frame m st = recv_data_frame n st.
Proof.
  induction n as [|n IH]; intros m st Hlen Hle; [lia|].
  destruct m as [|m]; [lia|]. cbn [recv_data_frame].
  pose proof (recv_frame_spec st) as H.
  set (k1 := fun frame : ABNF => _). set (k2 := fun frame : ABNF => _).
  unfold bind. destruct (recv_frame st) as [[fr|e|] st1]; [|reflexivity..].
  destruct H as [_ Hin]. subst k1 k2. cbv beta zeta.
  assert (forall st2, inbox (world st2) = inbox (world st1) ->
                      recv_data_frame m st2 = recv_data_frame n st2) as Hnext.
  { intros st2 H2. apply IH; [rewrite H2|]; lia. }
  repeat match goal with |- context [if ?c then _ else _] => destruct c end;
    try reflexivity; try (apply Hnext; reflexivity).
  unfold bind, ws_send. cbn match.
  destruct (the_sock st1); [|reflexivity].
  destruct (link_down (world st1)); [reflexivity|]. now apply Hnext.
Qed.

Lemma close_wait_turn_spec (r : Z) (st : St) :
  match close_wait_turn r st with
  | (Ok Continue, st') =>
      self st' = self st /\ S (length (inbox (world st'))) = length (inbox (world st))
  | (Ok (Break _), st') => True
  | (Raise _, _) => False
  | (Hang, st') => the_sock st = Some None /\ st' = st
  end.
Proof.
  unfold close_wait_turn, try_except, bind.
  pose proof (recv_frame_spec st) as H.
  destruct (recv_frame st) as [[f|e|] st1]; simpl; [| exact I | exact H].
  destruct (negb (opcode f =? OPCODE_CLOSE)); simpl; [exact H|].
  unfold isEnabledForError, gets, lift.
  destruct (error_enabled (world st1)); simpl; [|exact I].
  unfold struct_unpack_H.
  destruct (take 2 (data f)) as [|hi [|lo [|]]]; simpl; try exact I.
  destruct ((_ >=? 3000) && (_ <=? 4999)); simpl; [exact I|].
  destruct (negb (_ =? STATUS_NORMAL)); simpl; exact I.
Qed.

(** Fuel above the length of the peer's script is as good as any. *)
Lemma close_wait_fuel (n m : nat) (timeout : option Z) (start r : Z) (st : St) :
  (length (inbox (world st)) < n)%nat ->
  (length (inbox (world st)) < m)%nat ->
  close_wait n timeout start r st = close_wait m timeout start r st.
Proof.
  revert m st. induction n as [|n IH]; intros [|m] st Hn Hm; try lia.
  simpl. unfold bind, time_time, gets.
  destruct (match timeout with None => true | Some tmo => _ end); [|reflexivity].
  pose proof (close_wait_turn_spec r st) as H.
  destruct (close_wait_turn r st) as [[[|r']|e|] st1]; try reflexivity.
  destruct H as [_ Hlen]. apply IH; lia.
Qed.

(** On a socket with a timeout the loop comes to an end. *)
Lemma close_wait_returns (n : nat) (timeout : option Z) (start r : Z) (st : St) :
  (length (inbox (world st)) < n)%nat ->
  the_sock st <> Some None ->
  exists r' st', close_wait n timeout start r st = (Ok r', st').
Proof.
  revert st. induction n as [|n IH]; intros st Hn Hsock; [lia|].
  simpl. unfold bind, time_time, gets, ret.
  destruct (match timeout with None => true | Some tmo => _ end); [|eauto].
  pose proof (close_wait_turn_spec r st) as H.
  destruct (close_wait_turn r st) as [[[|r']|e|] st1];
    [| eauto | contradiction | now destruct H].
  destruct H as [Hself Hlen].
  apply IH; [lia|]. unfold the_sock in *. now rewrite Hself.
Qed.

(** ** Reasoning about computations *)

Lemma wp_bind {A B} (m : M St A) (k : A -> M St B) Q st :
  wp m (fun o st' => match o with
                     | Ok a => wp (k a) Q st'
                     | Raise e => Q (Raise e) st'
                     | Hang => Q Hang st'
                     end) st ->
  wp (bind m k) Q st.
Proof. unfold wp, bind. now destruct (m st) as [[a|e|] st']. Qed.

Lemma wp_try {A} (m : M St A) (h : exn -> M St A) Q st :
  wp m (fun o st' => match o with
                     | Raise e => wp (h e) Q st'
                     | _ => Q o st'
                     end) st ->
  wp (try_except m h) Q st.
Proof. unfold wp, try_except. now destruct (m st) as [[a|e|] st']. Qed.

Lemma wp_gets {A} (f : St -> A) (Q : outcome A -> St -> Prop) st :
  Q (Ok (f st)) st -> wp (gets f) Q st.
Proof. now unfold wp. Qed.

Lemma wp_ret {A} (a : A) (Q : outcome A -> St -> Prop) st :
  Q (Ok a) st -> wp (ret a) Q st.
Proof. now unfold wp. Qed.

Lemma wp_mono {A} (m : M St A) (Q Q' : outcome A -> St -> Prop) st :
  wp m Q st -> (forall o st', Q o st' -> Q' o st') -> wp m Q' st.
Proof. unfold wp. auto. Qed.

Lemma keeps_bind {A B} (m : M St A) (k : A -> M St B) :
  keeps m -> (forall a, keeps (k a)) -> keeps (bind m k).
Proof.
  intros Hm Hk st Hc. unfold bind. specialize (Hm st Hc).
  destruct (m st) as [[a|e|] st1]; simpl in *; [now apply Hk|..]; auto.
Qed.

Lemma keeps_try {A} (m : M St A) (h : exn -> M St A) :
  keeps m -> (forall e, keeps (h e)) -> keeps (try_except m h).
Proof.
  intros Hm Hh st Hc. unfold try_except. specialize (Hm st Hc).
  destruct (m st) as [[a|e|] st1]; simpl in *; [|now apply Hh|]; auto.
Qed.

Lemma keeps_ret {A} (a : A) : keeps (ret a).
Proof. now intros st. Qed.

Lemma keeps_lift {A} (o : outcome A) : keeps (lift o).
Proof. now intros st. Qed.

Lemma keeps_gets {A} (f : St -> A) : keeps (gets f).
Proof. now intros st. Qed.

Lemma keeps_on_world (f : World -> World) : keeps (modify (on_world f)).
Proof. now intros st. Qed.

Lemma keeps_ws_send payload opc : keeps (ws_send payload opc).
Proof.
  intros st Hc. unfold ws_send.
  destruct payload; try exact Hc;
    destruct (the_sock st); try exact Hc; now destruct (link_down (world st)).
Qed.

Lemma keeps_sock_gettimeout : keeps sock_gettimeout.
Proof. intros st Hc. unfold sock_gettimeout. now destruct (the_sock st). Qed.

Lemma keeps_sock_settimeout t : keeps (sock_settimeout t).
Proof.
  intros st Hc. unfold sock_settimeout. destruct (the_sock st); [|exact Hc].
  now destruct (match t with Some v => v <? 0 | None => false end).
Qed.

Lemma keeps_sock_shutdown : keeps sock_shutdown.
Proof.
  intros st Hc. unfold sock_shutdown. destruct (the_sock st); [|exact Hc].
  now destruct (link_down (world st)).
Qed.

Lemma keeps_read_frame : keeps read_frame.
Proof.
  intros st Hc. unfold read_frame.
  destruct (the_sock st) as [[t|]|]; [| |reflexivity];
    destruct (inbox (world st)) as [|[delay item] rest]; simpl; try exact Hc;
    try destruct (t <? Z.max 0 delay); simpl; try exact Hc;
    unfold deliver; destruct item as [f|[]]; simpl; try exact Hc; reflexivity.
Qed.

(** The primitives first, then the two ways of composing. *)
Ltac keeps_tac :=
  repeat first
    [ apply keeps_lift | apply keeps_ws_send | apply keeps_sock_gettimeout
    | apply keeps_sock_settimeout | apply keeps_sock_shutdown
    | apply keeps_gets | apply keeps_read_frame | apply keeps_on_world
    | apply keeps_ret
    | apply keeps_try; [|intros ?]
    | apply keeps_bind; [|intros ?] ].

Lemma keeps_recv_frame : keeps recv_frame.
Proof. unfold recv_frame. keeps_tac. Qed.

Lemma keeps_close_wait_turn r : keeps (close_wait_turn r).
Proof.
  unfold close_wait_turn, isEnabledForError, logger.
  apply keeps_try; [|intros ?; apply keeps_ret].
  apply keeps_bind; [apply keeps_recv_frame|]. intros frame.
  destruct (negb (opcode frame =? OPCODE_CLOSE)); [apply keeps_ret|].
  apply keeps_bind; [apply keeps_gets|]. intros [|]; [|apply keeps_ret].
  apply keeps_bind; [apply keeps_lift|]. intros recv_status.
  apply keeps_bind; [|intros ?; apply keeps_ret].
  destruct ((recv_status >=? 3000) && (recv_status <=? 4999)); [apply keeps_on_world|].
  destruct (negb (recv_status =? STATUS_NORMAL)); [apply keeps_on_world | apply keeps_ret].
Qed.

Lemma keeps_close_wait n timeout start r : keeps (close_wait n timeout start r).
Proof.
  induction n as [|n IH]; [apply keeps_lift|].
  cbn [close_wait]. unfold time_time.
  apply keeps_bind; [apply keeps_gets|]. intros t.
  destruct (match timeout with None => true | Some tmo => _ end); [|apply keeps_ret].
  apply keeps_bind; [apply keeps_close_wait_turn|]. intros [|r']; [exact IH | apply keeps_ret].
Qed.

Lemma keeps_close_exchange (close_status : Z) (timeout : option Z) :
  keeps (close_exchange close_status timeout).
Proof.
  unfold close_exchange, time_time.
  repeat first [ apply keeps_close_wait | progress keeps_tac ].
Qed.

(** The [try] block leaves the handle marked as not connected. *)
Lemma close_handshake_disconnects (close_status : Z) (timeout : option Z) (st : St) :
  is_connected (snd (close_handshake close_status timeout st)) = false.
Proof.
  pose proof (keeps_close_exchange close_status timeout
                (on_client (set_connected false) st) eq_refl) as H.
  unfold close_handshake, try_except, bind, modify.
  destruct (close_exchange close_status timeout (on_client (set_connected false) st))
    as [[r|e|] st2]; exact H.
Qed.

Lemma wp_ws_send payload opc (Q : outcome unit -> St -> Prop) st :
  (forall st', the_sock st' = the_sock st -> Q (Ok tt) st') ->
  (forall e, Q (Raise e) st) ->
  wp (ws_send payload opc) Q st.
Proof.
  intros Hok Hraise. unfold wp, ws_send.
  destruct payload; try apply Hraise;
    destruct (the_sock st) eqn:E; try apply Hraise;
    destruct (link_down (world st)); try apply Hraise; now apply Hok.
Qed.

Lemma wp_sock_gettimeout (Q : outcome (option Z) -> St -> Prop) st :
  (forall tmo, Q (Ok tmo) st) -> (forall e, Q (Raise e) st) ->
  wp sock_gettimeout Q st.
Proof.
  intros Hok Hraise. unfold wp, sock_gettimeout.
  destruct (the_sock st); [apply Hok | apply Hraise].
Qed.

Lemma wp_sock_settimeout t (Q : outcome unit -> St -> Prop) st :
  (forall st', the_sock st' = Some t -> Q (Ok tt) st') ->
  (forall e, Q (Raise e) st) ->
  wp (sock_settimeout t) Q st.
Proof.
  intros Hok Hraise. unfold wp, sock_settimeout.
  destruct (the_sock st); [|apply Hraise].
  destruct (match t with Some v => v <? 0 | None => false end);
    [apply Hraise | now apply Hok].
Qed.

Lemma wp_sock_shutdown (Q : outcome unit -> St -> Prop) st :
  (forall st', Q (Ok tt) st') -> (forall e, Q (Raise e) st) ->
  wp sock_shutdown Q st.
Proof.
  intros Hok Hraise. unfold wp, sock_shutdown.
  destruct (the_sock st); [|apply Hraise].
  destruct (link_down (world st)); [apply Hraise | apply Hok].
Qed.

Lemma wp_close_wait n timeout start r (Q : outcome Z -> St -> Prop) st :
  (length (inbox (world st)) < n)%nat ->
  the_sock st <> Some None ->
  (forall r' st', Q (Ok r') st') ->
  wp (close_wait n timeout start r) Q st.
Proof.
  intros Hn Hsock HQ.
  destruct (close_wait_returns n timeout start r st Hn Hsock) as (r' & st' & Heq).
  unfold wp. rewrite Heq. now apply HQ.
Qed.

(** With a number for [timeout] nothing in the exchange blocks for
    ever. *)
Lemma close_exchange_halts (close_status T : Z) (st : St) :
  fst (close_exchange close_status (Some T) st) <> Hang.
Proof.
  change (wp (close_exchange close_status (Some T)) (fun o _ => o <> Hang) st).
  unfold close_exchange. apply wp_bind.
  unfold wp at 1, lift, struct_pack_H.
  destruct ((0 <=? close_status) && (close_status <? 65536)); simpl; [|discriminate].
  apply wp_bind, wp_ws_send; [intros st1 _ | discriminate].
  apply wp_bind, wp_sock_gettimeout; [intros orig | discriminate].
  apply wp_bind, wp_sock_settimeout; [intros st2 Hsock | discriminate].
  unfold time_time. apply wp_bind, wp_gets. apply wp_bind, wp_gets.
  apply wp_bind, wp_close_wait; [lia | congruence | intros r st3].
  apply wp_bind, wp_try, wp_bind, wp_sock_settimeout; [intros st4 _ | discriminate].
  apply wp_sock_shutdown; discriminate.
Qed.

(** With a number for [timeout], the [try] block returns. *)
Lemma close_handshake_returns (close_status T : Z) (st : St) :
  exists r st', close_handshake close_status (Some T) st = (Ok r, st').
Proof.
  pose proof (close_exchange_halts close_status T (on_client (set_connected false) st)) as H.
  unfold close_handshake, try_except, bind, modify.
  destruct (close_exchange close_status (Some T) (on_client (set_connected false) st))
    as [[r|e|] st1]; simpl in *; unfold ret; eauto. contradiction.
Qed.

(** ** The status range and the disconnected handle *)

Lemma ws_shutdown_disconnects (st : St) :
  is_connected st = false -> is_connected (snd (ws_shutdown st)) = false.
Proof. unfold ws_shutdown. now destruct (the_sock st). Qed.

Lemma close_when_disconnected (st : St) (close_status : Z) (timeout : option Z) :
  is_connected st = false ->
  close_connection close_status timeout st =
    (Ok STATUS_ABNORMAL_CLOSED,
     on_self (set_status_code (Some STATUS_ABNORMAL_CLOSED)) st).
Proof. intros H. now rewrite close_connection_unfold, H. Qed.

Lemma close_leaves_disconnected (st st' : St) (close_status r : Z) (timeout : option Z) :
  close_connection close_status timeout st = (Ok r, st') -> is_connected st' = false.
Proof.
  rewrite close_connection_unfold.
  destruct (is_connected st) eqn:Hc.
  - destruct ((close_status <? 0) || (close_status >=? LENGTH_16)); [discriminate|].
    pose proof (close_handshake_disconnects close_status timeout st) as Hd.
    destruct (close_handshake close_status timeout st) as [[r1|e|] st1];
      [|discriminate..].
    intros [= _ <-]. now apply ws_shutdown_disconnects.
  - now intros [= _ <-].
Qed.

(** C1, as the code has it.  A close status in [0, 65536) never makes
    [close_connection] raise, and with a number for the timeout the call
    returns.  A close status outside that range makes it raise
    [ValueError] with the state, and so the socket, untouched when the
    handle is connected; when the handle is not connected the range is
    not looked at and the call returns the abnormal-closure status. *)
Theorem close_status_range (st : St) (close_status : Z) (timeout : option Z) :
  (in_range close_status ->
   forall e, fst (close_connection close_status timeout st) <> Raise e) /\
  (in_range close_status -> timeout <> None ->
   exists r st', close_connection close_status timeout st = (Ok r, st')) /\
  (~ in_range close_status -> is_connected st = true ->
   close_connection close_status timeout st =
     (Raise (ValueError "code is invalid range"), st)) /\
  (~ in_range close_status -> is_connected st = false ->
   close_connection close_status timeout st =
     (Ok STATUS_ABNORMAL_CLOSED,
      on_self (set_status_code (Some STATUS_ABNORMAL_CLOSED)) st)).
Proof.
  split; [|split; [|split]].
  - intros Hr e. apply range_test in Hr. rewrite close_connection_unfold, Hr.
    destruct (is_connected st); [|discriminate].
    pose proof (close_handshake_no_raise close_status timeout st) as Hn.
    destruct (close_handshake close_status timeout st) as [[r|e'|] st1];
      simpl in *; [discriminate | apply Hn | discriminate].
  - intros Hr HT. apply range_test in Hr. rewrite close_connection_unfold, Hr.
    destruct timeout as [T|]; [|congruence].
    destruct (is_connected st); [|eauto].
    destruct (close_handshake_returns close_status T st) as (r & st1 & ->). eauto.
  - intros Hr Hc. rewrite close_connection_unfold, Hc.
    destruct ((close_status <? 0) || (close_status >=? LENGTH_16)) eqn:E; [reflexivity|].
    now apply range_test in E.
  - intros _. apply close_when_disconnected.
Qed.

(** The two ends of the range on an open connection, and a status out
    of range on a handle that is not connected. *)
Lemma close_status_range_witness :
  (forall e, fst (close_connection 65535 None (connected_state None [])) <> Raise e)
  /\ (exists r st', close_connection 1000 (Some 3000) (connected_state None []) = (Ok r, st'))
  /\ close_connection 65536 (Some 3000) (connected_state None [])
     = (Raise (ValueError "code is invalid range"), connected_state None [])
  /\ close_connection (-1) None disconnected_state
     = (Ok STATUS_ABNORMAL_CLOSED,
        on_self (set_status_code (Some STATUS_ABNORMAL_CLOSED)) disconnected_state).
Proof.
  split; [|split; [|split]].
  - apply (close_status_range (connected_state None []) 65535 None).
    unfold in_range; lia.
  - apply (close_status_range (connected_state None []) 1000 (Some 3000));
      [unfold in_range; lia | discriminate].
  - apply (close_status_range (connected_state None []) 65536 (Some 3000));
      [unfold in_range; lia | reflexivity].
  - apply (close_status_range disconnected_state (-1) None);
      [unfold in_range; lia | reflexivity].
Defined.

(** C1 as the specification words it fails on a handle that is not
    connected: the status 70000 is out of range and nothing is raised. *)
Lemma close_out_of_range_not_connected :
  ~ in_range 70000 /\
  is_connected disconnected_state = false /\
  close_connection 70000 (Some 3000) disconnected_state =
    (Ok STATUS_ABNORMAL_CLOSED,
     on_self (set_status_code (Some STATUS_ABNORMAL_CLOSED)) disconnected_state).
Proof. split; [unfold in_range; lia | split; reflexivity]. Qed.

(** C2.  On a handle that is not connected, [close_connection] returns
    the abnormal-closure status and changes nothing but the client's
    [status_code]: the world, with its socket trace, its peer script and
    its clock, is the same.  Any close that returns leaves the handle not
    connected, so a close after it is of that kind. *)
Theorem close_not_connected_no_io (st : St) (close_status : Z) (timeout : option Z) :
  (is_connected st = false ->
   close_connection close_status timeout st =
     (Ok STATUS_ABNORMAL_CLOSED,
      on_self (set_status_code (Some STATUS_ABNORMAL_CLOSED)) st) /\
   world (snd (close_connection close_status timeout st)) = world st /\
   client (self (snd (close_connection close_status timeout st))) = client (self st)) /\
  (forall r st1 close_status' timeout',
     close_connection close_status timeout st = (Ok r, st1) ->
     close_connection close_status' timeout' st1 =
       (Ok STATUS_ABNORMAL_CLOSED,
        on_self (set_status_code (Some STATUS_ABNORMAL_CLOSED)) st1)).
Proof.
  split.
  - intros H. now rewrite (close_when_disconnected _ _ _ H).
  - intros r st1 cs' tmo' H. apply close_when_disconnected.
    exact (close_leaves_disconnected _ _ _ _ _ H).
Qed.

(** A handle that was never connected, and one that has just completed
    a close. *)
Lemma close_not_connected_no_io_witness :
  close_connection 1000 (Some 3000) disconnected_state =
    (Ok STATUS_ABNORMAL_CLOSED,
     on_self (set_status_code (Some STATUS_ABNORMAL_CLOSED)) disconnected_state)
  /\ (let st1 := snd (close_connection 1000 (Some 3000)
                        (connected_state None [(5, InFrame (close_frame [x03; xe8]))])) in
      close_connection 1000 (Some 3000) st1 =
        (Ok STATUS_ABNORMAL_CLOSED,
         on_self (set_status_code (Some STATUS_ABNORMAL_CLOSED)) st1)).
Proof.
  split.
  - apply (close_not_connected_no_io disconnected_state 1000 (Some 3000)). reflexivity.
  - intros st1.
    apply (close_not_connected_no_io
             (connected_state None [(5, InFrame (close_frame [x03; xe8]))])
             1000 (Some 3000)) with (r := 1000).
    reflexivity.
Defined.

Lemma read_frame_arrives (st : St) tmo delay f rest :
  the_sock st = Some tmo ->
  inbox (world st) = (delay, InFrame f) :: rest ->
  in_time tmo delay ->
  read_frame st = (Ok f, took (Z.max 0 delay) f rest st).
Proof.
  intros Hsock Hin Ht. unfold read_frame. rewrite Hsock. cbv zeta. rewrite Hin.
  destruct tmo as [t|]; [|reflexivity].
  simpl in Ht. destruct (Z.ltb_spec t (Z.max 0 delay)); [lia | reflexivity].
Qed.

(** A frame that arrives in time is returned when [validate] accepts it,
    and makes the receive raise when it does not; it has been read in
    both cases. *)
Lemma recv_frame_arrives (st : St) tmo delay f rest :
  the_sock st = Some tmo ->
  inbox (world st) = (delay, InFrame f) :: rest ->
  in_time tmo delay ->
  validate f = Ok tt ->
  recv_frame st = (Ok f, took (Z.max 0 delay) f rest st).
Proof.
  intros Hsock Hin Ht Hv. unfold recv_frame.
  erewrite bind_Ok by (exact (read_frame_arrives st tmo delay f rest Hsock Hin Ht)).
  unfold lift. now rewrite Hv.
Qed.

Lemma recv_frame_refused (st : St) tmo delay f rest :
  the_sock st = Some tmo ->
  inbox (world st) = (delay, InFrame f) :: rest ->
  in_time tmo delay ->
  validate f <> Ok tt ->
  recv_frame st = (Raise WebSocketProtocolException, took (Z.max 0 delay) f rest st).
Proof.
  intros Hsock Hin Ht Hv. unfold recv_frame.
  erewrite bind_Ok by (exact (read_frame_arrives st tmo delay f rest Hsock Hin Ht)).
  unfold lift. now destruct (validate_outcome f) as [H | ->].
Qed.

Lemma recv_frame_silent (st : St) t :
  the_sock st = Some (Some t) ->
  inbox (world st) = [] ->
  recv_frame st =
    (Raise WebSocketTimeoutException, on_world (fun w => set_now (now w + t) w) st).
Proof.
  intros Hsock Hin. unfold recv_frame. erewrite bind_Raise; [reflexivity|].
  unfold read_frame. rewrite Hsock. cbv zeta. now rewrite Hin.
Qed.

Lemma recv_frame_late (st : St) t delay item rest :
  the_sock st = Some (Some t) ->
  inbox (world st) = (delay, item) :: rest ->
  t < Z.max 0 delay ->
  recv_frame st =
    (Raise WebSocketTimeoutException,
     on_world (fun w => set_inbox ((Z.max 0 delay - t, item) :: rest)
                          (set_now (now w + t) w)) st).
Proof.
  intros Hsock Hin Ht. unfold recv_frame. erewrite bind_Raise; [reflexivity|].
  unfold read_frame. rewrite Hsock. cbv zeta. rewrite Hin.
  destruct (Z.ltb_spec t (Z.max 0 delay)); [reflexivity | lia].
Qed.

Lemma close_wait_S (n : nat) (timeout : option Z) (start r : Z) (st : St) :
  close_wait (S n) timeout start r st =
    if match timeout with
       | None => true
       | Some tmo => now (world st) - start <? tmo
       end
    then match close_wait_turn r st with
         | (Ok Continue, st1) => close_wait n timeout start r st1
         | (Ok (Break r'), st1) => (Ok r', st1)
         | (Raise e, st1) => (Raise e, st1)
         | (Hang, st1) => (Hang, st1)
         end
    else (Ok r, st).
Proof.
  simpl. unfold bind, time_time, gets.
  destruct (match timeout with None => true | Some tmo => _ end); [|reflexivity].
  now destruct (close_wait_turn r st) as [[[|r']|e|] st1].
Qed.

Lemma accepted_validate (f : ABNF) : accepted f = true <-> validate f = Ok tt.
Proof.
  unfold accepted. destruct (validate_outcome f) as [-> | ->]; split; congruence.
Qed.

(** A frame that is not a close frame is dropped and the loop goes on. *)
Lemma turn_other (r : Z) (st : St) tmo delay f rest :
  the_sock st = Some tmo ->
  inbox (world st) = (delay, InFrame f) :: rest ->
  in_time tmo delay ->
  accepted f = true ->
  (opcode f =? OPCODE_CLOSE) = false ->
  close_wait_turn r st = (Ok Continue, took (Z.max 0 delay) f rest st).
Proof.
  intros Hsock Hin Ht Hacc Hop. apply accepted_validate in Hacc. unfold close_wait_turn.
  erewrite try_Ok; [reflexivity|].
  erewrite bind_Ok by (eapply recv_frame_arrives; eauto).
  now rewrite Hop.
Qed.

(** A close frame with a status ends the loop with that status when the
    library logs errors ... *)
Lemma turn_close (r : Z) (st : St) tmo delay hi lo more rest :
  the_sock st = Some tmo ->
  inbox (world st) = (delay, InFrame (close_frame (hi :: lo :: more))) :: rest ->
  in_time tmo delay ->
  accepted (close_frame (hi :: lo :: more)) = true ->
  error_enabled (world st) = true ->
  close_wait_turn r st =
    (Ok (Break (status_of hi lo)),
     logged (close_log (status_of hi lo))
       (took (Z.max 0 delay) (close_frame (hi :: lo :: more)) rest st)).
Proof.
  intros Hsock Hin Ht Hacc Hen. apply accepted_validate in Hacc. unfold close_wait_turn.
  erewrite try_Ok; [reflexivity|].
  erewrite bind_Ok by (eapply recv_frame_arrives; eauto).
  cbn [opcode close_frame negb Z.eqb OPCODE_CLOSE Pos.eqb].
  unfold isEnabledForError. erewrite bind_Ok by reflexivity.
  cbn [took on_world world error_enabled record_op]. cbn [set_inbox set_now error_enabled].
  rewrite Hen. cbn [data take]. unfold lift, struct_unpack_H.
  erewrite bind_Ok by reflexivity. fold (status_of hi lo).
  unfold close_log, logger, modify, bind, ret.
  destruct ((status_of hi lo >=? 3000) && (status_of hi lo <=? 4999)).
  - destruct st as [c [? ? ? ? ? ? ?]]. reflexivity.
  - destruct (negb (status_of hi lo =? STATUS_NORMAL)).
    + destruct st as [c [? ? ? ? ? ? ?]]. reflexivity.
    + destruct st as [c [? ? ? ? ? ? ?]]. unfold logged, on_world. simpl.
      now rewrite app_nil_r.
Qed.

(** ... and with the value the loop started with when it does not. *)
Lemma turn_close_not_logged (r : Z) (st : St) tmo delay payload rest :
  the_sock st = Some tmo ->
  inbox (world st) = (delay, InFrame (close_frame payload)) :: rest ->
  in_time tmo delay ->
  accepted (close_frame payload) = true ->
  error_enabled (world st) = false ->
  close_wait_turn r st =
    (Ok (Break r), took (Z.max 0 delay) (close_frame payload) rest st).
Proof.
  intros Hsock Hin Ht Hacc Hen. apply accepted_validate in Hacc. unfold close_wait_turn.
  erewrite try_Ok; [reflexivity|].
  erewrite bind_Ok by (eapply recv_frame_arrives; eauto).
  cbn [opcode close_frame negb Z.eqb OPCODE_CLOSE Pos.eqb].
  unfold isEnabledForError. erewrite bind_Ok by reflexivity.
  cbn [took on_world world error_enabled record_op]. cbn [set_inbox set_now error_enabled].
  now rewrite Hen.
Qed.

(** A frame that the library does not accept ends the loop with the
    status it had, and nothing is logged. *)
Lemma turn_refused (r : Z) (st : St) tmo delay f rest :
  the_sock st = Some tmo ->
  inbox (world st) = (delay, InFrame f) :: rest ->
  in_time tmo delay ->
  accepted f = false ->
  close_wait_turn r st = (Ok (Break r), took (Z.max 0 delay) f rest st).
Proof.
  intros Hsock Hin Ht Hacc. unfold close_wait_turn.
  erewrite try_Raise; [reflexivity|].
  erewrite bind_Raise; [reflexivity|].
  apply (recv_frame_refused st tmo); auto.
  intros Hv. apply accepted_validate in Hv. congruence.
Qed.

(** The receive times out: the loop is left with the status it had. *)
Lemma turn_silent (r : Z) (st : St) t :
  the_sock st = Some (Some t) ->
  inbox (world st) = [] ->
  close_wait_turn r st = (Ok (Break r), on_world (fun w => set_now (now w + t) w) st).
Proof.
  intros Hsock Hin. unfold close_wait_turn.
  erewrite try_Raise; [reflexivity|].
  erewrite bind_Raise; [reflexivity|]. now apply recv_frame_silent.
Qed.

Lemma turn_late (r : Z) (st : St) t delay item rest :
  the_sock st = Some (Some t) ->
  inbox (world st) = (delay, item) :: rest ->
  t < Z.max 0 delay ->
  close_wait_turn r st =
    (Ok (Break r),
     on_world (fun w => set_inbox ((Z.max 0 delay - t, item) :: rest)
                          (set_now (now w + t) w)) st).
Proof.
  intros Hsock Hin Ht. unfold close_wait_turn.
  erewrite try_Raise; [reflexivity|].
  erewrite bind_Raise; [reflexivity|]. now apply recv_frame_late.
Qed.

(** Against a quiet peer the loop ends once [T] has passed, and before
    twice [T]; it has only read frames, and the status is untouched. *)
Lemma close_wait_quiet (script : list (Z * incoming)) :
  forall (n : nat) (st : St) (T start r : Z),
    inbox (world st) = script ->
    quiet script = true ->
    (length script < n)%nat ->
    the_sock st = Some (Some T) ->
    0 <= T ->
    start <= now (world st) <= start + 2 * T ->
    exists st' frames,
      close_wait n (Some T) start r st = (Ok r, st') /\
      self st' = self st /\
      start + T <= now (world st') <= start + 2 * T /\
      ops (world st') = (ops (world st) ++ List.map OpRecv frames)%list /\
      link_down (world st') = link_down (world st) /\
      log (world st') = log (world st).
Proof.
  induction script as [|[delay item] rest IH]; intros n st T start r Hin Hq Hn Hsock HT Hnow;
    (destruct n as [|n]; [simpl in Hn; lia|]); rewrite close_wait_S;
    destruct (Z.ltb_spec (now (world st) - start) T) as [Hlt|Hge].
  - rewrite (turn_silent r st T Hsock Hin).
    eexists _, []. split; [reflexivity|]. simpl. rewrite app_nil_r. repeat split; lia.
  - exists st, []. simpl. rewrite app_nil_r. repeat split; lia.
  - simpl in Hq. apply andb_true_iff in Hq as [Hitem Hq].
    destruct item as [f|e]; [|discriminate].
    apply andb_true_iff in Hitem as [Hacc Hitem]. apply negb_true_iff in Hitem.
    destruct (Z.lt_ge_cases T (Z.max 0 delay)) as [Hlate|Hok].
    + rewrite (turn_late r st T delay (InFrame f) rest Hsock Hin Hlate).
      eexists _, []. split; [reflexivity|]. simpl. rewrite app_nil_r. repeat split; lia.
    + rewrite (turn_other r st (Some T) delay f rest Hsock Hin Hok Hacc Hitem).
      destruct (IH n (took (Z.max 0 delay) f rest st) T start r)
        as (st' & frames & Heq & Hself & Ht' & Hops & Hlink & Hlog);
        [reflexivity | exact Hq | simpl in Hn; lia | exact Hsock | exact HT
        | simpl; lia |].
      exists st', (f :: frames). split; [exact Heq|].
      split; [exact Hself|]. split; [exact Ht'|].
      split; [|split; [exact Hlink | exact Hlog]].
      rewrite Hops. simpl. now rewrite <- app_assoc.
  - exists st, []. simpl. rewrite app_nil_r. repeat split; lia.
Qed.

(** ** The close handshake against a quiet peer *)

Lemma sock_gettimeout_ok (st : St) orig :
  the_sock st = Some orig -> sock_gettimeout st = (Ok orig, st).
Proof. intros H. unfold sock_gettimeout. now rewrite H. Qed.

Lemma sock_settimeout_ok (st : St) old t :
  the_sock st = Some old -> valid_timeout t ->
  sock_settimeout t st = (Ok tt, timeout_set t st).
Proof.
  intros H Hv. unfold sock_settimeout. rewrite H.
  destruct t as [v|]; [|reflexivity]. simpl in Hv.
  destruct (Z.ltb_spec v 0); [lia | reflexivity].
Qed.

Lemma sock_shutdown_ok (st : St) old :
  the_sock st = Some old -> link_down (world st) = false ->
  sock_shutdown st = (Ok tt, on_world (record_op OpShutdown) st).
Proof. intros H Hl. unfold sock_shutdown. now rewrite H, Hl. Qed.

Lemma struct_pack_H_ok (n : Z) :
  in_range n ->
  struct_pack_H n = Ok [byte_of_Z (Z.shiftr n 8); byte_of_Z (Z.land n 255)].
Proof.
  intros [H0 H1]. unfold struct_pack_H.
  destruct (Z.leb_spec 0 n); [|lia]. destruct (Z.ltb_spec n 65536); [reflexivity | lia].
Qed.

Lemma close_exchange_quiet (st : St) (close_status T : Z) (orig : option Z) :
  the_sock st = Some orig ->
  valid_timeout orig ->
  link_down (world st) = false ->
  in_range close_status ->
  0 <= T ->
  quiet (inbox (world st)) = true ->
  exists st' frames,
    close_exchange close_status (Some T) st = (Ok STATUS_ABNORMAL_CLOSED, st') /\
    the_sock st' = Some orig /\
    now (world st) + T <= now (world st') <= now (world st) + 2 * T /\
    ops (world st') =
      (ops (world st)
         ++ [OpSend (sent_close_frame close_status); OpSetTimeout (Some T)]
         ++ List.map OpRecv frames
         ++ [OpSetTimeout orig; OpShutdown])%list /\
    log (world st') = log (world st).
Proof.
  intros Hsock Hvalid Hlink Hrange HT Hquiet. unfold close_exchange.
  erewrite bind_Ok by (unfold lift; rewrite (struct_pack_H_ok _ Hrange); reflexivity).
  erewrite bind_Ok by (apply ws_send_writable; split; [congruence | exact Hlink]).
  set (st1 := sent _ st).
  erewrite bind_Ok by (apply sock_gettimeout_ok; exact Hsock).
  erewrite bind_Ok by (eapply sock_settimeout_ok; [exact Hsock | exact HT]).
  set (st2 := timeout_set (Some T) st1).
  unfold time_time. erewrite bind_Ok by reflexivity. erewrite bind_Ok by reflexivity.
  destruct (close_wait_quiet (inbox (world st2)) (length (inbox (world st2)) + 1) st2 T
              (now (world st2)) STATUS_ABNORMAL_CLOSED)
    as (st3 & frames & Hloop & Hself & Hnow & Hops & Hlink3 & Hlog);
    [reflexivity | exact Hquiet | lia | reflexivity | exact HT | lia |].
  erewrite bind_Ok by exact Hloop.
  assert (the_sock st3 = Some (Some T)) as Hsock3
    by (unfold the_sock; now rewrite Hself).
  erewrite bind_Ok.
  2:{ apply try_Ok. erewrite bind_Ok by (eapply sock_settimeout_ok; eauto).
      eapply sock_shutdown_ok; [reflexivity | exact (eq_trans Hlink3 Hlink)]. }
  exists (on_world (record_op OpShutdown) (timeout_set orig st3)), frames.
  split; [reflexivity|]. split; [reflexivity|]. split; [exact Hnow|].
  split; [|exact Hlog].
  simpl. rewrite Hops. simpl. now rewrite <- !app_assoc.
Qed.

(** C8.  On a connected handle whose peer sends no close frame (it is
    silent, or sends frames of other kinds, which the library accepts),
    [close_connection] with the timeout [T] returns the abnormal-closure
    status (and stores it in [status_code]) when [T] has passed and before
    twice [T] has.  On the socket it has sent the close frame, set the
    timeout to [T], read what frames came, set the timeout back to the
    value [orig] it had before the call, and shut the socket down. *)
Theorem close_times_out_and_restores (st : St) (close_status T : Z) (orig : option Z) :
  is_connected st = true ->
  the_sock st = Some orig ->
  valid_timeout orig ->
  link_down (world st) = false ->
  in_range close_status ->
  0 <= T ->
  quiet (inbox (world st)) = true ->
  exists st' frames,
    close_connection close_status (Some T) st = (Ok STATUS_ABNORMAL_CLOSED, st') /\
    status_code (self st') = Some STATUS_ABNORMAL_CLOSED /\
    now (world st) + T <= now (world st') <= now (world st) + 2 * T /\
    ops (world st') =
      (ops (world st)
         ++ [OpSend (sent_close_frame close_status); OpSetTimeout (Some T)]
         ++ List.map OpRecv frames
         ++ [OpSetTimeout orig; OpShutdown; OpClose])%list.
Proof.
  intros Hconn Hsock Hvalid Hlink Hrange HT Hquiet.
  rewrite close_connection_unfold, Hconn.
  apply range_test in Hrange as Htest. rewrite Htest.
  destruct (close_exchange_quiet (on_client (set_connected false) st) close_status T orig)
    as (st1 & frames & Hex & Hsock1 & Hnow & Hops & _); auto.
  unfold close_handshake. erewrite try_Ok by (erewrite bind_Ok by reflexivity; exact Hex).
  eexists _, frames. split; [reflexivity|]. split; [reflexivity|].
  unfold ws_shutdown. rewrite Hsock1. simpl. split; [exact Hnow|].
  rewrite Hops. simpl. rewrite <- app_assoc. simpl. now rewrite <- app_assoc.
Qed.

(** A silent peer and a peer that only sends data, with a timeout of
    3000 ms on a socket whose own timeout was 5000 ms. *)
Lemma close_times_out_and_restores_witness :
  (exists st' frames,
     close_connection 1000 (Some 3000) (connected_state (Some 5000) [])
       = (Ok STATUS_ABNORMAL_CLOSED, st') /\
     status_code (self st') = Some STATUS_ABNORMAL_CLOSED /\
     1700000123456 + 3000 <= now (world st') <= 1700000123456 + 2 * 3000 /\
     ops (world st') =
       ([] ++ [OpSend (sent_close_frame 1000); OpSetTimeout (Some 3000)]
           ++ List.map OpRecv frames
           ++ [OpSetTimeout (Some 5000); OpShutdown; OpClose])%list) /\
  (exists st' frames,
     close_connection 1000 (Some 3000)
       (connected_state (Some 5000) [(10, InFrame (text_frame "data"))])
       = (Ok STATUS_ABNORMAL_CLOSED, st') /\
     status_code (self st') = Some STATUS_ABNORMAL_CLOSED /\
     1700000123456 + 3000 <= now (world st') <= 1700000123456 + 2 * 3000 /\
     ops (world st') =
       ([] ++ [OpSend (sent_close_frame 1000); OpSetTimeout (Some 3000)]
           ++ List.map OpRecv frames
           ++ [OpSetTimeout (Some 5000); OpShutdown; OpClose])%list).
Proof.
  split.
  - apply (close_times_out_and_restores (connected_state (Some 5000) []) 1000 3000
             (Some 5000));
      try reflexivity; unfold in_range, valid_timeout; lia.
  - apply (close_times_out_and_restores
             (connected_state (Some 5000) [(10, InFrame (text_frame "data"))])
             1000 3000 (Some 5000));
      try reflexivity; unfold in_range, valid_timeout; lia.
Defined.

(** What the second of these runs leaves on the socket, and its clock. *)
Example close_times_out_trace :
  let st' := snd (close_connection 1000 (Some 3000)
                    (connected_state (Some 5000) [(10, InFrame (text_frame "data"))])) in
  ops (world st') =
    [OpSend (close_frame [x03; xe8]); OpSetTimeout (Some 3000);
     OpRecv (text_frame "data");
     OpSetTimeout (Some 5000); OpShutdown; OpClose]
  /\ now (world st') = 1700000123456 + 3010.
Proof. split; reflexivity. Qed.

(** ** The close handshake against a peer that answers *)

(** The loop reads and drops the frames of [pre] and ends on the close
    frame: with the status it carries when the library accepts the frame
    and logs errors, with the status the loop started with when it does
    not. *)
Lemma close_wait_answered (pre : list (Z * incoming)) :
  forall (n : nat) (st : St) (T start r : Z) delay hi lo more post,
    let answer := (delay, InFrame (close_frame (hi :: lo :: more))) in
    let taken := accepted (close_frame (hi :: lo :: more)) && error_enabled (world st) in
    inbox (world st) = (pre ++ answer :: post)%list ->
    quiet pre = true ->
    (length (inbox (world st)) < n)%nat ->
    the_sock st = Some (Some T) ->
    start <= now (world st) ->
    now (world st) - start + total_delay (pre ++ [answer]) < T ->
    exists st',
      close_wait n (Some T) start r st
        = (Ok (if taken then status_of hi lo else r), st') /\
      self st' = self st /\
      link_down (world st') = link_down (world st) /\
      log (world st') =
        (log (world st) ++ if taken then close_log (status_of hi lo) else [])%list.
Proof.
  induction pre as [|[d item] pre IH];
    intros n st T start r delay hi lo more post answer taken Hin Hq Hn Hsock Hstart Htime;
    (destruct n as [|n]; [lia|]); rewrite close_wait_S;
    simpl in Hin, Htime.
  - destruct (Z.ltb_spec (now (world st) - start) T) as [_|]; [|lia].
    subst taken. destruct (accepted (close_frame (hi :: lo :: more))) eqn:Hacc.
    + destruct (error_enabled (world st)) eqn:Hen.
      * rewrite (turn_close r st (Some T) delay hi lo more post Hsock Hin);
          [|simpl; lia|exact Hacc|exact Hen].
        eexists. split; [reflexivity|]. repeat split.
      * rewrite (turn_close_not_logged r st (Some T) delay _ post Hsock Hin);
          [|simpl; lia|exact Hacc|exact Hen].
        eexists. split; [reflexivity|]. simpl. rewrite app_nil_r. repeat split.
    + rewrite (turn_refused r st (Some T) delay _ post Hsock Hin);
        [|simpl; lia|exact Hacc].
      eexists. split; [reflexivity|]. simpl. rewrite app_nil_r. repeat split.
  - simpl in Hq. apply andb_true_iff in Hq as [Hitem Hq].
    destruct item as [f|e]; [|discriminate].
    apply andb_true_iff in Hitem as [Hacc Hitem]. apply negb_true_iff in Hitem.
    assert (0 <= total_delay (pre ++ [answer])) as Hpos.
    { clear. induction pre as [|it pre IHp]; simpl; lia. }
    destruct (Z.ltb_spec (now (world st) - start) T) as [_|]; [|lia].
    rewrite (turn_other r st (Some T) d f _ Hsock Hin); [|simpl; lia|exact Hacc|exact Hitem].
    apply (IH n (took (Z.max 0 d) f (pre ++ answer :: post) st) T start r delay hi lo more post);
      [reflexivity | exact Hq | rewrite Hin in Hn; simpl in *; lia | exact Hsock
      | simpl; lia | simpl; fold answer; lia].
Qed.

Lemma Z_of_byte_range (b : byte) : 0 <= Z_of_byte b < 256.
Proof.
  unfold Z_of_byte. pose proof (Byte.to_N_bounded b) as H.
  lia.
Qed.

(** The two bytes, read big-endian. *)
Lemma status_of_value (hi lo : byte) :
  status_of hi lo = 256 * Z_of_byte hi + Z_of_byte lo.
Proof.
  unfold status_of. pose proof (Z_of_byte_range lo) as Hlo.
  assert (Z.land (Z.shiftl (Z_of_byte hi) 8) (Z_of_byte lo) = 0) as Hland.
  { apply Z.bits_inj'. intros n Hn. rewrite Z.land_spec, Z.bits_0.
    destruct (Z.lt_ge_cases n 8).
    - now rewrite Z.shiftl_spec_low.
    - rewrite <- (Z.mod_small (Z_of_byte lo) (2 ^ 8)) by (change (2 ^ 8) with 256; lia).
      rewrite Z.mod_pow2_bits_high by lia. apply andb_false_r. }
  rewrite <- Z.lxor_lor, <- Z.add_nocarry_lxor by exact Hland.
  rewrite Z.shiftl_mul_pow2 by lia. change (2 ^ 8) with 256. lia.
Qed.

Lemma Z_of_byte_of_Z (z : Z) : 0 <= z < 256 -> Z_of_byte (byte_of_Z z) = z.
Proof.
  intros Hz. unfold Z_of_byte, byte_of_Z.
  destruct (Byte.of_N (Z.to_N z)) as [b|] eqn:E.
  - apply Byte.to_of_N in E. rewrite E. lia.
  - apply Byte.of_N_None_iff in E. lia.
Qed.

(** Packing a status and reading it back gives the status. *)
Lemma status_of_packed (n : Z) :
  in_range n ->
  status_of (byte_of_Z (Z.shiftr n 8)) (byte_of_Z (Z.land n 255)) = n.
Proof.
  intros [H0 H1]. rewrite status_of_value.
  change 255 with (Z.ones 8). rewrite Z.land_ones, Z.shiftr_div_pow2 by lia.
  change (2 ^ 8) with 256.
  rewrite !Z_of_byte_of_Z.
  - symmetry. apply Z.div_mod. lia.
  - apply Z.mod_pos_bound. lia.
  - split; [apply Z.div_pos; lia | apply Z.div_lt_upper_bound; lia].
Qed.

(** What a received status leaves in the log: a low-severity record for
    3000..4999, nothing for the normal status, a high-severity record for
    any other. *)
Lemma close_log_spec (s : Z) :
  (3000 <= s <= 4999 -> close_log s = [(DEBUG, "close status: " ++ pretty s)]) /\
  (s = STATUS_NORMAL -> close_log s = []) /\
  (~ 3000 <= s <= 4999 -> s <> STATUS_NORMAL ->
   close_log s = [(ERROR, "close status: " ++ pretty s)]).
Proof.
  unfold close_log, STATUS_NORMAL.
  destruct (Z.geb_spec s 3000), (Z.leb_spec s 4999), (Z.eqb_spec s 1000);
    simpl; repeat split; intros; try reflexivity; lia.
Qed.

(** The status of a close frame that the library accepts is one of the
    statuses it holds valid. *)
Lemma accepted_close_status (hi lo : byte) (more : list byte) :
  accepted (close_frame (hi :: lo :: more)) = true ->
  _is_valid_close_status (status_of hi lo) = true.
Proof.
  rewrite status_of_value. unfold accepted, validate.
  cbn [opcode close_frame data member OPCODES existsb].
  change (OPCODE_CLOSE =? OPCODE_CLOSE) with true.
  change (negb _) with false at 1. cbv iota.
  destruct (126 <=? _)%nat; [discriminate|].
  destruct (negb (validate_utf8 more)); [discriminate|].
  now destruct (_is_valid_close_status _).
Qed.

Lemma after_loop_returns (sock_timeout : option Z) (st : St) :
  exists st',
    try_except (sock_settimeout sock_timeout ;; sock_shutdown) (fun _ => ret tt) st
      = (Ok tt, st') /\ log (world st') = log (world st).
Proof.
  unfold try_except, bind, sock_settimeout, sock_shutdown, ret, the_sock.
  destruct (sock (client (self st))) as [tmo|]; [|eauto].
  destruct (match sock_timeout with Some v => v <? 0 | None => false end); [eauto|].
  simpl. destruct (link_down (world st)); eauto.
Qed.

Lemma ws_shutdown_log (st : St) : log (world (snd (ws_shutdown st))) = log (world st).
Proof. unfold ws_shutdown. now destruct (the_sock st). Qed.

(** C9, as the code has it.  On a connected handle whose socket takes
    writes, the peer's close frame, carrying a status in its first two
    bytes, arrives before the timeout [T] (after frames of other kinds,
    which are dropped); the call does not fail.  The status is taken,
    that is returned, decoded big-endian, and stored in [status_code],
    when the library accepts the frame, so that the status is one that it
    holds valid, and when the library logs errors; a peer that echoes the
    close frame then gets the caller's own close status returned.  A
    status that is taken is classified in the log only: one low-severity
    record for 3000..4999, none for 1000, one high-severity record for
    any other.  A status that is not taken, because the library refuses
    the frame or because it does not log errors, leaves the call with
    the abnormal-closure status and the log as it was. *)
Theorem close_returns_peer_status (st : St) (close_status T : Z) (orig : option Z)
    pre delay hi lo more post :
  let answer := (delay, InFrame (close_frame (hi :: lo :: more))) in
  let s := status_of hi lo in
  let msg := "close status: " ++ pretty s in
  let taken := accepted (close_frame (hi :: lo :: more)) && error_enabled (world st) in
  is_connected st = true ->
  the_sock st = Some orig ->
  link_down (world st) = false ->
  in_range close_status ->
  inbox (world st) = (pre ++ answer :: post)%list ->
  quiet pre = true ->
  total_delay (pre ++ [answer]) < T ->
  exists st',
    close_connection close_status (Some T) st
      = (Ok (if taken then s else STATUS_ABNORMAL_CLOSED), st') /\
    status_code (self st') = Some (if taken then s else STATUS_ABNORMAL_CLOSED) /\
    s = 256 * Z_of_byte hi + Z_of_byte lo /\
    (taken = true -> _is_valid_close_status s = true) /\
    (hi :: lo :: more = data (sent_close_frame close_status) -> s = close_status) /\
    log (world st') =
      (log (world st) ++
       if negb taken then []
       else if (3000 <=? s) && (s <=? 4999) then [(DEBUG, msg)]
       else if s =? STATUS_NORMAL then []
       else [(ERROR, msg)])%list.
Proof.
  intros answer s msg taken Hconn Hsock Hlink Hrange Hin Hq Htime.
  assert (0 <= T) as HT.
  { assert (0 <= total_delay (pre ++ [answer])); [|lia].
    clear. induction pre as [|it pre IHp]; simpl; lia. }
  rewrite close_connection_unfold, Hconn.
  apply range_test in Hrange as Htest. rewrite Htest.
  set (st0 := on_client (set_connected false) st).
  assert (exists st1,
            close_exchange close_status (Some T) st0
              = (Ok (if taken then s else STATUS_ABNORMAL_CLOSED), st1) /\
            log (world st1) =
              (log (world st) ++ if taken then close_log s else [])%list)
    as (st1 & Hex & Hlog).
  { assert (the_sock st0 = Some orig) as Hsock0 by exact Hsock.
    unfold close_exchange.
    erewrite bind_Ok by (unfold lift; rewrite (struct_pack_H_ok _ Hrange); reflexivity).
    erewrite bind_Ok by (apply ws_send_writable; split; [congruence | exact Hlink]).
    erewrite bind_Ok by (apply sock_gettimeout_ok; exact Hsock0).
    erewrite bind_Ok by (eapply sock_settimeout_ok; [exact Hsock0 | exact HT]).
    set (st2 := timeout_set (Some T) _).
    unfold time_time. erewrite bind_Ok by reflexivity. erewrite bind_Ok by reflexivity.
    destruct (close_wait_answered pre (length (inbox (world st2)) + 1) st2 T
                (now (world st2)) STATUS_ABNORMAL_CLOSED delay hi lo more post)
      as (st3 & Hloop & Hself & Hlink3 & Hlog3);
      [exact Hin | exact Hq | lia | reflexivity | lia | fold answer; lia |].
    erewrite bind_Ok by exact Hloop.
    destruct (after_loop_returns orig st3) as (st4 & Hafter & Hlog4).
    erewrite bind_Ok by exact Hafter.
    exists st4. split; [reflexivity|]. now rewrite Hlog4, Hlog3. }
  unfold close_handshake. erewrite try_Ok by (erewrite bind_Ok by reflexivity; exact Hex).
  eexists. split; [reflexivity|]. split; [reflexivity|].
  split; [apply status_of_value|].
  split.
  { intros Ht. apply (accepted_close_status hi lo more).
    subst taken. now apply andb_true_iff in Ht as [Ht _]. }
  split; [intros [= -> -> _]; now apply status_of_packed|].
  simpl. rewrite ws_shutdown_log, Hlog. f_equal.
  destruct taken; [|reflexivity]. unfold close_log. simpl negb. cbv iota.
  rewrite Z.geb_leb. fold msg. destruct ((3000 <=? s) && (s <=? 4999)); [reflexivity|].
  now destruct (s =? STATUS_NORMAL).
Qed.

(** A peer that answers 1000 after some late data, one that answers
    4000, and one that answers 5000, which the library refuses. *)
Lemma close_returns_peer_status_witness :
  let st := connected_state (Some 5000)
              [(5, InFrame (text_frame "late data"));
               (10, InFrame (close_frame [x03; xe8]))] in
  let st4000 := connected_state None [(0, InFrame (close_frame [x0f; xa0]))] in
  let st5000 := connected_state None [(0, InFrame (close_frame [x13; x88]))] in
  (exists st',
     close_connection 1000 (Some 3000) st = (Ok 1000, st') /\
     status_code (self st') = Some 1000 /\
     log (world st') = []) /\
  (exists st',
     close_connection 1000 (Some 3000) st4000 = (Ok 4000, st') /\
     log (world st') = [(DEBUG, "close status: 4000")]) /\
  (exists st',
     close_connection 1000 (Some 3000) st5000 = (Ok STATUS_ABNORMAL_CLOSED, st') /\
     log (world st') = []).
Proof.
  intros st st4000 st5000. split; [|split].
  - destruct (close_returns_peer_status st 1000 3000 (Some 5000)
                [(5, InFrame (text_frame "late data"))] 10 x03 xe8 [] [])
      as (st' & H1 & H2 & _ & _ & _ & H4);
      try reflexivity; [unfold in_range; lia|].
    exists st'. split; [exact H1|]. split; [exact H2 | exact H4].
  - destruct (close_returns_peer_status st4000 1000 3000 None [] 0 x0f xa0 [] [])
      as (st' & H1 & _ & _ & _ & _ & H4);
      try reflexivity; [unfold in_range; lia|].
    exists st'. split; [exact H1 | exact H4].
  - destruct (close_returns_peer_status st5000 1000 3000 None [] 0 x13 x88 [] [])
      as (st' & H1 & _ & _ & _ & _ & H4);
      try reflexivity; [unfold in_range; lia|].
    exists st'. split; [exact H1 | exact H4].
Defined.

(** C9 as the specification words it fails when the library does not
    log errors: the peer's close frame with status 1000 arrives after 5
    ms of a 3000 ms timeout, and the call returns 1006. *)
Lemma close_status_lost_when_errors_not_logged :
  let st := {| self := open_client (Some 5000);
               world := unlogged_world [(5, InFrame (close_frame [x03; xe8]))] |} in
  status_of x03 xe8 = 1000 /\
  accepted (close_frame [x03; xe8]) = true /\
  fst (close_connection 1000 (Some 3000) st) = Ok STATUS_ABNORMAL_CLOSED /\
  fst (close_connection 1000 (Some 3000) st) <> Ok (status_of x03 xe8).
Proof.
  intros st. split; [reflexivity | split; [reflexivity | split; [reflexivity | discriminate]]].
Qed.

(* ===================================================================== *)
(** * The step *)
(* ===================================================================== *)

Lemma validate_and_finish_spec (step_result : result.t) (v : Validation)
    (start_time : Z) (rs : RSt) :
  let session_data :=
    {| session.success := final_success step_result v;
       session.validators := validation_results v |} in
  exists res,
    validate_and_finish step_result v start_time rs
      = (Ok res, on_runner (set_session_data session_data) rs) /\
    result.success res = final_success step_result v /\
    result.failure_info res =
      match raised v with
      | Some ValidationFailure => Some (failures_string v)
      | _ => result.failure_info step_result
      end /\
    result.data res = Some session_data /\
    result.elapsed res = Some (now (rworld rs) - start_time).
Proof.
  unfold validate_and_finish, final_success.
  destruct (raised v) as [[]|]; eexists; repeat split.
Qed.

Lemma collect_step_keeps_success `{Collaborators} step step_result step_variables rs
    resp_obj step_result' variables_mapping rs' :
  collect_step step step_result step_variables rs
    = (Ok (resp_obj, step_result', variables_mapping), rs') ->
  result.success step_result' = result.success step_result /\
  now (rworld rs') = now (rworld rs).
Proof.
  unfold collect_step, bind, on_websocket_client, gets, lift, ret.
  destruct (websocket_client (runner rs)) as [c|]; [|discriminate].
  destruct (step.teardown_hooks step) as [|h hooks].
  - destruct (resp_extract _ _ _); [|discriminate..]. now intros [= _ <- _ <-].
  - destruct (call_hooks _ _ _ _); [|discriminate..].
    destruct (resp_extract _ _ _); [|discriminate..]. now intros [= _ <- _ <-].
Qed.

(** C3, as the code has it.  The call of the client is not guarded: when
    [send_request] raises, whatever the exception, [run_step_websocket_request]
    raises it too and returns no step result.  What the step does recover
    is an exception out of the validation, which ends in a step result
    with [success] false. *)
Theorem client_error_propagates `{Collaborators} (step : step.t) (rs rs1 : RSt)
    (prepared : StepVariables * request.t) :
  prepare_step step rs = (Ok prepared, rs1) ->
  (forall c st' e,
     websocket_client (runner rs1) = Some c ->
     send_request (request.type (snd prepared))
       (build_url (base_url (runner rs1)) (request.url (snd prepared)))
       (request_options (snd prepared)) {| self := c; world := rworld rs1 |}
       = (Raise e, st') ->
     run_step_websocket_request step rs = (Raise e, after_call rs1 st')) /\
  (forall rs2 rs3 resp_obj step_result variables_mapping e,
     call_client (snd prepared) rs1 = (Ok tt, rs2) ->
     collect_step step (new_step_result step) (fst prepared) rs2
       = (Ok (resp_obj, step_result, variables_mapping), rs3) ->
     raised (resp_validate resp_obj (step.validators step) variables_mapping) = Some e ->
     exists res rs',
       run_step_websocket_request step rs = (Ok res, rs') /\
       result.success res = false).
Proof.
  intros Hprep. split.
  - intros c st' e Hc Hsend. unfold run_step_websocket_request.
    erewrite bind_Ok by reflexivity. erewrite bind_Ok by exact Hprep.
    erewrite bind_Raise; [reflexivity|].
    unfold call_client. erewrite bind_Ok by reflexivity.
    unfold on_websocket_client. rewrite Hc, Hsend. reflexivity.
  - intros rs2 rs3 resp_obj step_result variables_mapping e Hcall Hcollect Hraised.
    unfold run_step_websocket_request.
    erewrite bind_Ok by reflexivity. erewrite bind_Ok by exact Hprep.
    erewrite bind_Ok by exact Hcall. erewrite bind_Ok by exact Hcollect.
    destruct (validate_and_finish_spec step_result
                (resp_validate resp_obj (step.validators step) variables_mapping)
                (now (rworld rs)) rs3) as (res & Heq & Hsucc & _).
    exists res. eexists. split; [exact Heq|].
    rewrite Hsucc. unfold final_success. rewrite Hraised.
    destruct (collect_step_keeps_success _ _ _ _ _ _ _ _ Hcollect) as [-> _].
    now destruct e.
Qed.

(** A read on a client that has no socket, and a write followed by a
    failing validation. *)
Lemma client_error_propagates_witness :
  fst (@run_step_websocket_request sample_collaborators
         (sample_step (Some R) PNone []) (sample_rs None (sample_world [])))
    = Raise WebSocketConnectionClosedException
  /\ exists res rs',
       @run_step_websocket_request sample_collaborators
         (sample_step (Some W) (PStr "ping") [PBool false; PBool true])
         (sample_rs (Some (open_client None)) (sample_world []))
         = (Ok res, rs') /\
       result.success res = false.
Proof.
  split.
  - destruct (@client_error_propagates sample_collaborators
                (sample_step (Some R) PNone []) (sample_rs None (sample_world []))
                _ _ eq_refl) as [H _].
    now rewrite (H new_WebsocketClient _ WebSocketConnectionClosedException eq_refl eq_refl).
  - destruct (@client_error_propagates sample_collaborators
                (sample_step (Some W) (PStr "ping") [PBool false; PBool true])
                (sample_rs (Some (open_client None)) (sample_world []))
                _ _ eq_refl) as [_ H].
    exact (H _ _ _ _ _ ValidationFailure eq_refl eq_refl eq_refl).
Defined.

(** C3 as the specification words it fails: the peer refuses the
    handshake of an [open] step, the client raises, and the step raises
    with it instead of returning a step result. *)
Lemma step_raises_when_connection_refused :
  fst (@run_step_websocket_request sample_collaborators
         (sample_step (Some OPEN) PNone []) (sample_rs None refusing_world))
    = Raise ConnectionRefusedError
  /\ ~ returned (@run_step_websocket_request sample_collaborators
                   (sample_step (Some OPEN) PNone []) (sample_rs None refusing_world)).
Proof. split; [reflexivity | intros H; exact H]. Qed.

(** C4.  When the step gets as far as the validation and the validation
    raises [ValidationFailure], the step does not raise: it returns a step
    result with [success] false and [failure_info] set to the failure
    report of the response object.  Whatever the validation does, pass or
    fail, the step that has got this far returns a result that has its
    elapsed time, measured from the start of the step, and the session
    data, whose [success] is that of the result and whose [validators]
    are the per-assertion results of the response object; the runner's
    session holds the same data.  And every result that the step returns
    is one of these: it comes out of a validation, and holds the
    per-assertion results of that validation. *)
Theorem validation_failure_is_recorded `{Collaborators} (step : step.t) (rs : RSt) :
  (forall prepared rs1 rs2 rs3 resp_obj step_result variables_mapping,
     prepare_step step rs = (Ok prepared, rs1) ->
     call_client (snd prepared) rs1 = (Ok tt, rs2) ->
     collect_step step (new_step_result step) (fst prepared) rs2
       = (Ok (resp_obj, step_result, variables_mapping), rs3) ->
     let v := resp_validate resp_obj (step.validators step) variables_mapping in
     raised v = Some ValidationFailure ->
     exists res rs',
       run_step_websocket_request step rs = (Ok res, rs') /\
       result.success res = false /\
       result.failure_info res = Some (failures_string v) /\
       result.data res = Some {| session.success := false;
                                 session.validators := validation_results v |} /\
       result.elapsed res = Some (now (rworld rs') - now (rworld rs))) /\
  (forall prepared rs1 rs2 rs3 resp_obj step_result variables_mapping,
     prepare_step step rs = (Ok prepared, rs1) ->
     call_client (snd prepared) rs1 = (Ok tt, rs2) ->
     collect_step step (new_step_result step) (fst prepared) rs2
       = (Ok (resp_obj, step_result, variables_mapping), rs3) ->
     let v := resp_validate resp_obj (step.validators step) variables_mapping in
     exists res rs',
       run_step_websocket_request step rs = (Ok res, rs') /\
       (raised v = None -> result.success res = true) /\
       result.data res = Some {| session.success := result.success res;
                                 session.validators := validation_results v |} /\
       session_data (runner rs') = {| session.success := result.success res;
                                      session.validators := validation_results v |} /\
       result.elapsed res = Some (now (rworld rs') - now (rworld rs))) /\
  (forall res rs',
     run_step_websocket_request step rs = (Ok res, rs') ->
     exists prepared rs1 rs2 rs3 resp_obj step_result variables_mapping,
       prepare_step step rs = (Ok prepared, rs1) /\
       call_client (snd prepared) rs1 = (Ok tt, rs2) /\
       collect_step step (new_step_result step) (fst prepared) rs2
         = (Ok (resp_obj, step_result, variables_mapping), rs3) /\
       let v := resp_validate resp_obj (step.validators step) variables_mapping in
       result.data res = Some {| session.success := result.success res;
                                 session.validators := validation_results v |} /\
       session_data (runner rs') = {| session.success := result.success res;
                                      session.validators := validation_results v |} /\
       result.elapsed res = Some (now (rworld rs') - now (rworld rs))).
Proof.
  split; [|split].
  - intros prepared rs1 rs2 rs3 resp_obj step_result variables_mapping
      Hprep Hcall Hcollect v Hraised.
    unfold run_step_websocket_request.
    erewrite bind_Ok by reflexivity. erewrite bind_Ok by exact Hprep.
    erewrite bind_Ok by exact Hcall. erewrite bind_Ok by exact Hcollect.
    destruct (validate_and_finish_spec step_result v (now (rworld rs)) rs3)
      as (res & Heq & Hsucc & Hinfo & Hdata & Helapsed).
    unfold final_success in *. rewrite Hraised in *.
    exists res. eexists. split; [exact Heq|]. auto.
  - intros prepared rs1 rs2 rs3 resp_obj step_result variables_mapping
      Hprep Hcall Hcollect v.
    unfold run_step_websocket_request.
    erewrite bind_Ok by reflexivity. erewrite bind_Ok by exact Hprep.
    erewrite bind_Ok by exact Hcall. erewrite bind_Ok by exact Hcollect.
    destruct (validate_and_finish_spec step_result v (now (rworld rs)) rs3)
      as (res & Heq & Hsucc & Hinfo & Hdata & Helapsed).
    exists res. eexists. split; [exact Heq|].
    rewrite Hsucc, Hdata, Helapsed. unfold final_success.
    split; [now intros ->|]. now repeat split.
  - intros res rs'. unfold run_step_websocket_request.
    erewrite bind_Ok by reflexivity. unfold bind at 1.
    destruct (prepare_step step rs) as [[prepared| |] rs1] eqn:Hprep; [|discriminate..].
    unfold bind at 1.
    destruct (call_client (snd prepared) rs1) as [[[]| |] rs2] eqn:Hcall;
      [|discriminate..].
    unfold bind at 1.
    destruct (collect_step step (new_step_result step) (fst prepared) rs2)
      as [[[[resp_obj step_result] variables_mapping]| |] rs3] eqn:Hcollect;
      [|discriminate..].
    destruct (validate_and_finish_spec step_result
                (resp_validate resp_obj (step.validators step) variables_mapping)
                (now (rworld rs)) rs3) as (res0 & Heq & Hsucc & _ & Hdata & Helapsed).
    rewrite Heq. intros [= <- <-].
    exists prepared, rs1, rs2, rs3, resp_obj, step_result, variables_mapping.
    split; [reflexivity|]. split; [exact Hcall|]. split; [exact Hcollect|].
    rewrite Hsucc, Hdata, Helapsed. now repeat split.
Qed.

(** One failing and one passing assertion, and a step whose only
    assertion passes. *)
Lemma validation_failure_is_recorded_witness :
  let step := sample_step (Some W) (PStr "ping") [PBool false; PBool true] in
  let rs := sample_rs (Some (open_client None)) (sample_world []) in
  let passing := sample_step (Some W) (PStr "ping") [PBool true] in
  (exists res rs',
     @run_step_websocket_request sample_collaborators step rs = (Ok res, rs') /\
     result.success res = false /\
     result.failure_info res = Some "assert failed" /\
     result.data res = Some {| session.success := false;
                               session.validators := PList [PBool false; PBool true] |} /\
     result.elapsed res = Some (now (rworld rs') - now (rworld rs))) /\
  (exists res rs',
     @run_step_websocket_request sample_collaborators passing rs = (Ok res, rs') /\
     result.success res = true /\
     result.data res = Some {| session.success := true;
                               session.validators := PList [PBool true] |} /\
     session_data (runner rs') = {| session.success := true;
                                    session.validators := PList [PBool true] |} /\
     result.elapsed res = Some (now (rworld rs') - now (rworld rs))).
Proof.
  intros step rs passing. split.
  - destruct (@validation_failure_is_recorded sample_collaborators step rs) as [H _].
    exact (H _ _ _ _ _ _ _ eq_refl eq_refl eq_refl eq_refl).
  - destruct (@validation_failure_is_recorded sample_collaborators passing rs)
      as (_ & H & _).
    destruct (H _ _ _ _ _ _ _ eq_refl eq_refl eq_refl)
      as (res & rs' & Hrun & Hs & Hd & Hr & He).
    specialize (Hs eq_refl). rewrite Hs in Hd, Hr.
    exists res, rs'. split; [exact Hrun|]. split; [exact Hs|].
    split; [exact Hd|]. split; [exact Hr | exact He].
Defined.

(** ** The headers on their way to the wire *)

(** What [prepare_step] hands on: the request is the resolved one with
    its headers prepared, as the setup hooks have left it, and the world
    is as it was. *)
Lemma prepare_step_request `{Collaborators} (step : step.t) (rs rs1 : RSt)
    (prepared : StepVariables * request.t) :
  prepare_step step rs = (Ok prepared, rs1) ->
  exists vars parsed,
    parse_variables_mapping (runner rs) (step.variables step) = Ok vars /\
    parse_data (step.websocket_request step) vars = Ok parsed /\
    match step.setup_hooks step with
    | [] => fst prepared = prepared_variables (runner rs) (now (rworld rs)) vars parsed
    | hooks =>
        call_hooks (runner rs1) hooks
          (prepared_variables (runner rs) (now (rworld rs)) vars parsed)
          "setup websocket request" = Ok (fst prepared)
    end /\
    snd prepared = websocket (fst prepared) /\
    rworld rs1 = rworld rs /\
    rs1 = match websocket_client (runner rs) with
          | Some _ => rs
          | None => on_runner (set_websocket_client (Some new_WebsocketClient)) rs
          end.
Proof.
  unfold prepare_step, bind, gets, lift, ret, ensure_websocket_ready, raise, modify.
  destruct (parse_variables_mapping _ _) as [vars| |]; [|discriminate..].
  destruct (parse_data _ _) as [parsed| |] eqn:Hp; [|discriminate..].
  fold (prepared_variables (runner rs) (now (rworld rs)) vars parsed).
  set (sv0 := prepared_variables _ _ _ _).
  intros Hrun. exists vars, parsed. split; [reflexivity|]. split; [exact Hp|].
  unfold bind, ret in Hrun.
  destruct (websocket_client (runner rs)) as [c|] eqn:Hc.
  - destruct (step.setup_hooks step) as [|hook hooks].
    + injection Hrun as <- <-. now repeat split.
    + destruct (call_hooks _ _ sv0 _) as [sv| |] eqn:Hh; [|discriminate..].
      injection Hrun as <- <-. now repeat split.
  - destruct WEBSOCKET_READY; [|discriminate].
    destruct (step.setup_hooks step) as [|hook hooks].
    + injection Hrun as <- <-. now repeat split.
    + cbn [runner on_runner] in Hrun.
      destruct (call_hooks _ _ sv0 _) as [sv| |] eqn:Hh; [|discriminate..].
      injection Hrun as <- <-. now repeat split.
Qed.

(** An [open] request against a peer that accepts: the last thing on the
    socket is the handshake, with the header of the keyword arguments. *)
Lemma send_request_open (url : string) (options : kw.t) (st : St) :
  valid_timeout (kw.timeout options) ->
  accepts (world st) = true ->
  exists st',
    send_request (Some OPEN) url options st = (Ok tt, st') /\
    last (ops (world st')) = Some (OpConnect url (kw.header options)).
Proof.
  intros Hvalid Hacc. unfold send_request.
  assert (exists st0,
            match kw.timeout options with
            | Some t => _set_timeout t
            | None => ret tt
            end st = (Ok tt, st0) /\ accepts (world st0) = true) as (st0 & Hset & Hacc0).
  { destruct (kw.timeout options) as [t|]; [|now exists st].
    unfold _set_timeout, ws_settimeout. erewrite bind_Ok by reflexivity.
    match goal with |- context [the_sock ?s] => destruct (the_sock s) eqn:Hs end.
    - erewrite sock_settimeout_ok by eauto. eexists. split; [reflexivity | exact Hacc].
    - eexists. split; [reflexivity | exact Hacc]. }
  erewrite bind_Ok by exact Hset.
  unfold open_connection, ws_connect, bind. rewrite Hacc0.
  eexists. split; [reflexivity|]. simpl. apply last_snoc.
Qed.

(** C7.  The headers that the step keeps are those of the resolved
    mapping whose name does not start with a colon, each with its value;
    the mapping with the entries [:authority] and [User-Agent] becomes
    the mapping with [User-Agent] alone.  In the headers that the step
    prepares the same holds for every name but that of the request id
    header, which the step sets next.  When the step opens a connection,
    the header that goes out with the handshake is the header of the
    request as the step hands it to the client: for a step without setup
    hooks it is the prepared mapping itself, so that every entry of the
    resolved mapping whose name has no colon in front is in it with its
    value, no name with a colon in front is in it, and the request id is;
    for a step with setup hooks it is what the hooks, which were handed
    the prepared mapping, have left. *)
Theorem pseudo_headers_are_omitted :
  (forall (h : gmap string string) (k : string),
     omit_pseudo_headers h !! k = if String.prefix ":" k then None else h !! k) /\
  omit_pseudo_headers (<[":authority" := "x"]> (<["User-Agent" := "y"]> ∅))
    = <["User-Agent" := "y"]> ∅ /\
  (forall (case_id : string) (t : Z) (h : gmap string string) (k : string),
     prepare_headers case_id t h !! k =
       if String.eqb k "HRUN-Websocket-Request-ID" then Some (request_id case_id t)
       else if String.prefix ":" k then None else h !! k) /\
  (forall (C : Collaborators) (step : step.t) (rs rs1 : RSt) prepared,
     prepare_step step rs = (Ok prepared, rs1) ->
     request.type (snd prepared) = Some OPEN ->
     valid_timeout (request.timeout (snd prepared)) ->
     accepts (rworld rs1) = true ->
     exists rs2 vars parsed,
       parse_variables_mapping (runner rs) (step.variables step) = Ok vars /\
       parse_data (step.websocket_request step) vars = Ok parsed /\
       call_client (snd prepared) rs1 = (Ok tt, rs2) /\
       last (ops (rworld rs2)) =
         Some (OpConnect (build_url (base_url (runner rs1)) (request.url (snd prepared)))
                 (request.headers (snd prepared))) /\
       let prepared_headers :=
         prepare_headers (case_id (runner rs)) (now (rworld rs)) (request.headers parsed) in
       match step.setup_hooks step with
       | [] =>
           request.headers (snd prepared) = prepared_headers /\
           forall k,
             request.headers (snd prepared) !! k =
               if String.eqb k "HRUN-Websocket-Request-ID"
               then Some (request_id (case_id (runner rs)) (now (rworld rs)))
               else if String.prefix ":" k then None
               else request.headers parsed !! k
       | hooks =>
           exists step_variables,
             call_hooks (runner rs1) hooks
               {| bindings := vars;
                  websocket := request.set_headers prepared_headers parsed;
                  response := None |}
               "setup websocket request" = Ok step_variables /\
             snd prepared = websocket step_variables
       end).
Proof.
  split; [exact omit_pseudo_headers_lookup | split; [|split]].
  - apply map_eq. intros k. rewrite omit_pseudo_headers_lookup.
    destruct (String.prefix ":" k) eqn:E.
    + symmetry. apply lookup_insert_None. split; [apply lookup_empty|].
      intros <-. discriminate.
    + rewrite lookup_insert_ne; [reflexivity|]. intros <-. discriminate.
  - exact prepare_headers_lookup.
  - intros C step rs rs1 prepared Hprep Htype Hvalid Hacc.
    destruct (prepare_step_request step rs rs1 prepared Hprep)
      as (vars & parsed & Hvars & Hparsed & Hhooks & Hreq & _ & Hrs1).
    assert (websocket_client (runner rs1) <> None) as Hclient.
    { rewrite Hrs1. destruct (websocket_client (runner rs)) eqn:Hc; simpl; congruence. }
    destruct (websocket_client (runner rs1)) as [c|] eqn:Hc; [|congruence].
    destruct (send_request_open
                (build_url (base_url (runner rs1)) (request.url (snd prepared)))
                (request_options (snd prepared)) {| self := c; world := rworld rs1 |}
                Hvalid Hacc) as (st' & Hsend & Hlast).
    exists (after_call rs1 st'), vars, parsed.
    split; [exact Hvars|]. split; [exact Hparsed|]. split; [|split; [exact Hlast|]].
    + unfold call_client. erewrite bind_Ok by reflexivity.
      unfold on_websocket_client. now rewrite Hc, Htype, Hsend.
    + cbv zeta. destruct (step.setup_hooks step) as [|hook hooks].
      * rewrite Hreq, Hhooks. split; [reflexivity|].
        intros k. apply prepare_headers_lookup.
      * exists (fst prepared). split; [exact Hhooks | exact Hreq].
Qed.

(** An open step whose request has the headers [:authority] and
    [User-Agent]; and the same step with a setup hook that adds a
    header. *)
Lemma pseudo_headers_are_omitted_witness :
  let step := sample_step (Some OPEN) PNone [] in
  let hooked := RunWebsocketRequest.setup_hook "${add_token($websocket)}" None step in
  let rs := sample_rs None (sample_world []) in
  let h := prepare_headers "abc123" 1700000123456
             (request.headers (sample_request (Some OPEN) PNone)) in
  (exists rs2,
     match @prepare_step sample_collaborators step rs with
     | (Ok prepared, rs1) =>
         @call_client sample_collaborators (snd prepared) rs1 = (Ok tt, rs2)
     | _ => False
     end /\
     last (ops (rworld rs2)) = Some (OpConnect "ws://echo/ws" h)) /\
  h !! "User-Agent" = Some "y" /\
  h !! ":authority" = None /\
  h !! "HRUN-Websocket-Request-ID" = Some "HRUN-abc123-123456" /\
  (exists rs2,
     match @prepare_step hooking_collaborators hooked rs with
     | (Ok prepared, rs1) =>
         @call_client hooking_collaborators (snd prepared) rs1 = (Ok tt, rs2)
     | _ => False
     end /\
     last (ops (rworld rs2)) = Some (OpConnect "ws://echo/ws" (<["X-Token" := "t"]> h))).
Proof.
  intros step hooked rs h.
  destruct pseudo_headers_are_omitted as (_ & _ & Hk & H).
  split; [|split; [|split; [|split]]].
  - destruct (H sample_collaborators step rs _ _ eq_refl eq_refl I eq_refl)
      as (rs2 & vars & parsed & _ & _ & Hcall & Hlast & _).
    exists rs2. split; [exact Hcall | exact Hlast].
  - unfold h. now rewrite Hk.
  - unfold h. now rewrite Hk.
  - unfold h. now rewrite Hk.
  - destruct (H hooking_collaborators hooked rs _ _ eq_refl eq_refl I eq_refl)
      as (rs2 & vars & parsed & _ & _ & Hcall & Hlast & _).
    exists rs2. split; [exact Hcall | exact Hlast].
Defined.

(* ===================================================================== *)
(** * [send_request]: the timeout, then the method *)
(* ===================================================================== *)

Lemma _set_timeout_ok (t : Z) (st : St) :
  0 <= t ->
  _set_timeout t st = (Ok tt, timeout_applied (Some t) st).
Proof.
  intros Ht. unfold _set_timeout, ws_settimeout, timeout_applied.
  erewrite bind_Ok by reflexivity.
  fold (default_timeout_set (Some t) st).
  assert (the_sock (default_timeout_set (Some t) st) = the_sock st) as Hd by reflexivity.
  rewrite Hd. destruct (the_sock st) as [old|] eqn:Hs; [|reflexivity].
  apply (sock_settimeout_ok _ old); [exact Hd | exact Ht].
Qed.

Lemma _set_timeout_negative (t : Z) (st : St) old :
  t < 0 -> the_sock st = Some old ->
  _set_timeout t st =
    (Raise (ValueError "Timeout value out of range"), default_timeout_set (Some t) st).
Proof.
  intros Ht Hs. unfold _set_timeout, ws_settimeout.
  erewrite bind_Ok by reflexivity.
  fold (default_timeout_set (Some t) st).
  assert (the_sock (default_timeout_set (Some t) st) = Some old) as Hd by exact Hs.
  rewrite Hd. unfold sock_settimeout. rewrite Hd.
  destruct (Z.ltb_spec t 0); [reflexivity | lia].
Qed.

Lemma send_request_timeout (options : kw.t) (st : St) :
  valid_timeout (kw.timeout options) ->
  match kw.timeout options with
  | Some t => _set_timeout t
  | None => ret tt
  end st = (Ok tt, timeout_applied (kw.timeout options) st).
Proof.
  destruct (kw.timeout options) as [t|]; [|reflexivity].
  intros Ht. now apply _set_timeout_ok.
Qed.

(** Setting the timeout reads nothing, sends nothing and lets no time
    pass; on the socket it is one [settimeout] when there is a socket. *)
Lemma timeout_applied_world (timeout : option Z) (st : St) :
  let st' := timeout_applied timeout st in
  now (world st') = now (world st) /\ inbox (world st') = inbox (world st) /\
  accepts (world st') = accepts (world st) /\ link_down (world st') = link_down (world st) /\
  error_enabled (world st') = error_enabled (world st) /\ log (world st') = log (world st) /\
  ops (world st') =
    (ops (world st) ++
     match timeout, the_sock st with
     | Some t, Some _ => [OpSetTimeout (Some t)]
     | _, _ => []
     end)%list.
Proof.
  unfold timeout_applied.
  destruct timeout as [t|]; [destruct (the_sock st)|]; simpl; rewrite ?app_nil_r; auto 10.
Qed.

Lemma timeout_applied_self (timeout : option Z) (st : St) :
  let st' := timeout_applied timeout st in
  is_connected st' = is_connected st /\
  status_code (self st') = status_code (self st) /\
  the_sock st' =
    match timeout, the_sock st with
    | Some t, Some _ => Some (Some t)
    | _, s => s
    end.
Proof.
  unfold timeout_applied.
  destruct timeout as [t|]; [destruct (the_sock st) eqn:E|]; simpl; auto 10.
Qed.

Lemma timeout_applied_writable (timeout : option Z) (st : St) :
  writable st -> writable (timeout_applied timeout st).
Proof.
  intros [Hs Hl]. destruct (timeout_applied_self timeout st) as (_ & _ & Hsock).
  destruct (timeout_applied_world timeout st) as (_ & _ & _ & Hlink & _).
  split; [|congruence]. rewrite Hsock.
  destruct timeout; destruct (the_sock st); congruence.
Qed.

(** X1.  An open request with a valid timeout.  When the peer accepts,
    [send_request] returns with the handle connected and [status_code]
    equal to the status of the handshake, and the last thing on the socket
    is the handshake for the URL with the header of the keyword arguments.
    The [timeout] keyword, which [_set_timeout] has divided by 1000, goes
    to [connect] undivided: a timeout of [t] milliseconds leaves the new
    socket with a timeout of [t] seconds, 1000 [t] here.  When the peer
    refuses, [send_request] raises [ConnectionRefusedError] and nothing
    but the timeout has touched the client and the world: [status_code]
    is as before, and so are the connected flag and the socket, so that a
    client that had no socket has none and a client that had one keeps
    it. *)
Theorem open_connection_outcomes (url : string) (options : kw.t) (st : St) :
  valid_timeout (kw.timeout options) ->
  let st0 := timeout_applied (kw.timeout options) st in
  (accepts (world st) = true ->
   exists st',
     send_request (Some OPEN) url options st = (Ok tt, st') /\
     is_connected st' = true /\
     status_code (self st') = status (client (self st')) /\
     the_sock st' = Some (option_map (Z.mul 1000) (kw.timeout options)) /\
     ops (world st') = (ops (world st0) ++ [OpConnect url (kw.header options)])%list) /\
  (accepts (world st) = false ->
   exists st',
     send_request (Some OPEN) url options st = (Raise ConnectionRefusedError, st') /\
     status_code (self st') = status_code (self st) /\
     is_connected st' = is_connected st /\
     the_sock st' = the_sock st0 /\
     (the_sock st' = None <-> the_sock st = None) /\
     world st' = world st0).
Proof.
  intros Hv st0.
  destruct (timeout_applied_world (kw.timeout options) st) as (_ & _ & Hacc & _).
  destruct (timeout_applied_self (kw.timeout options) st) as (Hconn & Hcode & Hsock).
  fold st0 in Hacc, Hconn, Hcode, Hsock.
  unfold send_request. erewrite bind_Ok by (now apply send_request_timeout).
  fold st0. unfold open_connection, ws_connect, bind. rewrite Hacc.
  split; intros ->.
  - eexists. split; [reflexivity|]. simpl. auto.
  - eexists. split; [reflexivity|]. split; [exact Hcode|]. split; [exact Hconn|].
    split; [reflexivity|]. split; [|reflexivity].
    change (the_sock st0 = None <-> the_sock st = None). rewrite Hsock.
    destruct (kw.timeout options), (the_sock st); split; congruence.
Qed.

(** An open request with [timeout=3] against a peer that accepts, and
    against one that refuses: on a fresh client, and on a client that has
    a connection. *)
Lemma open_connection_outcomes_witness :
  (exists st',
     send_request (Some OPEN) "ws://echo/ws" (options_with_timeout 3) disconnected_state
       = (Ok tt, st') /\
     is_connected st' = true /\
     status_code (self st') = status (client (self st')) /\
     the_sock st' = Some (Some 3000) /\
     ops (world st') = [OpConnect "ws://echo/ws" ∅]) /\
  (exists st',
     send_request (Some OPEN) "ws://echo/ws" (options_with_timeout 3)
       {| self := new_WebsocketClient; world := refusing_world |}
       = (Raise ConnectionRefusedError, st') /\
     status_code (self st') = None /\
     the_sock st' = None /\
     world st' = refusing_world) /\
  (exists st',
     send_request (Some OPEN) "ws://echo/ws" (options_with_timeout 3)
       {| self := open_client None; world := refusing_world |}
       = (Raise ConnectionRefusedError, st') /\
     is_connected st' = true /\
     the_sock st' = Some (Some 3)).
Proof.
  split; [|split].
  - apply (open_connection_outcomes "ws://echo/ws" (options_with_timeout 3)
             disconnected_state); [simpl; lia | reflexivity].
  - destruct (open_connection_outcomes "ws://echo/ws" (options_with_timeout 3)
                {| self := new_WebsocketClient; world := refusing_world |})
      as [_ H]; [simpl; lia|].
    destruct (H eq_refl) as (st' & Hrun & Hcode & _ & Hsock & _ & Hworld).
    exists st'. split; [exact Hrun|]. split; [exact Hcode|].
    split; [exact Hsock | exact Hworld].
  - destruct (open_connection_outcomes "ws://echo/ws" (options_with_timeout 3)
                {| self := open_client None; world := refusing_world |})
      as [_ H]; [simpl; lia|].
    destruct (H eq_refl) as (st' & Hrun & _ & Hconn & Hsock & _).
    exists st'. split; [exact Hrun|]. split; [exact Hconn | exact Hsock].
Defined.

(** X2.  A ping request with a valid timeout sends exactly one ping
    frame with an empty payload on a socket that takes writes, and returns
    without reading: the peer's script is as it was.  On a client without
    socket it raises [WebSocketConnectionClosedException]. *)
Theorem ping_sends_one_empty_frame (url : string) (options : kw.t) (st : St) :
  valid_timeout (kw.timeout options) ->
  (writable st ->
   send_request (Some PING) url options st
     = (Ok tt, sent {| opcode := OPCODE_PING; data := [] |}
                 (timeout_applied (kw.timeout options) st))) /\
  (the_sock st = None ->
   send_request (Some PING) url options st
     = (Raise WebSocketConnectionClosedException,
        timeout_applied (kw.timeout options) st)).
Proof.
  intros Hv. unfold send_request.
  erewrite bind_Ok by (now apply send_request_timeout). split.
  - intros Hw. unfold ping.
    now rewrite ws_send_str_writable by (now apply timeout_applied_writable).
  - intros Hs. unfold ping, ws_send.
    destruct (timeout_applied_self (kw.timeout options) st) as (_ & _ & ->).
    rewrite Hs. now destruct (kw.timeout options).
Qed.

(** A ping on an open connection whose peer has a frame under way, and a
    ping on a client that was never connected. *)
Lemma ping_sends_one_empty_frame_witness :
  let st := connected_state None [(5, InFrame (text_frame "pong"))] in
  send_request (Some PING) "ws://echo/ws" (options_of None None) st
    = (Ok tt, sent {| opcode := OPCODE_PING; data := [] |} st) /\
  send_request (Some PING) "ws://echo/ws" (options_of None None) disconnected_state
    = (Raise WebSocketConnectionClosedException, disconnected_state).
Proof.
  intros st. split.
  - apply (ping_sends_one_empty_frame "ws://echo/ws" (options_of None None) st);
      [exact I | split; [discriminate | reflexivity]].
  - apply (ping_sends_one_empty_frame "ws://echo/ws" (options_of None None)
             disconnected_state); [exact I | reflexivity].
Defined.

(* ===================================================================== *)
(** * [write] and [read] in a row *)
(* ===================================================================== *)

Lemma ws_send_fails (payload : pyval) (opc : Z) (st : St) :
  fst (ws_send payload opc st) <> Ok tt ->
  exists e, ws_send payload opc st = (Raise e, st).
Proof.
  unfold ws_send.
  destruct (match payload with
            | PStr s => Some (encode_utf8 s)
            | PBytes b => Some b
            | _ => None
            end); [|eauto].
  destruct (the_sock st); [|eauto].
  destruct (link_down (world st)); [eauto|]. simpl. congruence.
Qed.

Lemma write_fails (options : kw.t) (st : St) :
  fst (write options st) <> Ok tt ->
  exists e, write options st = (Raise e, st).
Proof.
  unfold write, bind, lift, ret, raise.
  destruct (supplied (kw.text options)) as [payload|].
  - unfold text_payload, json_dumps.
    destruct payload; try apply ws_send_fails;
      try (destruct (Json.dumps _); [apply ws_send_fails | eauto]).
    destruct (decode_utf8 b); [apply ws_send_fails | eauto].
  - destruct (supplied (kw.binary options)); [apply ws_send_fails | eauto].
Qed.

(** X3.  [write] is all or nothing, and never blocks.  A [write] that
    does not return has raised, and has left the client and the world
    exactly as they were: nothing has gone to the socket, whether the
    payload was missing, could not be made into a text, or the socket
    refused it.  A [write] that returns has done one thing: it has sent
    one frame, a text frame when a text was supplied and a binary frame
    otherwise. *)
Theorem failed_write_sends_nothing (options : kw.t) (st : St) :
  (fst (write options st) <> Ok tt -> exists e, write options st = (Raise e, st)) /\
  (forall st', write options st = (Ok tt, st') ->
     exists f, st' = sent f st /\
               opcode f = match supplied (kw.text options) with
                          | Some _ => OPCODE_TEXT
                          | None => OPCODE_BINARY
                          end).
Proof.
  split; [apply write_fails|].
  intros st'. unfold write, bind, lift, ret, raise.
  assert (forall payload opc,
            ws_send payload opc st = (Ok tt, st') ->
            exists f, st' = sent f st /\ opcode f = opc) as Hsend.
  { intros payload opc. unfold ws_send.
    destruct (match payload with
              | PStr s => Some (encode_utf8 s)
              | PBytes b => Some b
              | _ => None
              end) as [d|]; [|discriminate].
    destruct (the_sock st); [|discriminate].
    destruct (link_down (world st)); [discriminate|].
    intros [= <-]. now eexists. }
  destruct (supplied (kw.text options)) as [payload|].
  - destruct (text_payload payload) as [s| |]; [|discriminate..]. apply Hsend.
  - destruct (supplied (kw.binary options)) as [payload|]; [|discriminate]. apply Hsend.
Qed.

(** A text of bytes that are not UTF-8, and a text that goes out, on an
    open connection. *)
Lemma failed_write_sends_nothing_witness :
  (exists e,
     write (options_of (Some (PBytes [xff])) None) (connected_state None [])
       = (Raise e, connected_state None [])) /\
  exists f,
    snd (write (options_of (Some (PStr "hello")) None) (connected_state None []))
      = sent f (connected_state None []) /\
    opcode f = OPCODE_TEXT.
Proof.
  split.
  - apply (failed_write_sends_nothing (options_of (Some (PBytes [xff])) None)
             (connected_state None [])).
    vm_compute. discriminate.
  - apply (failed_write_sends_nothing (options_of (Some (PStr "hello")) None)
             (connected_state None [])).
    reflexivity.
Defined.

(** X4.  A write-and-read request with a valid timeout.  When the text
    has a payload, the socket takes writes and the peer's next frame is a
    text frame that arrives within the socket timeout, the request
    returns after exactly one frame sent and then one frame read, and
    [self.text] holds what [json.loads] makes of the reply, or the reply
    itself when it is not JSON.  When the write fails, the request raises
    with nothing sent and nothing read: the state is the one that setting
    the timeout left. *)
Theorem write_and_read_exchange (url : string) (options : kw.t) (st : St) :
  valid_timeout (kw.timeout options) ->
  let st0 := timeout_applied (kw.timeout options) st in
  (forall payload s tmo delay reply rest,
     supplied (kw.text options) = Some payload ->
     text_payload payload = Ok s ->
     writable st ->
     the_sock st0 = Some tmo ->
     inbox (world st) = (delay, InFrame (text_frame reply)) :: rest ->
     in_time tmo delay ->
     decode_utf8 (encode_utf8 reply) = Some reply ->
     send_request (Some WR) url options st =
       (Ok tt,
        on_self (set_text (match Json.loads reply with Some v => v | None => PStr reply end))
          (took (Z.max 0 delay) (text_frame reply) rest (sent (text_frame s) st0)))) /\
  (fst (write options st0) <> Ok tt ->
   exists e, send_request (Some WR) url options st = (Raise e, st0)).
Proof.
  intros Hv st0. split.
  - intros payload s tmo delay reply rest Ht Hp Hw Hsock Hin Htime Hutf.
    unfold send_request. erewrite bind_Ok by (now apply send_request_timeout).
    fold st0.
    erewrite bind_Ok.
    2:{ rewrite (write_text _ _ _ Ht), Hp. apply ws_send_str_writable.
        now apply timeout_applied_writable. }
    fold (text_frame s).
    erewrite bind_Ok; [reflexivity|].
    apply read_text; [|exact Hutf].
    apply (recv_frame_arrives _ tmo); [exact Hsock | | exact Htime | reflexivity].
    destruct (timeout_applied_world (kw.timeout options) st) as (_ & Hi & _).
    simpl. fold st0 in Hi. now rewrite Hi.
  - intros Hfail. destruct (write_fails options st0 Hfail) as [e He].
    exists e. unfold send_request. erewrite bind_Ok by (now apply send_request_timeout).
    fold st0. erewrite bind_Raise; [reflexivity | exact He].
Qed.

(** A list is written and the peer answers [pong] after 10 ms; and a
    request without text and binary. *)
Lemma write_and_read_exchange_witness :
  let st := connected_state (Some 3000) [(10, InFrame (text_frame "pong"))] in
  send_request (Some WR) "ws://echo/ws" (options_of (Some (PList [PInt 1])) None) st
    = (Ok tt,
       on_self (set_text (PStr "pong"))
         (took 10 (text_frame "pong") [] (sent (text_frame "[1]") st))) /\
  exists e,
    send_request (Some WR) "ws://echo/ws" (options_of (Some PNone) (Some PNone)) st
      = (Raise e, st).
Proof.
  intros st. split.
  - destruct (write_and_read_exchange "ws://echo/ws"
                (options_of (Some (PList [PInt 1])) None) st I) as [H _].
    apply (H (PList [PInt 1]) "[1]" (Some 3000) 10 "pong" []);
      [reflexivity | reflexivity | split; [discriminate | reflexivity] | reflexivity
      | reflexivity | simpl; lia | reflexivity].
  - destruct (write_and_read_exchange "ws://echo/ws"
                (options_of (Some PNone) (Some PNone)) st I) as [_ H].
    apply H. vm_compute. discriminate.
Defined.

(** ** What [send_request] leaves of the client object *)

Lemma classic_method (request_method : option WebsocketMethodEnum) :
  (request_method <> Some R /\ request_method <> Some WR) \/
  (request_method = Some R \/ request_method = Some WR).
Proof. destruct request_method as [[]|]; auto; left; split; congruence. Qed.

Section Preserved.
Context {X : Type} (f : WebsocketClient -> X).
Hypothesis f_client : forall ws c, f (set_client ws c) = f c.
Hypothesis f_status_code : forall v c, f (set_status_code v c) = f c.

Lemma preserves_bind {A B} (m : M St A) (k : A -> M St B) :
  preserves f m -> (forall a, preserves f (k a)) -> preserves f (bind m k).
Proof.
  intros Hm Hk st. unfold bind. specialize (Hm st).
  destruct (m st) as [[a|e|] st1]; simpl in *; [rewrite Hk|..]; auto.
Qed.

Lemma preserves_try {A} (m : M St A) (h : exn -> M St A) :
  preserves f m -> (forall e, preserves f (h e)) -> preserves f (try_except m h).
Proof.
  intros Hm Hh st. unfold try_except. specialize (Hm st).
  destruct (m st) as [[a|e|] st1]; simpl in *; [|rewrite Hh|]; auto.
Qed.

Lemma preserves_same {A} (m : M St A) :
  (forall st, self (snd (m st)) = self st) -> preserves f m.
Proof. intros H st. now rewrite H. Qed.

Lemma preserves_on_client (g : WebSocket -> WebSocket) :
  preserves f (modify (on_client g)).
Proof. intros st. apply f_client. Qed.

Lemma preserves_ws_send payload opc : preserves f (ws_send payload opc).
Proof.
  apply preserves_same. intros st. unfold ws_send.
  destruct payload; try reflexivity;
    destruct (the_sock st); try reflexivity; now destruct (link_down (world st)).
Qed.

Lemma preserves_drop_socket (st : St) : f (self (drop_socket st)) = f (self st).
Proof. unfold drop_socket. destruct (the_sock st); apply f_client. Qed.

Lemma preserves_read_frame : preserves f read_frame.
Proof.
  intros st. unfold read_frame.
  destruct (the_sock st) as [[t|]|]; [| |apply preserves_drop_socket];
    destruct (inbox (world st)) as [|[delay item] rest]; try reflexivity;
    try destruct (t <? Z.max 0 delay); try reflexivity;
    unfold deliver; destruct item as [fr|[]]; try reflexivity;
    cbn [snd]; now rewrite preserves_drop_socket.
Qed.

Lemma preserves_recv_frame : preserves f recv_frame.
Proof.
  unfold recv_frame. apply preserves_bind; [apply preserves_read_frame|]. intros fr.
  apply preserves_bind; now (intros; apply preserves_same).
Qed.

Lemma preserves_sock_settimeout t : preserves f (sock_settimeout t).
Proof.
  intros st. unfold sock_settimeout. destruct (the_sock st); [|reflexivity].
  destruct (match t with Some v => v <? 0 | None => false end); [reflexivity|].
  apply f_client.
Qed.

Lemma preserves_sock_shutdown : preserves f sock_shutdown.
Proof.
  apply preserves_same. intros st. unfold sock_shutdown.
  destruct (the_sock st); [|reflexivity]. now destruct (link_down (world st)).
Qed.

Lemma preserves_sock_gettimeout : preserves f sock_gettimeout.
Proof.
  apply preserves_same. intros st. unfold sock_gettimeout. now destruct (the_sock st).
Qed.

Lemma preserves_ws_shutdown : preserves f ws_shutdown.
Proof.
  intros st. unfold ws_shutdown. destruct (the_sock st); [|reflexivity]. apply f_client.
Qed.

Lemma preserves_close_wait_turn r : preserves f (close_wait_turn r).
Proof.
  unfold close_wait_turn, isEnabledForError, logger.
  apply preserves_try; [|intros ?; now apply preserves_same].
  apply preserves_bind; [apply preserves_recv_frame|]. intros frame.
  destruct (negb (opcode frame =? OPCODE_CLOSE)); [now apply preserves_same|].
  apply preserves_bind; [now apply preserves_same|]. intros [|]; [|now apply preserves_same].
  apply preserves_bind; [now apply preserves_same|]. intros recv_status.
  apply preserves_bind; [|intros ?; now apply preserves_same].
  destruct ((recv_status >=? 3000) && (recv_status <=? 4999)); [now apply preserves_same|].
  destruct (negb (recv_status =? STATUS_NORMAL)); now apply preserves_same.
Qed.

Lemma preserves_close_wait n timeout start r : preserves f (close_wait n timeout start r).
Proof.
  induction n as [|n IH]; [now apply preserves_same|].
  cbn [close_wait]. unfold time_time.
  apply preserves_bind; [now apply preserves_same|]. intros t.
  destruct (match timeout with None => true | Some tmo => _ end);
    [|now apply preserves_same].
  apply preserves_bind; [apply preserves_close_wait_turn|].
  intros [|r']; [exact IH | now apply preserves_same].
Qed.

Lemma preserves_close_connection (close_status : Z) (timeout : option Z) :
  preserves f (close_connection close_status timeout).
Proof.
  unfold close_connection, close_handshake, close_exchange, time_time.
  apply preserves_bind; [now apply preserves_same|]. intros is_conn.
  apply preserves_bind.
  - destruct is_conn; [|now apply preserves_same].
    destruct ((close_status <? 0) || (close_status >=? LENGTH_16));
      [now apply preserves_same|].
    repeat first
      [ apply preserves_ws_send | apply preserves_sock_gettimeout
      | apply preserves_sock_settimeout | apply preserves_sock_shutdown
      | apply preserves_ws_shutdown | apply preserves_close_wait
      | apply preserves_on_client
      | apply preserves_try; [|intros ?]
      | apply preserves_bind; [|intros ?]
      | now apply preserves_same ].
  - intros r. apply preserves_bind; [|intros ?; now apply preserves_same].
    intros st. apply f_status_code.
Qed.

Lemma preserves_set_timeout (options : kw.t) :
  preserves f match kw.timeout options with
              | Some t => _set_timeout t
              | None => ret tt
              end.
Proof.
  destruct (kw.timeout options) as [t|]; [|now apply preserves_same].
  unfold _set_timeout, ws_settimeout.
  apply preserves_bind; [apply preserves_on_client|]. intros _ st.
  destruct (the_sock st); [apply preserves_sock_settimeout | reflexivity].
Qed.

Lemma preserves_write (options : kw.t) : preserves f (write options).
Proof.
  unfold write. apply preserves_bind; [|intros ?; apply preserves_ws_send].
  destruct (supplied (kw.text options)).
  - apply preserves_bind; now (intros; apply preserves_same).
  - destruct (supplied (kw.binary options)); now apply preserves_same.
Qed.

Lemma preserves_send_close : preserves f send_close.
Proof.
  unfold send_close. apply preserves_bind; [apply preserves_on_client|]. intros _.
  apply preserves_bind; [now apply preserves_same|]. intros payload.
  apply preserves_ws_send.
Qed.

Lemma preserves_recv_data_frame n : preserves f (recv_data_frame n).
Proof.
  induction n as [|n IH]; [now apply preserves_same|].
  cbn [recv_data_frame].
  apply preserves_bind; [apply preserves_recv_frame|]. intros fr. cbv zeta.
  destruct ((opcode fr =? OPCODE_TEXT) || (opcode fr =? OPCODE_BINARY)
            || (opcode fr =? OPCODE_CONT)).
  - destruct (opcode fr =? OPCODE_CONT); [now apply preserves_same|].
    destruct ((opcode fr =? OPCODE_TEXT) && negb (validate_utf8 (data fr)));
      now apply preserves_same.
  - destruct (opcode fr =? OPCODE_CLOSE).
    + apply preserves_bind; [apply preserves_send_close|].
      intros _. now apply preserves_same.
    + destruct (opcode fr =? OPCODE_PING); [|exact IH].
      apply preserves_bind; [|intros _; exact IH].
      destruct (length (data fr) <? 126)%nat;
        [apply preserves_ws_send | now apply preserves_same].
Qed.

Lemma preserves_read : preserves f read.
Proof.
  unfold read, ws_recv.
  apply preserves_bind.
  - apply preserves_bind; [now apply preserves_same|]. intros n.
    apply preserves_bind; [apply preserves_recv_data_frame|]. intros fr.
    destruct (opcode fr =? OPCODE_TEXT);
      [destruct (decode_utf8 (data fr)); now apply preserves_same|].
    destruct (opcode fr =? OPCODE_BINARY); now apply preserves_same.
  - intros v. destruct (json_loads v) as [?|[]|]; now apply preserves_same.
Qed.

Lemma preserves_open_connection url options : preserves f (open_connection url options).
Proof.
  unfold open_connection. apply preserves_bind.
  - intros st. unfold ws_connect. destruct (accepts (world st)); apply f_client.
  - intros _ st. apply f_status_code.
Qed.

(** Every request but a read leaves [f]; a read does when [f] does not
    look at [self.text]. *)
Lemma preserves_send_request (request_method : option WebsocketMethodEnum)
    (url : string) (options : kw.t) :
  (forall v c, f (set_text v c) = f c) \/
    (request_method <> Some R /\ request_method <> Some WR) ->
  preserves f (send_request request_method url options).
Proof.
  intros Hf. unfold send_request.
  apply preserves_bind; [apply preserves_set_timeout|]. intros _.
  destruct request_method as [[]|].
  - apply preserves_open_connection.
  - apply preserves_ws_send.
  - apply preserves_write.
  - destruct Hf as [Hf|[Hf _]]; [|congruence].
    apply preserves_bind; [apply preserves_read|]. intros v st. apply Hf.
  - destruct Hf as [Hf|[_ Hf]]; [|congruence].
    apply preserves_bind; [apply preserves_write|]. intros _.
    apply preserves_bind; [apply preserves_read|]. intros v st. apply Hf.
  - apply preserves_bind; [apply preserves_close_connection|].
    intros ?. now apply preserves_same.
  - now apply preserves_same.
Qed.

Lemma preserves_unless_returned {A} (m : M St A) :
  preserves f m -> unless_returned f m.
Proof. intros H st _. apply H. Qed.

Lemma unless_returned_bind {A B} (m : M St A) (k : A -> M St B) :
  preserves f m -> (forall a, unless_returned f (k a)) -> unless_returned f (bind m k).
Proof.
  intros Hm Hk st. unfold bind. specialize (Hm st).
  destruct (m st) as [[a|e|] st1]; simpl in *; [|auto..].
  intros H. now rewrite Hk.
Qed.

Lemma unless_returned_modify (g : St -> St) : unless_returned f (modify g).
Proof. intros st H. now contradiction (H tt). Qed.

(** A request that does not return leaves [f], whatever [f] looks at:
    [self.text] is assigned last. *)
Lemma unless_returned_send_request (request_method : option WebsocketMethodEnum)
    (url : string) (options : kw.t) :
  unless_returned f (send_request request_method url options).
Proof.
  destruct (classic_method request_method) as [H|[-> | ->]].
  - apply preserves_unless_returned, preserves_send_request. now right.
  - unfold send_request. apply unless_returned_bind; [apply preserves_set_timeout|].
    intros _. apply unless_returned_bind; [apply preserves_read|].
    intros v. apply unless_returned_modify.
  - unfold send_request. apply unless_returned_bind; [apply preserves_set_timeout|].
    intros _. apply unless_returned_bind; [apply preserves_write|].
    intros _. apply unless_returned_bind; [apply preserves_read|].
    intros v. apply unless_returned_modify.
Qed.

End Preserved.

(** X5.  [self.text], which the step takes as the body of the response,
    changes only when a read or a write-and-read request returns: after
    an open, ping, write or close request, or a request with an unknown
    method, and after any request that raises or blocks, it still holds
    what the last successful read left. *)
Theorem text_changes_only_on_read (request_method : option WebsocketMethodEnum)
    (url : string) (options : kw.t) (st : St) :
  let res := send_request request_method url options st in
  (request_method <> Some R -> request_method <> Some WR ->
   text (self (snd res)) = text (self st)) /\
  (fst res <> Ok tt -> text (self (snd res)) = text (self st)).
Proof.
  assert (forall ws c, text (set_client ws c) = text c) as Hc by reflexivity.
  assert (forall v c, text (set_status_code v c) = text c) as Hs by reflexivity.
  split.
  - intros HR HWR. apply (preserves_send_request text Hc Hs). now right.
  - intros H. apply (unless_returned_send_request text Hc Hs). now intros [].
Qed.

(** After a read of [pong], a write request and a read that times out
    both leave [pong] as the text. *)
Lemma text_changes_only_on_read_witness :
  let st := on_self (set_text (PStr "pong")) (connected_state (Some 3000) []) in
  text (self (snd (send_request (Some W) "ws://echo/ws"
                     (options_of (Some (PStr "ping")) None) st))) = PStr "pong" /\
  text (self (snd (send_request (Some R) "ws://echo/ws" (options_of None None) st)))
    = PStr "pong".
Proof.
  intros st. split.
  - destruct (text_changes_only_on_read (Some W) "ws://echo/ws"
                (options_of (Some (PStr "ping")) None) st) as [H _].
    apply H; discriminate.
  - destruct (text_changes_only_on_read (Some R) "ws://echo/ws"
                (options_of None None) st) as [_ H].
    apply H. vm_compute. discriminate.
Defined.

(** X6.  [self.binary], which the constructor sets to [None], is never
    assigned: whatever the request and however it ends, the field is as
    it was before, so that on a client made by [WebsocketClient()] it is
    still [None] after any sequence of requests, in any world.  The
    payload of a binary frame that is read goes to [self.text] like that
    of a text frame. *)
Theorem binary_is_never_assigned
    (requests : list (option WebsocketMethodEnum * string * kw.t)) (w : World) :
  (forall request_method url options st,
     binary (self (snd (send_request request_method url options st))) = binary (self st)) /\
  binary (self (after_requests requests {| self := new_WebsocketClient; world := w |}))
    = PNone.
Proof.
  assert (forall request_method url options st,
            binary (self (snd (send_request request_method url options st)))
              = binary (self st)) as Hone
    by (intros; apply preserves_send_request; auto).
  split; [exact Hone|].
  change PNone with (binary (self {| self := new_WebsocketClient; world := w |})).
  generalize {| self := new_WebsocketClient; world := w |}.
  induction requests as [|[[request_method url] options] requests IH]; intros st;
    [reflexivity|].
  simpl. unfold after_requests in IH. rewrite IH. apply Hone.
Qed.

(** X7.  A request whose method is [None], no member of the enumeration,
    raises the [ValueError] of the last branch, whose message ends in the
    method as the f-string writes it, with nothing sent and nothing read.
    The timeout of the keyword arguments has been applied by then: with a
    valid timeout [t] and a socket, the socket timeout is [t] when the
    error is raised; without a timeout the state is untouched. *)
Theorem unknown_method_is_rejected (url : string) (options : kw.t) (st : St) :
  valid_timeout (kw.timeout options) ->
  send_request None url options st
    = (Raise (ValueError "unexpected websocket frame type: None"),
       timeout_applied (kw.timeout options) st) /\
  (kw.timeout options = None -> timeout_applied (kw.timeout options) st = st) /\
  (forall t, kw.timeout options = Some t -> the_sock st <> None ->
     the_sock (timeout_applied (kw.timeout options) st) = Some (Some t)) /\
  inbox (world (timeout_applied (kw.timeout options) st)) = inbox (world st).
Proof.
  intros Hv. split; [|split; [|split]].
  - unfold send_request. erewrite bind_Ok by (now apply send_request_timeout). reflexivity.
  - now intros ->.
  - intros t -> Hs. destruct (timeout_applied_self (Some t) st) as (_ & _ & ->).
    now destruct (the_sock st).
  - apply timeout_applied_world.
Qed.

(** An unknown method with a timeout of 2000 ms on an open connection,
    and one without timeout. *)
Lemma unknown_method_is_rejected_witness :
  let st := connected_state (Some 5000) [] in
  (send_request None "ws://echo/ws" (options_with_timeout 2000) st
     = (Raise (ValueError "unexpected websocket frame type: None"),
        timeout_applied (Some 2000) st) /\
   the_sock (timeout_applied (Some 2000) st) = Some (Some 2000)) /\
  send_request None "ws://echo/ws" (options_of None None) st
    = (Raise (ValueError "unexpected websocket frame type: None"), st).
Proof.
  intros st. split.
  - destruct (unknown_method_is_rejected "ws://echo/ws" (options_with_timeout 2000) st)
      as (H1 & _ & H3 & _); [simpl; lia|].
    split; [exact H1|]. apply (H3 2000); [reflexivity | discriminate].
  - destruct (unknown_method_is_rejected "ws://echo/ws" (options_of None None) st I)
      as (H1 & H2 & _).
    rewrite H1. now rewrite (H2 eq_refl).
Defined.

(** X8.  A negative timeout on a client that has a socket makes
    [send_request] raise [ValueError] out of [_set_timeout], whatever the
    method, before the method is looked at: the world is untouched, so
    nothing is sent, and the handle and its socket are as they were.  In
    particular a close request with a negative timeout closes nothing. *)
Theorem negative_timeout_is_rejected (request_method : option WebsocketMethodEnum)
    (url : string) (options : kw.t) (st : St) (t : Z) (old : option Z) :
  kw.timeout options = Some t -> t < 0 -> the_sock st = Some old ->
  exists st',
    send_request request_method url options st
      = (Raise (ValueError "Timeout value out of range"), st') /\
    world st' = world st /\
    is_connected st' = is_connected st /\
    the_sock st' = Some old.
Proof.
  intros Hopt Ht Hs. exists (default_timeout_set (Some t) st).
  split; [|split; [reflexivity | split; [reflexivity | exact Hs]]].
  unfold send_request. rewrite Hopt.
  erewrite bind_Raise; [reflexivity|]. now apply (_set_timeout_negative t st old).
Qed.

(** A close request with [timeout=-1] on an open connection. *)
Lemma negative_timeout_is_rejected_witness :
  let st := connected_state (Some 5000) [] in
  exists st',
    send_request (Some CLOSE) "ws://echo/ws" (options_with_timeout (-1)) st
      = (Raise (ValueError "Timeout value out of range"), st') /\
    world st' = world st /\
    is_connected st' = true /\
    the_sock st' = Some (Some 5000).
Proof.
  intros st.
  apply (negative_timeout_is_rejected (Some CLOSE) "ws://echo/ws"
           (options_with_timeout (-1)) st (-1) (Some 5000));
    [reflexivity | lia | reflexivity].
Defined.

(* ===================================================================== *)
(** * [close_connection]: the ways that end without a status *)
(* ===================================================================== *)

Lemma close_connection_quiet (st : St) (close_status T : Z) (orig : option Z) :
  is_connected st = true ->
  the_sock st = Some orig ->
  valid_timeout orig ->
  link_down (world st) = false ->
  in_range close_status ->
  0 <= T ->
  quiet (inbox (world st)) = true ->
  exists st' frames,
    close_connection close_status (Some T) st = (Ok STATUS_ABNORMAL_CLOSED, st') /\
    status_code (self st') = Some STATUS_ABNORMAL_CLOSED /\
    now (world st) + T <= now (world st') <= now (world st) + 2 * T /\
    ops (world st') =
      (ops (world st)
         ++ [OpSend (sent_close_frame close_status); OpSetTimeout (Some T)]
         ++ List.map OpRecv frames
         ++ [OpSetTimeout orig; OpShutdown; OpClose])%list.
Proof.
  intros Hconn Hsock Hvalid Hlink Hrange HT Hquiet.
  rewrite close_connection_unfold, Hconn.
  apply range_test in Hrange as Htest. rewrite Htest.
  destruct (close_exchange_quiet (on_client (set_connected false) st) close_status T orig)
    as (st1 & frames & Hex & Hsock1 & Hnow & Hops & _); auto.
  unfold close_handshake. erewrite try_Ok by (erewrite bind_Ok by reflexivity; exact Hex).
  eexists _, frames. split; [reflexivity|]. split; [reflexivity|].
  unfold ws_shutdown. rewrite Hsock1. simpl. split; [exact Hnow|].
  rewrite Hops. simpl. rewrite <- app_assoc. simpl. now rewrite <- app_assoc.
Qed.

(** X9.  A close request on a connected handle whose peer sends no close
    frame, only frames of other kinds that the library accepts, if
    any.  Without a [close_status] the close frame carries 1000, without
    a [timeout] the wait is 3000 ms; a [close_status] or a [timeout] that
    is given is used instead.  The request returns, between one and two
    timeouts later, and [status_code] is the abnormal-closure status; the
    status itself is not returned by [send_request].  A [timeout] that is
    given has been set on the socket before the handshake, so it is also
    the timeout that the handshake restores. *)
Theorem close_request_defaults (url : string) (options : kw.t) (st : St)
    (orig : option Z) :
  let T := default 3000 (kw.timeout options) in
  let close_status := default STATUS_NORMAL (kw.close_status options) in
  let st0 := timeout_applied (kw.timeout options) st in
  0 <= T ->
  is_connected st = true ->
  the_sock st = Some orig ->
  valid_timeout orig ->
  link_down (world st) = false ->
  in_range close_status ->
  quiet (inbox (world st)) = true ->
  exists st' frames,
    send_request (Some CLOSE) url options st = (Ok tt, st') /\
    status_code (self st') = Some STATUS_ABNORMAL_CLOSED /\
    now (world st) + T <= now (world st') <= now (world st) + 2 * T /\
    ops (world st') =
      (ops (world st0)
         ++ [OpSend (sent_close_frame close_status); OpSetTimeout (Some T)]
         ++ List.map OpRecv frames
         ++ [OpSetTimeout (match kw.timeout options with Some t => Some t | None => orig end);
             OpShutdown; OpClose])%list.
Proof.
  intros T close_status st0 HT Hconn Hsock Hvalid Hlink Hrange Hquiet.
  assert (valid_timeout (kw.timeout options)) as Hv.
  { subst T. destruct (kw.timeout options); simpl in *; [lia | exact I]. }
  destruct (timeout_applied_world (kw.timeout options) st) as (Hnow & Hin & _ & Hl & _).
  destruct (timeout_applied_self (kw.timeout options) st) as (Hc & _ & Hs).
  fold st0 in Hnow, Hin, Hl, Hc, Hs.
  destruct (close_connection_quiet st0 close_status T
              (match kw.timeout options with Some t => Some t | None => orig end))
    as (st' & frames & Hclose & Hcode & Htime & Hops).
  - congruence.
  - rewrite Hs, Hsock. now destruct (kw.timeout options).
  - destruct (kw.timeout options); [exact Hv | exact Hvalid].
  - congruence.
  - exact Hrange.
  - exact HT.
  - now rewrite Hin.
  - exists st', frames. split; [|split; [exact Hcode | split; [lia | exact Hops]]].
    unfold send_request. erewrite bind_Ok by (now apply send_request_timeout).
    fold st0.
    assert (match kw.timeout options with Some t => t | None => 3000 end = T) as ->
      by (subst T; now destruct (kw.timeout options)).
    assert (match kw.close_status options with Some c => c | None => STATUS_NORMAL end
            = close_status) as ->
      by (subst close_status; now destruct (kw.close_status options)).
    erewrite bind_Ok by exact Hclose. reflexivity.
Qed.

(** A close request without keyword arguments, on a socket whose timeout
    was 5000 ms, against a silent peer. *)
Lemma close_request_defaults_witness :
  let st := connected_state (Some 5000) [] in
  exists st' frames,
    send_request (Some CLOSE) "ws://echo/ws" (options_of None None) st = (Ok tt, st') /\
    status_code (self st') = Some STATUS_ABNORMAL_CLOSED /\
    now (world st) + 3000 <= now (world st') <= now (world st) + 2 * 3000 /\
    ops (world st') =
      ([] ++ [OpSend (sent_close_frame 1000); OpSetTimeout (Some 3000)]
          ++ List.map OpRecv frames
          ++ [OpSetTimeout (Some 5000); OpShutdown; OpClose])%list.
Proof.
  intros st.
  apply (close_request_defaults "ws://echo/ws" (options_of None None) st (Some 5000));
    try reflexivity; simpl; unfold in_range, STATUS_NORMAL; lia.
Defined.

(** The exchange once the close frame has gone out. *)
Lemma close_exchange_sent (st : St) (close_status : Z) (timeout orig : option Z) :
  the_sock st = Some orig ->
  link_down (world st) = false ->
  in_range close_status ->
  close_exchange close_status timeout st =
    (sock_settimeout timeout ;;
     start_time <- time_time ;;
     n <- gets (fun st => length (inbox (world st))) ;;
     resp_status <- close_wait (n + 1) timeout start_time STATUS_ABNORMAL_CLOSED ;;
     try_except (sock_settimeout orig ;; sock_shutdown) (fun _ => ret tt) ;;
     ret resp_status) (sent (sent_close_frame close_status) st).
Proof.
  intros Hsock Hlink Hrange. unfold close_exchange.
  erewrite bind_Ok by (unfold lift; rewrite (struct_pack_H_ok _ Hrange); reflexivity).
  erewrite bind_Ok by (apply ws_send_writable; split; [congruence | exact Hlink]).
  erewrite bind_Ok by (apply sock_gettimeout_ok; exact Hsock).
  reflexivity.
Qed.

(** X10.  When the close frame cannot be sent, [close_connection] on a
    connected handle returns the abnormal-closure status at once, whatever
    the timeout, even none: no time passes, nothing is read, the socket
    timeout is not touched, and the only thing done on the socket is to
    close it. *)
Theorem close_when_socket_fails (st : St) (close_status : Z) (timeout orig : option Z) :
  is_connected st = true ->
  the_sock st = Some orig ->
  link_down (world st) = true ->
  in_range close_status ->
  exists st',
    close_connection close_status timeout st = (Ok STATUS_ABNORMAL_CLOSED, st') /\
    ops (world st') = (ops (world st) ++ [OpClose])%list /\
    now (world st') = now (world st) /\
    inbox (world st') = inbox (world st) /\
    the_sock st' = None.
Proof.
  intros Hconn Hsock Hlink Hrange.
  rewrite close_connection_unfold, Hconn.
  apply range_test in Hrange as Htest. rewrite Htest.
  set (st0 := on_client (set_connected false) st).
  assert (close_handshake close_status timeout st = (Ok STATUS_ABNORMAL_CLOSED, st0)) as ->.
  { unfold close_handshake. erewrite try_Raise; [reflexivity|].
    erewrite bind_Ok by reflexivity. fold st0. unfold close_exchange.
    erewrite bind_Ok by (unfold lift; rewrite (struct_pack_H_ok _ Hrange); reflexivity).
    erewrite bind_Raise; [reflexivity|].
    unfold ws_send. change (the_sock st0) with (the_sock st). rewrite Hsock.
    change (link_down (world st0)) with (link_down (world st)). now rewrite Hlink. }
  eexists. split; [reflexivity|].
  unfold ws_shutdown. change (the_sock st0) with (the_sock st). rewrite Hsock.
  simpl. auto.
Qed.

(** A close without timeout on a connection whose socket is broken. *)
Lemma close_when_socket_fails_witness :
  exists st',
    close_connection 1000 None (broken_state (Some 5000))
      = (Ok STATUS_ABNORMAL_CLOSED, st') /\
    ops (world st') = [OpClose] /\
    now (world st') = 1700000123456 /\
    inbox (world st') = [] /\
    the_sock st' = None.
Proof.
  apply (close_when_socket_fails (broken_state (Some 5000)) 1000 None (Some 5000));
    try reflexivity; unfold in_range; lia.
Defined.

(** X11.  With a timeout that leaves no time, zero or negative,
    [close_connection] on a connected handle sends its close frame and
    returns the abnormal-closure status without a single read, even when
    the peer's close frame is already there: the peer's script and the
    clock are as they were.  A negative timeout is refused by the socket,
    which ends the [try] block at once; with zero the loop is not
    entered, and the socket timeout is set back before the shutdown. *)
Theorem close_without_waiting (st : St) (close_status T : Z) (orig : option Z) :
  is_connected st = true ->
  the_sock st = Some orig ->
  valid_timeout orig ->
  link_down (world st) = false ->
  in_range close_status ->
  T <= 0 ->
  exists st',
    close_connection close_status (Some T) st = (Ok STATUS_ABNORMAL_CLOSED, st') /\
    inbox (world st') = inbox (world st) /\
    now (world st') = now (world st) /\
    ops (world st') =
      (ops (world st) ++ OpSend (sent_close_frame close_status)
         :: (if T <? 0 then []
             else [OpSetTimeout (Some T); OpSetTimeout orig; OpShutdown])
         ++ [OpClose])%list.
Proof.
  intros Hconn Hsock Hvalid Hlink Hrange HT.
  rewrite close_connection_unfold, Hconn.
  apply range_test in Hrange as Htest. rewrite Htest.
  set (st0 := on_client (set_connected false) st).
  set (st1 := sent (sent_close_frame close_status) st0).
  pose proof (close_exchange_sent st0 close_status (Some T) orig Hsock Hlink Hrange) as Hex.
  fold st1 in Hex. unfold close_handshake.
  destruct (Z.ltb_spec T 0) as [Hneg|Hzero].
  - erewrite try_Raise.
    2:{ erewrite bind_Ok by reflexivity. fold st0. rewrite Hex.
        erewrite bind_Raise; [reflexivity|].
        unfold sock_settimeout. change (the_sock st1) with (the_sock st). rewrite Hsock.
        destruct (Z.ltb_spec T 0); [reflexivity | lia]. }
    eexists. split; [reflexivity|].
    unfold ws_shutdown. change (the_sock st1) with (the_sock st). rewrite Hsock.
    simpl. rewrite <- app_assoc. auto.
  - assert (T = 0) as -> by lia.
    set (st2 := timeout_set (Some 0) st1).
    erewrite try_Ok.
    2:{ erewrite bind_Ok by reflexivity. fold st0. rewrite Hex.
        erewrite bind_Ok by (eapply sock_settimeout_ok; [exact Hsock | simpl; lia]).
        fold st2. unfold time_time.
        erewrite bind_Ok by reflexivity. erewrite bind_Ok by reflexivity.
        erewrite bind_Ok.
        2:{ rewrite Nat.add_1_r, close_wait_S. rewrite Z.sub_diag. reflexivity. }
        erewrite bind_Ok.
        2:{ apply try_Ok.
            erewrite bind_Ok by (eapply sock_settimeout_ok; [reflexivity|eauto]).
            eapply sock_shutdown_ok; [reflexivity | exact Hlink]. }
        reflexivity. }
    eexists. split; [reflexivity|]. simpl.
    rewrite <- !app_assoc. simpl. auto.
Qed.

(** The peer's close frame with status 1000 is there already; the close
    is called with timeout 0 and with timeout -1 ms. *)
Lemma close_without_waiting_witness :
  let script := [(0, InFrame (close_frame [x03; xe8]))] in
  let st := connected_state (Some 5000) script in
  (exists st',
     close_connection 1000 (Some 0) st = (Ok STATUS_ABNORMAL_CLOSED, st') /\
     inbox (world st') = script /\
     now (world st') = now (world st) /\
     ops (world st') =
       ([] ++ [OpSend (sent_close_frame 1000); OpSetTimeout (Some 0);
               OpSetTimeout (Some 5000); OpShutdown; OpClose])%list) /\
  (exists st',
     close_connection 1000 (Some (-1)) st = (Ok STATUS_ABNORMAL_CLOSED, st') /\
     inbox (world st') = script /\
     now (world st') = now (world st) /\
     ops (world st') = ([] ++ [OpSend (sent_close_frame 1000); OpClose])%list).
Proof.
  intros script st. split.
  - apply (close_without_waiting st 1000 0 (Some 5000));
      try reflexivity; unfold in_range; simpl; lia.
  - apply (close_without_waiting st 1000 (-1) (Some 5000));
      try reflexivity; unfold in_range; simpl; lia.
Defined.

(** A close frame whose payload is too short for a status ends the loop
    with the status the loop started with, and nothing is logged: the
    library refuses a payload of one byte, and of an empty payload no
    status can be unpacked. *)
Lemma turn_close_short (r : Z) (st : St) tmo delay payload rest :
  the_sock st = Some tmo ->
  inbox (world st) = (delay, InFrame (close_frame payload)) :: rest ->
  in_time tmo delay ->
  (length payload < 2)%nat ->
  close_wait_turn r st =
    (Ok (Break r), took (Z.max 0 delay) (close_frame payload) rest st).
Proof.
  intros Hsock Hin Ht Hlen.
  destruct payload as [|b0 [|b1 payload]]; [| |simpl in Hlen; lia].
  - destruct (error_enabled (world st)) eqn:Hen;
      [|now apply (turn_close_not_logged r st tmo)].
    unfold close_wait_turn.
    erewrite try_Raise; [reflexivity|].
    erewrite bind_Ok
      by (exact (recv_frame_arrives st tmo delay (close_frame []) rest Hsock Hin Ht eq_refl)).
    cbn [opcode close_frame negb Z.eqb OPCODE_CLOSE Pos.eqb].
    unfold isEnabledForError. erewrite bind_Ok by reflexivity.
    cbn [took on_world world error_enabled record_op]. cbn [set_inbox set_now error_enabled].
    rewrite Hen. erewrite bind_Raise; reflexivity.
  - now apply (turn_refused r st tmo).
Qed.

Lemma after_loop_world (sock_timeout : option Z) (st : St) :
  exists st',
    try_except (sock_settimeout sock_timeout ;; sock_shutdown) (fun _ => ret tt) st
      = (Ok tt, st') /\
    log (world st') = log (world st) /\ inbox (world st') = inbox (world st) /\
    now (world st') = now (world st).
Proof.
  unfold try_except, bind, sock_settimeout, sock_shutdown, ret, the_sock.
  destruct (sock (client (self st))) as [tmo|]; [|eauto].
  destruct (match sock_timeout with Some v => v <? 0 | None => false end); [eauto|].
  simpl. destruct (link_down (world st)); eauto.
Qed.

Lemma ws_shutdown_world (st : St) :
  let st' := snd (ws_shutdown st) in
  log (world st') = log (world st) /\ inbox (world st') = inbox (world st) /\
  now (world st') = now (world st).
Proof. unfold ws_shutdown. now destruct (the_sock st). Qed.

(** X12.  A close frame of the peer that carries no status, its payload
    being shorter than two bytes, ends the wait like a failure: when it
    arrives before the timeout, [close_connection] returns the
    abnormal-closure status, whether the library logs errors or not, and
    writes nothing to the log.  The frame has been read, and the time it
    took to arrive has passed. *)
Theorem close_frame_without_status (st : St) (close_status T : Z) (orig : option Z)
    delay payload rest :
  is_connected st = true ->
  the_sock st = Some orig ->
  link_down (world st) = false ->
  in_range close_status ->
  inbox (world st) = (delay, InFrame (close_frame payload)) :: rest ->
  (length payload < 2)%nat ->
  Z.max 0 delay < T ->
  exists st',
    close_connection close_status (Some T) st = (Ok STATUS_ABNORMAL_CLOSED, st') /\
    status_code (self st') = Some STATUS_ABNORMAL_CLOSED /\
    log (world st') = log (world st) /\
    inbox (world st') = rest /\
    now (world st') = now (world st) + Z.max 0 delay.
Proof.
  intros Hconn Hsock Hlink Hrange Hin Hlen Htime.
  rewrite close_connection_unfold, Hconn.
  apply range_test in Hrange as Htest. rewrite Htest.
  set (st0 := on_client (set_connected false) st).
  assert (exists st1,
            close_exchange close_status (Some T) st0 = (Ok STATUS_ABNORMAL_CLOSED, st1) /\
            log (world st1) = log (world st) /\ inbox (world st1) = rest /\
            now (world st1) = now (world st) + Z.max 0 delay) as (st1 & Hex & Hw).
  { rewrite (close_exchange_sent st0 close_status (Some T) orig Hsock Hlink Hrange).
    erewrite bind_Ok by (eapply sock_settimeout_ok; [exact Hsock | simpl; lia]).
    set (st2 := timeout_set (Some T) _).
    unfold time_time. erewrite bind_Ok by reflexivity. erewrite bind_Ok by reflexivity.
    erewrite bind_Ok.
    2:{ rewrite Nat.add_1_r, close_wait_S, Z.sub_diag.
        destruct (Z.ltb_spec 0 T) as [_|]; [|lia].
        rewrite (turn_close_short STATUS_ABNORMAL_CLOSED st2 (Some T) delay payload rest);
          [reflexivity | reflexivity | exact Hin | simpl; lia | exact Hlen]. }
    destruct (after_loop_world orig
                (took (Z.max 0 delay) (close_frame payload) rest st2))
      as (st4 & Hafter & Hlog4 & Hin4 & Hnow4).
    erewrite bind_Ok by exact Hafter.
    exists st4. split; [reflexivity|]. rewrite Hlog4, Hin4, Hnow4. now repeat split. }
  unfold close_handshake. erewrite try_Ok by (erewrite bind_Ok by reflexivity; exact Hex).
  eexists. split; [reflexivity|]. split; [reflexivity|].
  destruct (ws_shutdown_world st1) as (Hl & Hi & Hn). simpl in *.
  destruct Hw as (Hl1 & Hi1 & Hn1). now rewrite Hl, Hi, Hn, Hl1, Hi1, Hn1.
Qed.

(** The peer answers after 5 ms with a close frame that has no
    payload. *)
Lemma close_frame_without_status_witness :
  let st := connected_state (Some 5000) [(5, InFrame (close_frame []))] in
  exists st',
    close_connection 1000 (Some 3000) st = (Ok STATUS_ABNORMAL_CLOSED, st') /\
    status_code (self st') = Some STATUS_ABNORMAL_CLOSED /\
    log (world st') = [] /\
    inbox (world st') = [] /\
    now (world st') = now (world st) + 5.
Proof.
  intros st.
  apply (close_frame_without_status st 1000 3000 (Some 5000) 5 [] []);
    try reflexivity; unfold in_range; simpl; lia.
Defined.

(** Without a timeout the loop reads what the peer sends and then waits
    for ever. *)
Lemma close_wait_quiet_blocks (script : list (Z * incoming)) :
  forall (n : nat) (st : St) (start r : Z),
    inbox (world st) = script ->
    quiet script = true ->
    (length script < n)%nat ->
    the_sock st = Some None ->
    fst (close_wait n None start r st) = Hang.
Proof.
  induction script as [|[delay item] rest IH]; intros n st start r Hin Hq Hn Hsock;
    (destruct n as [|n]; [simpl in Hn; lia|]); rewrite close_wait_S.
  - assert (read_frame st = (Hang, st)) as Hr
      by (unfold read_frame; rewrite Hsock; cbv zeta; now rewrite Hin).
    unfold close_wait_turn, try_except, recv_frame, bind. now rewrite Hr.
  - simpl in Hq. apply andb_true_iff in Hq as [Hitem Hq].
    destruct item as [f|e]; [|discriminate].
    apply andb_true_iff in Hitem as [Hacc Hitem]. apply negb_true_iff in Hitem.
    rewrite (turn_other r st None delay f rest Hsock Hin I Hacc Hitem).
    apply IH; [reflexivity | exact Hq | simpl in Hn; lia | exact Hsock].
Qed.

(** X13.  With [timeout=None], [close_connection] on a connected handle
    whose peer sends no close frame, only frames of other kinds that the
    library accepts, if any, never returns: the socket is made
    blocking, the loop has no time limit, and the receive that follows the
    peer's last frame waits for ever. *)
Theorem close_blocks_without_timeout (st : St) (close_status : Z) (orig : option Z) :
  is_connected st = true ->
  the_sock st = Some orig ->
  link_down (world st) = false ->
  in_range close_status ->
  quiet (inbox (world st)) = true ->
  fst (close_connection close_status None st) = Hang.
Proof.
  intros Hconn Hsock Hlink Hrange Hquiet.
  rewrite close_connection_unfold, Hconn.
  apply range_test in Hrange as Htest. rewrite Htest.
  set (st0 := on_client (set_connected false) st).
  assert (fst (close_exchange close_status None st0) = Hang) as Hex.
  { rewrite (close_exchange_sent st0 close_status None orig Hsock Hlink Hrange).
    erewrite bind_Ok by (eapply sock_settimeout_ok; [exact Hsock | exact I]).
    set (st2 := timeout_set None _).
    unfold time_time. erewrite bind_Ok by reflexivity. erewrite bind_Ok by reflexivity.
    pose proof (close_wait_quiet_blocks (inbox (world st2)) (length (inbox (world st2)) + 1)
                  st2 (now (world st2)) STATUS_ABNORMAL_CLOSED eq_refl Hquiet) as Hloop.
    unfold bind at 1.
    destruct (close_wait _ None _ _ st2) as [[r|e|] st3]; simpl in Hloop;
      try (specialize (Hloop ltac:(lia) eq_refl); discriminate).
    reflexivity. }
  unfold close_handshake, try_except.
  erewrite bind_Ok by reflexivity. fold st0.
  destruct (close_exchange close_status None st0) as [[r|e|] st1]; simpl in Hex;
    try discriminate. reflexivity.
Qed.

(** A peer that sends one text frame and then nothing. *)
Lemma close_blocks_without_timeout_witness :
  fst (close_connection 1000 None
         (connected_state (Some 5000) [(5, InFrame (text_frame "data"))])) = Hang.
Proof.
  apply (close_blocks_without_timeout
           (connected_state (Some 5000) [(5, InFrame (text_frame "data"))]) 1000
           (Some 5000));
    try reflexivity; unfold in_range; lia.
Defined.

(* ===================================================================== *)
(** * After the close *)
(* ===================================================================== *)

Lemma ws_shutdown_no_socket (st : St) : the_sock (snd (ws_shutdown st)) = None.
Proof. unfold ws_shutdown. destruct (the_sock st) eqn:E; simpl; auto. Qed.

Lemma close_leaves_no_socket (st st' : St) (close_status r : Z) (timeout : option Z) :
  close_connection close_status timeout st = (Ok r, st') ->
  is_connected st = true ->
  the_sock st' = None /\ status_code (self st') = Some r.
Proof.
  rewrite close_connection_unfold. intros H Hc. rewrite Hc in H.
  destruct ((close_status <? 0) || (close_status >=? LENGTH_16)); [discriminate|].
  destruct (close_handshake close_status timeout st) as [[r1|e|] st1]; [|discriminate..].
  injection H as <- <-. split; [|reflexivity].
  apply (ws_shutdown_no_socket st1).
Qed.

(** Dropping the socket of a handle that has none and is not connected
    changes nothing. *)
Lemma drop_socket_gone (st : St) :
  the_sock st = None -> is_connected st = false -> drop_socket st = st.
Proof.
  destruct st as [[[c s t u] tx bn sc] w]. unfold drop_socket, the_sock, is_connected.
  simpl. now intros -> ->.
Qed.

Lemma recv_frame_no_socket (st : St) :
  the_sock st = None -> is_connected st = false ->
  recv_frame st = (Raise WebSocketConnectionClosedException, st).
Proof.
  intros H Hc. unfold recv_frame. erewrite bind_Raise; [reflexivity|].
  unfold read_frame. now rewrite H, drop_socket_gone.
Qed.

Lemma ws_send_no_socket (st : St) (payload : pyval) (opc : Z) :
  the_sock st = None ->
  match payload with PStr _ | PBytes _ => True | _ => False end ->
  ws_send payload opc st = (Raise WebSocketConnectionClosedException, st).
Proof. intros H Hp. unfold ws_send. rewrite H. now destruct payload. Qed.

(** X14.  Once [close_connection] has returned on a handle that was
    connected, [status_code] holds the returned status and the client has
    no socket: a ping, a read, and a write of any text that has a payload
    raise [WebSocketConnectionClosedException] and change nothing; and
    another close, whatever its arguments, does nothing on the socket,
    returns the abnormal-closure status and puts it in [status_code] in
    place of the status that the first close had stored. *)
Theorem nothing_goes_after_close (st st' : St) (close_status r : Z) (timeout : option Z) :
  close_connection close_status timeout st = (Ok r, st') ->
  is_connected st = true ->
  status_code (self st') = Some r /\
  ping st' = (Raise WebSocketConnectionClosedException, st') /\
  read st' = (Raise WebSocketConnectionClosedException, st') /\
  (forall options payload s,
     supplied (kw.text options) = Some payload -> text_payload payload = Ok s ->
     write options st' = (Raise WebSocketConnectionClosedException, st')) /\
  (forall close_status' timeout',
     close_connection close_status' timeout' st'
       = (Ok STATUS_ABNORMAL_CLOSED,
          on_self (set_status_code (Some STATUS_ABNORMAL_CLOSED)) st')).
Proof.
  intros Hclose Hc.
  destruct (close_leaves_no_socket _ _ _ _ _ Hclose Hc) as [Hs Hcode].
  split; [exact Hcode|]. split; [|split; [|split]].
  - unfold ping. now apply ws_send_no_socket.
  - unfold read, ws_recv. erewrite bind_Raise; [reflexivity|].
    erewrite bind_Ok by reflexivity. erewrite bind_Raise; [reflexivity|].
    rewrite Nat.add_1_r. cbn [recv_data_frame]. erewrite bind_Raise; [reflexivity|].
    apply recv_frame_no_socket; [exact Hs|].
    exact (close_leaves_disconnected _ _ _ _ _ Hclose).
  - intros options payload s Ht Hp. rewrite (write_text _ _ _ Ht), Hp.
    now apply ws_send_no_socket.
  - intros cs' tmo'. apply close_when_disconnected.
    exact (close_leaves_disconnected _ _ _ _ _ Hclose).
Qed.

(** The peer has answered the close with status 1000; then a write and
    a second close. *)
Lemma nothing_goes_after_close_witness :
  let st := connected_state (Some 5000) [(5, InFrame (close_frame [x03; xe8]))] in
  let st' := snd (close_connection 1000 (Some 3000) st) in
  status_code (self st') = Some 1000 /\
  write (options_of (Some (PStr "late")) None) st'
    = (Raise WebSocketConnectionClosedException, st') /\
  close_connection 1000 (Some 3000) st'
    = (Ok STATUS_ABNORMAL_CLOSED,
       on_self (set_status_code (Some STATUS_ABNORMAL_CLOSED)) st').
Proof.
  intros st st'.
  destruct (nothing_goes_after_close st st' 1000 1000 (Some 3000) eq_refl eq_refl)
    as (H1 & _ & _ & H4 & H5).
  split; [exact H1|]. split; [|apply H5].
  apply (H4 (options_of (Some (PStr "late")) None) (PStr "late") "late"); reflexivity.
Defined.

(* ===================================================================== *)
(** * The step and the client of the runner *)
(* ===================================================================== *)

(** X15.  On a runner without client and a machine without the
    [websocket-client] package, a step whose templates resolve exits with
    [SystemExit(1)]: no client is made, no hook runs and nothing happens
    on the network.  The runner is as it was, and the world differs in
    one thing: the log has one record more, the installation advice of
    [ensure_websocket_ready] at level ERROR. *)
Theorem step_exits_without_dependency `{Collaborators} (step : step.t) (rs : RSt)
    vars parsed :
  websocket_client (runner rs) = None ->
  WEBSOCKET_READY = false ->
  parse_variables_mapping (runner rs) (step.variables step) = Ok vars ->
  parse_data (step.websocket_request step) vars = Ok parsed ->
  exists rs',
    run_step_websocket_request step rs = (Raise (SystemExit 1), rs') /\
    rs' = on_rworld (record_log ERROR msg) rs /\
    runner rs' = runner rs /\
    log (rworld rs') = (log (rworld rs) ++ [(ERROR, msg)])%list /\
    ops (rworld rs') = ops (rworld rs) /\
    inbox (rworld rs') = inbox (rworld rs) /\
    now (rworld rs') = now (rworld rs).
Proof.
  intros Hc Hready Hvars Hparsed. eexists. split; [|repeat split].
  unfold run_step_websocket_request.
  erewrite bind_Ok by reflexivity. erewrite bind_Raise; [reflexivity|].
  unfold prepare_step. erewrite bind_Ok by reflexivity.
  erewrite bind_Ok by (unfold lift; rewrite Hvars; reflexivity).
  erewrite bind_Ok by (unfold lift; rewrite Hparsed; reflexivity).
  erewrite bind_Ok by reflexivity.
  erewrite bind_Raise; [reflexivity|]. rewrite Hc.
  erewrite bind_Raise; [reflexivity|].
  unfold ensure_websocket_ready. rewrite Hready.
  erewrite bind_Ok by reflexivity. reflexivity.
Qed.

(** An open step on a fresh runner: the one thing that is left of it is
    the advice in the log. *)
Lemma step_exits_without_dependency_witness :
  let rs := sample_rs None (sample_world []) in
  exists rs',
    @run_step_websocket_request collaborators_without_websocket
      (sample_step (Some OPEN) PNone []) rs = (Raise (SystemExit 1), rs') /\
    runner rs' = runner rs /\
    log (rworld rs') = [(ERROR, msg)] /\
    ops (rworld rs') = [].
Proof.
  intros rs.
  destruct (@step_exits_without_dependency collaborators_without_websocket
              (sample_step (Some OPEN) PNone []) rs
              ∅ (sample_request (Some OPEN) PNone) eq_refl eq_refl eq_refl eq_refl)
    as (rs' & Hrun & _ & Hrunner & Hlog & Hops & _).
  exists rs'. split; [exact Hrun|]. split; [exact Hrunner|].
  split; [exact Hlog | exact Hops].
Defined.

Lemma prepare_step_client `{Collaborators} (step : step.t) (rs rs1 : RSt)
    (prepared : StepVariables * request.t) :
  prepare_step step rs = (Ok prepared, rs1) ->
  rs1 = match websocket_client (runner rs) with
        | Some _ => rs
        | None => on_runner (set_websocket_client (Some new_WebsocketClient)) rs
        end.
Proof.
  unfold prepare_step, bind, gets, lift, ret, ensure_websocket_ready, raise, modify.
  destruct (parse_variables_mapping _ _) as [vars| |]; [|discriminate..].
  destruct (parse_data _ _) as [parsed| |] eqn:Hp; [|discriminate..].
  destruct (websocket_client (runner rs)) as [c|].
  - destruct (step.setup_hooks step) as [|hook hooks]; [now intros [= _ <-]|].
    match goal with |- context [call_hooks ?r ?h ?v ?m] =>
      destruct (call_hooks r h v m) as [sv| |]; [|discriminate..]
    end.
    now intros [= _ <-].
  - destruct WEBSOCKET_READY; [|discriminate]. cbv beta iota delta [ret].
    destruct (step.setup_hooks step) as [|hook hooks]; [now intros [= _ <-]|].
    match goal with |- context [call_hooks ?r ?h ?v ?m] =>
      destruct (call_hooks r h v m) as [sv| |]; [|discriminate..]
    end.
    now intros [= _ <-].
Qed.

(** X16.  A step without setup hooks that gets as far as the call of the
    client has changed the runner in one way at most: a runner that had no
    client has the fresh client of [WebsocketClient()], which is not
    connected.  A client that was there is kept as it is, with its
    connection, also when the request says [new_connection]; and nothing
    has happened in the world. *)
Theorem step_makes_client_once `{Collaborators} (step : step.t) (rs rs1 : RSt)
    (prepared : StepVariables * request.t) :
  step.setup_hooks step = [] ->
  prepare_step step rs = (Ok prepared, rs1) ->
  rworld rs1 = rworld rs /\
  (forall c, websocket_client (runner rs) = Some c -> rs1 = rs) /\
  (websocket_client (runner rs) = None ->
   rs1 = on_runner (set_websocket_client (Some new_WebsocketClient)) rs).
Proof.
  intros _ Hprep. rewrite (prepare_step_client step rs rs1 prepared Hprep).
  destruct (websocket_client (runner rs)) as [c|]; repeat split; congruence.
Qed.

(** A write step that asks for a new connection, on a runner whose
    client is connected. *)
Lemma step_makes_client_once_witness :
  let step := RunWebsocketRequest.new_connection true
                (sample_step (Some W) (PStr "ping") []) in
  let rs := sample_rs (Some (open_client None)) (sample_world []) in
  snd (@prepare_step sample_collaborators step rs) = rs.
Proof.
  intros step rs.
  destruct (@step_makes_client_once sample_collaborators step rs _ _ eq_refl eq_refl)
    as (_ & H & _).
  exact (H (open_client None) eq_refl).
Defined.

(** ** A client without socket *)






(** ** The end of the step *)

Lemma collect_step_result `{Collaborators} step step_result step_variables rs
    resp_obj step_result' variables_mapping rs' :
  collect_step step step_result step_variables rs
    = (Ok (resp_obj, step_result', variables_mapping), rs') ->
  result.success step_result' = result.success step_result /\
  result.failure_info step_result' = result.failure_info step_result.
Proof.
  unfold collect_step, bind, on_websocket_client, gets, lift, ret.
  destruct (websocket_client (runner rs)) as [c|]; [|discriminate].
  destruct (step.teardown_hooks step) as [|h hooks].
  - destruct (resp_extract _ _ _); [|discriminate..]. now intros [= _ <- _ _].
  - destruct (call_hooks _ _ _ _); [|discriminate..].
    destruct (resp_extract _ _ _); [|discriminate..]. now intros [= _ <- _ _].
Qed.

(** X18.  A step that gets as far as the validation returns a step
    result, whatever the validation does, and the result reflects it:
    [success] is true exactly when the validation raised nothing;
    [failure_info] is the failure report when it raised
    [ValidationFailure], and is not set otherwise, so that any other
    exception out of the validation is dropped by the [return] in
    [finally] and leaves a failed step without report.  The session of
    the runner holds the same [success] and the validation results. *)
Theorem step_result_reflects_validation `{Collaborators} (step : step.t)
    (rs rs1 rs2 rs3 : RSt) prepared resp_obj step_result variables_mapping :
  prepare_step step rs = (Ok prepared, rs1) ->
  call_client (snd prepared) rs1 = (Ok tt, rs2) ->
  collect_step step (new_step_result step) (fst prepared) rs2
    = (Ok (resp_obj, step_result, variables_mapping), rs3) ->
  let v := resp_validate resp_obj (step.validators step) variables_mapping in
  exists res rs',
    run_step_websocket_request step rs = (Ok res, rs') /\
    (result.success res = true <-> raised v = None) /\
    result.failure_info res =
      match raised v with
      | Some ValidationFailure => Some (failures_string v)
      | _ => None
      end /\
    session.success (session_data (runner rs')) = result.success res /\
    session.validators (session_data (runner rs')) = validation_results v.
Proof.
  intros Hprep Hcall Hcollect v.
  unfold run_step_websocket_request.
  erewrite bind_Ok by reflexivity. erewrite bind_Ok by exact Hprep.
  erewrite bind_Ok by exact Hcall. erewrite bind_Ok by exact Hcollect.
  destruct (validate_and_finish_spec step_result v (now (rworld rs)) rs3)
    as (res & Heq & Hsucc & Hinfo & _).
  destruct (collect_step_result _ _ _ _ _ _ _ _ Hcollect) as (Hs & Hi).
  exists res. eexists. split; [exact Heq|].
  rewrite Hsucc, Hinfo, Hi. unfold final_success. rewrite Hs. simpl.
  destruct (raised v) as [[]|]; repeat split; intros; congruence.
Qed.

(** A write step with one assertion that fails. *)
Lemma step_result_reflects_validation_witness :
  let step := sample_step (Some W) (PStr "ping") [PBool false] in
  let rs := sample_rs (Some (open_client None)) (sample_world []) in
  exists res rs',
    @run_step_websocket_request sample_collaborators step rs = (Ok res, rs') /\
    (result.success res = true <-> Some ValidationFailure = None) /\
    result.failure_info res = Some "assert failed" /\
    session.success (session_data (runner rs')) = result.success res /\
    session.validators (session_data (runner rs')) = PList [PBool false].
Proof.
  intros step rs.
  exact (@step_result_reflects_validation sample_collaborators step rs
           _ _ _ _ _ _ _ eq_refl eq_refl eq_refl).
Defined.

(* ===================================================================== *)
(** * The request id *)
(* ===================================================================== *)

Lemma append_assoc (a b c : string) : (a ++ b) ++ c = a ++ (b ++ c).
Proof.
  induction a as [|ch a IH]; [reflexivity|].
  change (String ch ((a ++ b) ++ c) = String ch (a ++ b ++ c)). now rewrite IH.
Qed.

Lemma list_ascii_of_append (a b : string) :
  list_ascii_of_string (a ++ b) = (list_ascii_of_string a ++ list_ascii_of_string b)%list.
Proof.
  induction a as [|ch a IH]; [reflexivity|].
  change (ch :: list_ascii_of_string (a ++ b)
          = ch :: (list_ascii_of_string a ++ list_ascii_of_string b)%list).
  now rewrite IH.
Qed.

(** [s[-n:]] of a string that ends in [n] characters [b] is [b]. *)
Lemma last_chars_append (a b : string) :
  last_chars (String.length b) (a ++ b) = b.
Proof.
  unfold last_chars. rewrite list_ascii_of_append, length_app.
  assert (List.length (list_ascii_of_string b) = String.length b) as Hb.
  { clear. induction b as [|ch b IH]; simpl; [reflexivity | now rewrite IH]. }
  rewrite Hb.
  replace (List.length (list_ascii_of_string a) + String.length b - String.length b)%nat
    with (List.length (list_ascii_of_string a)) by lia.
  rewrite drop_app_length. apply string_of_list_ascii_of_string.
Qed.

(** The digits already produced stay at the end. *)
Lemma pretty_N_go_append (x : N) (s : string) :
  pretty_N_go x s = pretty_N_go x "" ++ s.
Proof.
  revert s. induction (N.lt_wf_0 x) as [x _ IH]. intros s.
  destruct (N.eq_dec x 0%N) as [->|Hx].
  - now rewrite !pretty_N_go_0.
  - rewrite !(pretty_N_go_step x) by lia.
    rewrite (IH (x `div` 10)%N) by (apply N.div_lt; lia).
    rewrite (IH (x `div` 10)%N ltac:(apply N.div_lt; lia) (String _ "")).
    now rewrite append_assoc.
Qed.

(** A digit of [z] below the sixth is a digit of [z mod 1000000]. *)
Lemma digit_of_mod (z a b : Z) :
  0 < a -> 0 < b -> (z mod (a * 10 * b)) / b mod 10 = z / b mod 10.
Proof.
  intros Ha Hb. rewrite (Z.div_mod z (a * 10 * b)) at 2 by lia.
  replace (a * 10 * b * (z / (a * 10 * b)) + z mod (a * 10 * b))
    with (z mod (a * 10 * b) + (a * (z / (a * 10 * b)) * 10) * b) by ring.
  rewrite Z.div_add by lia. now rewrite Z_mod_plus_full.
Qed.

Lemma digit_N (n k : N) :
  ((n `div` k) `mod` 10)%N = Z.to_N (Z.of_N n / Z.of_N k mod 10).
Proof.
  rewrite <- N2Z.inj_div. change 10 with (Z.of_N 10).
  now rewrite <- N2Z.inj_mod, N2Z.id.
Qed.

(** The decimal numeral of a number of six digits or more ends in its
    last six digits. *)
Lemma pretty_six_digits (t : Z) :
  100000 <= t ->
  exists front, pretty t = front ++ six_digits (t mod 1000000).
Proof.
  intros Ht. destruct t as [|p|p]; try lia.
  exists (pretty_N_go (N.pos p `div` 1000000)%N "").
  unfold pretty, pretty_Z, pretty, pretty_positive, pretty, pretty_N.
  destruct (decide (N.pos p = 0%N)) as [|_]; [lia|].
  set (n := N.pos p). assert (100000 <= n)%N as Hn by (subst n; lia).
  assert (Z.pos p = Z.of_N n) as -> by reflexivity. clearbody n.
  set (d := fun x : N => (x `div` 10)%N).
  assert (forall x k, (10 * k <= x)%N -> (k <= d x)%N) as Hk
    by (intros x k Hx; apply N.div_le_lower_bound; lia).
  assert (10000 <= d n)%N as H1 by (apply Hk; lia).
  assert (1000 <= d (d n))%N as H2 by (apply Hk; lia).
  assert (100 <= d (d (d n)))%N as H3 by (apply Hk; lia).
  assert (10 <= d (d (d (d n))))%N as H4 by (apply Hk; lia).
  assert (1 <= d (d (d (d (d n)))))%N as H5 by (apply Hk; lia).
  rewrite (pretty_N_go_step n) by lia. fold (d n).
  rewrite (pretty_N_go_step (d n)) by lia. fold (d (d n)).
  rewrite (pretty_N_go_step (d (d n))) by lia. fold (d (d (d n))).
  rewrite (pretty_N_go_step (d (d (d n)))) by lia. fold (d (d (d (d n)))).
  rewrite (pretty_N_go_step (d (d (d (d n))))) by lia. fold (d (d (d (d (d n))))).
  rewrite (pretty_N_go_step (d (d (d (d (d n)))))) by lia.
  fold (d (d (d (d (d (d n)))))).
  rewrite pretty_N_go_append.
  clear H1 H2 H3 H4 H5 Hk. subst d. cbv beta.
  rewrite !N.Div0.div_div, !digit_N.
  assert ((n `mod` 10)%N = Z.to_N (Z.of_N n / Z.of_N 1 mod 10)) as ->
    by (now rewrite <- (digit_N n 1), N.div_1_r).
  f_equal. unfold six_digits. cbn [List.map string_of_list_ascii].
  change (10 ^ 5) with 100000. change (10 ^ 4) with 10000. change (10 ^ 3) with 1000.
  change (10 ^ 2) with 100. change (10 ^ 1) with 10. change (10 ^ 0) with 1.
  set (z := Z.of_N n).
  change 1000000 with (1 * 10 * 100000) at 1. rewrite (digit_of_mod z 1 100000) by lia.
  change 1000000 with (10 * 10 * 10000) at 1. rewrite (digit_of_mod z 10 10000) by lia.
  change 1000000 with (100 * 10 * 1000) at 1. rewrite (digit_of_mod z 100 1000) by lia.
  change 1000000 with (1000 * 10 * 100) at 1. rewrite (digit_of_mod z 1000 100) by lia.
  change 1000000 with (10000 * 10 * 10) at 1. rewrite (digit_of_mod z 10000 10) by lia.
  change 1000000 with (100000 * 10 * 1) at 1. rewrite (digit_of_mod z 100000 1) by lia.
  reflexivity.
Qed.

(** X19.  For a clock of 100 seconds or more in milliseconds, as any
    real clock is, the request id that the step puts in the header
    [HRUN-Websocket-Request-ID] is [HRUN-], the case id, a dash, and
    exactly the last six decimal digits of the clock.  So two steps of
    one case whose clocks differ by a multiple of 1000 seconds get the
    same request id. *)
Theorem request_id_keeps_six_digits (case_id : string) (t : Z) :
  100000 <= t ->
  request_id case_id t = "HRUN-" ++ case_id ++ "-" ++ six_digits (t mod 1000000) /\
  String.length (six_digits (t mod 1000000)) = 6%nat /\
  (forall t', 100000 <= t' -> t' mod 1000000 = t mod 1000000 ->
              request_id case_id t' = request_id case_id t).
Proof.
  assert (forall u, 100000 <= u ->
            request_id case_id u = "HRUN-" ++ case_id ++ "-" ++ six_digits (u mod 1000000))
    as Hid.
  { intros u Hu. unfold request_id. destruct (pretty_six_digits u Hu) as [front ->].
    do 3 f_equal. apply (last_chars_append front (six_digits _)). }
  intros Ht. split; [now apply Hid|]. split; [reflexivity|].
  intros t' Ht' Hmod. now rewrite !Hid, Hmod.
Qed.

(** The clock of the examples, and the same clock 1000 seconds later. *)
Lemma request_id_keeps_six_digits_witness :
  request_id "abc123" 1700000123456 = "HRUN-abc123-123456" /\
  request_id "abc123" 1700001123456 = request_id "abc123" 1700000123456.
Proof.
  destruct (request_id_keeps_six_digits "abc123" 1700000123456) as (H1 & _ & H3); [lia|].
  split; [exact H1|]. apply H3; [lia | reflexivity].
Defined.

(* ===================================================================== *)
(** * The step builder *)
(* ===================================================================== *)

(** X20.  For each member of the enumeration,
    [ensure_websocket_method_type] gives the name of a method of the
    builder, and that method, called with a URL, is the one that sets the
    request type to this member and the URL to the one given.  Different
    members get different names, and a value that is no member raises
    [ValueError]. *)
Theorem builder_method_of_type (type : WebsocketMethodEnum) (url : string)
    (b : RunWebsocketRequest.t) :
  (exists name f,
     ensure_websocket_method_type (Some type) = Ok name /\
     RunWebsocketRequest.method name = Some f /\
     f url b = RunWebsocketRequest.with_url url (RunWebsocketRequest.set_type type b) /\
     request.type (step.websocket_request (f url b)) = Some type /\
     request.url (step.websocket_request (f url b)) = url) /\
  (forall type', ensure_websocket_method_type (Some type')
                   = ensure_websocket_method_type (Some type) -> type' = type) /\
  ensure_websocket_method_type None = Raise (ValueError "websocket type error").
Proof.
  split; [|split; [|reflexivity]].
  - destruct type; eexists _, _; repeat split.
  - intros type'. destruct type, type'; simpl; congruence.
Qed.

(** The method for a write-and-read request, on the step of the
    examples. *)
Lemma builder_method_of_type_witness :
  let b := sample_step None PNone [] in
  (exists name f,
     ensure_websocket_method_type (Some WR) = Ok name /\
     RunWebsocketRequest.method name = Some f /\
     f "/chat" b = RunWebsocketRequest.write_and_read "/chat" b /\
     request.type (step.websocket_request (f "/chat" b)) = Some WR /\
     request.url (step.websocket_request (f "/chat" b)) = "/chat") /\
  WR = WR.
Proof.
  intros b.
  destruct (builder_method_of_type WR "/chat" b) as (H1 & H2 & _).
  split; [exact H1 | exact (H2 WR eq_refl)].
Defined.

Lemma setup_hooks_added_spec (calls : list (string * option string)) :
  forall b,
    step.setup_hooks (setup_hooks_added calls b)
      = (step.setup_hooks b ++ hook_entries calls)%list /\
    step.teardown_hooks (setup_hooks_added calls b) = step.teardown_hooks b /\
    step.websocket_request (setup_hooks_added calls b) = step.websocket_request b.
Proof.
  induction calls as [|c calls IH]; intros b; simpl.
  - now rewrite app_nil_r.
  - destruct (IH (RunWebsocketRequest.setup_hook (fst c) (snd c) b)) as (H1 & H2 & H3).
    unfold setup_hooks_added in *. rewrite H1, H2, H3. simpl.
    now rewrite <- app_assoc.
Qed.

Lemma teardown_hooks_added_spec (calls : list (string * option string)) :
  forall b,
    step.teardown_hooks (teardown_hooks_added calls b)
      = (step.teardown_hooks b ++ hook_entries calls)%list /\
    step.setup_hooks (teardown_hooks_added calls b) = step.setup_hooks b /\
    step.websocket_request (teardown_hooks_added calls b) = step.websocket_request b.
Proof.
  induction calls as [|c calls IH]; intros b; simpl.
  - now rewrite app_nil_r.
  - destruct (IH (RunWebsocketRequest.teardown_hook (fst c) (snd c) b)) as (H1 & H2 & H3).
    unfold teardown_hooks_added in *. rewrite H1, H2, H3. simpl.
    now rewrite <- app_assoc.
Qed.

(** X21.  The builder keeps the hooks in the order of the calls: after
    any number of [setup_hook] and [teardown_hook] calls the two lists of
    the step are the lists it had, followed by one entry for each call in
    call order, and the request is untouched.  The entry is the dict
    [{assign_var_name: hook}] when a name is given and is not empty; an
    empty name counts as none and gives the plain hook. *)
Theorem hooks_are_kept_in_call_order (setups teardowns : list (string * option string))
    (b : RunWebsocketRequest.t) :
  let b' := teardown_hooks_added teardowns (setup_hooks_added setups b) in
  step.setup_hooks b' = (step.setup_hooks b ++ hook_entries setups)%list /\
  step.teardown_hooks b' = (step.teardown_hooks b ++ hook_entries teardowns)%list /\
  step.websocket_request b' = step.websocket_request b /\
  (forall hook, RunWebsocketRequest.hook_entry hook (Some "") = PStr hook) /\
  (forall hook var, var <> "" ->
     RunWebsocketRequest.hook_entry hook (Some var) = PDict [(var, PStr hook)]).
Proof.
  intros b'. subst b'.
  destruct (teardown_hooks_added_spec teardowns (setup_hooks_added setups b))
    as (T1 & T2 & T3).
  destruct (setup_hooks_added_spec setups b) as (S1 & S2 & S3).
  rewrite T1, T2, T3, S1, S2, S3. repeat split.
  intros hook var Hvar. destruct var; [congruence | reflexivity].
Qed.

(** Two setup hooks, the second with a variable name. *)
Lemma hooks_are_kept_in_call_order_witness :
  step.setup_hooks
    (setup_hooks_added [("${login()}", None); ("${token()}", Some "tok")]
       (sample_step (Some OPEN) PNone []))
    = [PStr "${login()}"; PDict [("tok", PStr "${token()}")]] /\
  RunWebsocketRequest.hook_entry "${token()}" (Some "tok")
    = PDict [("tok", PStr "${token()}")].
Proof.
  destruct (hooks_are_kept_in_call_order
              [("${login()}", None); ("${token()}", Some "tok")] []
              (sample_step (Some OPEN) PNone [])) as (H1 & _ & _ & _ & H5).
  split; [exact H1|]. apply H5. discriminate.
Defined.

(** X22.  [with_headers] and [with_variables] merge into what the step
    has: a name given in the call gets the value of the call, any other
    name keeps the value it had; and two calls in a row do what one call
    with both mappings does, the later mapping winning where the two
    share a name. *)
Theorem builder_updates_merge (b : RunWebsocketRequest.t) :
  (forall h1 h2,
     RunWebsocketRequest.with_headers h2 (RunWebsocketRequest.with_headers h1 b)
       = RunWebsocketRequest.with_headers (h2 ∪ h1) b) /\
  (forall h k,
     request.headers (step.websocket_request (RunWebsocketRequest.with_headers h b)) !! k
       = match h !! k with
         | Some v => Some v
         | None => request.headers (step.websocket_request b) !! k
         end) /\
  (forall v1 v2,
     RunWebsocketRequest.with_variables v2 (RunWebsocketRequest.with_variables v1 b)
       = RunWebsocketRequest.with_variables (v2 ∪ v1) b) /\
  (forall v k,
     step.variables (RunWebsocketRequest.with_variables v b) !! k
       = match v !! k with
         | Some x => Some x
         | None => step.variables b !! k
         end).
Proof.
  split; [|split; [|split]].
  - intros h1 h2. unfold RunWebsocketRequest.with_headers, RunWebsocketRequest.on_request,
      request.set_headers. simpl. now rewrite (assoc_L (∪)).
  - intros h k. simpl. rewrite lookup_union. now destruct (h !! k), (_ !! k).
  - intros v1 v2. unfold RunWebsocketRequest.with_variables. simpl.
    now rewrite (assoc_L (∪)).
  - intros v k. simpl. rewrite lookup_union. now destruct (v !! k), (_ !! k).
Qed.

(* ===================================================================== *)
(** * From the builder to the wire *)
(* ===================================================================== *)





